(** * Bidding core of the auction server

    A shallow embedding of the backend's bid pipeline
    (services/bid-processor.service, lib/redis-lock-manager.lib,
    sockets/bid-events.socket), of the expiry reaper
    (services/auction-data-fetcher.service, server entry point) and of the
    tables they work on (prisma migration), followed by the properties of
    the specification that concern them. Further functions of the same
    services (creation of an auction, bid history, lock status, time
    synchronisation) are embedded after these, and further properties of the
    code are proved after those of the specification.

    Conventions of the embedding.
    - A JS [number] that holds an amount is given by the decimal that
      [toString] prints for it (the shortest one that reads back as the same
      binary64 number), an exact rational [Q]. Comparisons of numbers are the
      comparisons of these rationals; the sum of two numbers is the binary64
      sum [jsAdd]. Amounts are finite numbers.
    - A prisma [Decimal] is an exact rational [Q]. [new Decimal(number)] reads
      the printed decimal of the number and [toNumber()] of a stored amount
      (at most twelve digits, which binary64 reads and prints back unchanged)
      gives the number that prints as it: both are the identity here.
    - The money columns of the tables are [DECIMAL(12,2)]: what is written to
      them is rounded to two decimals by the store, or refused when it does
      not fit ([DECIMAL_12_2]).
    - Timestamps are milliseconds since the epoch, in [Z].
    - Texts whose characters are looked at (title, description) are read as
      sequences of code units below 256.
    - The relational store is a record of tables: the rows of users and
      auctions are the values of a [gmap] whose keys are their [id] column;
      the bid table is the list of its rows in storage order.
    - Asynchronous functions are state transformers over [World] that either
      return a value or throw; what the environment decides (clock readings,
      generated identifiers, I/O failures) is read from an [Env]. *)

From Stdlib Require Import ZArith QArith Qabs Qround Qpower Lqa.
From stdpp Require Import base gmap list strings sorting.

Local Open Scope Z_scope.
Local Open Scope string_scope.

(** ** Numbers and amounts *)

(** JS [<] and [<=] on amounts. *)
Definition Qltb (x y : Q) : bool := negb (Qle_bool y x).
Definition Qleb (x y : Q) : bool := Qle_bool x y.

(** The nearest integer, ties to the even one. *)
Definition roundHalfEven (q : Q) : Z :=
  let f := Qfloor q in
  match (q - inject_Z f ?= 1 # 2)%Q with
  | Lt => f
  | Gt => f + 1
  | Eq => if Z.even f then f else f + 1
  end.

(** The [e] with [2^e <= q < 2^(e+1)], for a positive [q]. *)
Definition binaryExponent (q : Q) : Z :=
  let k := Z.log2 (Qnum q) - Z.log2 (Z.pos (Qden q)) in
  if Qle_bool (2 ^ k) q then k else k - 1.

(** The binary64 number nearest to [q] (a significand of 53 bits, ties to the
    even one), within the normal range of the format. *)
Definition nearestBinary64 (q : Q) : Q :=
  match (q ?= 0)%Q with
  | Eq => 0%Q
  | Gt =>
      let ulp := (2 ^ (binaryExponent q - 52))%Q in
      (inject_Z (roundHalfEven (q / ulp)) * ulp)%Q
  | Lt =>
      let ulp := (2 ^ (binaryExponent (- q) - 52))%Q in
      (- (inject_Z (roundHalfEven (- q / ulp)) * ulp))%Q
  end.

(** The relative error of one rounding to binary64: 2^-53. *)
Definition BINARY64_UNIT_ROUNDOFF : Q := 1 # 9007199254740992.

(** [Number.prototype.toString] prints the decimal with the fewest digits
    that reads back as the number and, among those, the one closest to it.
    The search goes from a coarse decimal place [10^p] to finer ones; at each
    place the two multiples of [10^p] around [x] are tried. *)
Fixpoint shortestDecimalFrom (fuel : nat) (p : Z) (x : Q) : Q :=
  match fuel with
  | O => x
  | S fuel' =>
      let step := (10 ^ p)%Q in
      let digits := Qfloor (x / step) in
      let below := Qred (inject_Z digits * step) in
      let above := Qred (inject_Z (digits + 1) * step) in
      let belowReadsBack := Qeq_bool (nearestBinary64 below) x in
      let aboveReadsBack := Qeq_bool (nearestBinary64 above) x in
      if belowReadsBack && aboveReadsBack
      then match (x - below ?= above - x)%Q with
           | Lt => below
           | Gt => above
           | Eq => if Z.even digits then below else above
           end
      else if belowReadsBack then below
      else if aboveReadsBack then above
      else shortestDecimalFrom fuel' (p - 1) x
  end.

(** The decimal that [toString] prints for the binary64 number [x]. *)
Definition shortestDecimal (x : Q) : Q :=
  match (x ?= 0)%Q with
  | Eq => 0%Q
  | Gt =>
      let start := (Z.log2 (Qceiling x) + 1) * 31 / 100 + 1 in
      shortestDecimalFrom (Z.to_nat (start + Z.log2 (Z.pos (Qden x)) + 20)) start x
  | Lt =>
      let start := (Z.log2 (Qceiling (- x)) + 1) * 31 / 100 + 1 in
      Qred (- shortestDecimalFrom (Z.to_nat (start + Z.log2 (Z.pos (Qden x)) + 20)) start (- x))
  end.

(** JS [a + b] on numbers: the operands are read as binary64, added, the sum
    rounded to binary64 and printed back. *)
Definition jsAdd (a b : Q) : Q :=
  shortestDecimal (nearestBinary64 (nearestBinary64 a + nearestBinary64 b)).

(** [Decimal.toNumber()] and [new Decimal(number)]. *)
Definition toNumber (d : Q) : Q := d.
Definition Decimal (n : Q) : Q := n.

(** The nearest integer, ties away from zero (the rounding of [numeric]
    columns). *)
Definition roundHalfAwayFromZero (q : Q) : Z :=
  if Qle_bool 0 q then Qfloor (q + (1 # 2)) else - Qfloor (- q + (1 # 2)).

(** The value that a [DECIMAL(12,2)] column takes when [q] is written to it:
    [q] rounded to two decimals. A rounded value of more than ten integer
    digits is refused (numeric field overflow). *)
Definition DECIMAL_12_2 (q : Q) : option Q :=
  let cents := roundHalfAwayFromZero (q * 100) in
  if (Z.abs cents <? 10 ^ 12)%Z then Some (Qred (cents # 100)) else None.

(** The values that such a column can hold. *)
Definition isColumnValue (c : Q) : Prop := DECIMAL_12_2 c = Some c.

(** ** Tables *)

Inductive AuctionItemStatus : Set := ACTIVE | ENDED | CANCELLED.

#[global] Instance AuctionItemStatus_eq_dec : EqDecision AuctionItemStatus.
Proof. solve_decision. Defined.

(** The columns that the functions below read or write; the others (titles,
    descriptions, image urls, credentials, creation times) are left out. The
    amounts are [DECIMAL(12,2)] columns. The [updated_at] of an auction is
    given by the store on every write that does not set it. The bid table
    refers to the auction table and to the user table by foreign keys. *)
Record User : Type := mkUser {
  username : string;
  fullName : string
}.

Record AuctionItem : Type := mkAuctionItem {
  startingPriceInDollars : Q;
  currentHighestBidInDollars : Q;
  minimumBidIncrementInDollars : Q;
  auctionStartTimeTimestamp : Z;
  auctionEndTimeTimestamp : Z;
  currentStatus : AuctionItemStatus;
  updatedAtTimestamp : Z;
  creatorUserId : string;
  winnerUserId : option string
}.

Record Bid : Type := mkBid {
  bid_id : string;
  bid_bidAmountInDollars : Q;
  placedAtTimestamp : Z;
  wasBidSuccessful : bool;
  bidProcessingTimeInMs : option Z;
  bid_auctionItemId : string;
  bidderUserId : string
}.

Record Store : Type := mkStore {
  auctionItem : gmap string AuctionItem;
  bid : list Bid;
  user : gmap string User
}.

(** ** Coordinator (redis): key -> value with the time-to-live it was set with *)

(** Values are texts; [RNumber q] is the text that [toString] prints for the
    number [q]. *)
Inductive RedisValue : Type :=
| RString (s : string)
| RNumber (q : Q).

Definition RedisValue_eqb (a b : RedisValue) : bool :=
  match a, b with
  | RString s, RString t => String.eqb s t
  | RNumber p, RNumber q => Qeq_bool p q
  | _, _ => false
  end.

(** ** Socket events *)

Record AuctionStateSyncPayload : Type := mkAuctionStateSyncPayload {
  sync_auctionItemId : string;
  sync_currentHighestBidInDollars : Q;
  sync_highestBidderUserId : option string;
  sync_highestBidderUsername : option string;
  sync_auctionEndTimeTimestamp : Z;
  sync_currentStatus : string;
  sync_totalNumberOfBids : nat
}.

Record BidUpdateBroadcastPayload : Type := mkBidUpdateBroadcastPayload {
  upd_auctionItemId : string;
  upd_newHighestBidInDollars : Q;
  upd_highestBidderUserId : string;
  upd_highestBidderUsername : string;
  upd_bidPlacedAtTimestamp : Z;
  upd_totalNumberOfBids : nat
}.

Record BidPlacedSuccessPayload : Type := mkBidPlacedSuccessPayload {
  ok_auctionItemId : string;
  ok_bidAmountInDollars : Q;
  ok_bidId : string;
  ok_bidPlacedAtTimestamp : Z
}.

(** Error messages: fixed texts, and the one message of the pipeline that is
    built from amounts (each printed by the source with [toFixed(2)]). *)
Inductive Message : Type :=
| Text (s : string)
| BidMustBeAtLeast (minimumRequiredBid currentBid increment : Q).

Record BidPlacedErrorPayload : Type := mkBidPlacedErrorPayload {
  err_auctionItemId : option string;
  err_errorCode : string;
  err_errorMessage : Message
}.

Record AuctionEndedPayload : Type := mkAuctionEndedPayload {
  ended_auctionItemId : string;
  ended_winnerUserId : option string;
  ended_winnerUsername : option string;
  ended_finalBidAmountInDollars : Q;
  ended_auctionEndedAtTimestamp : Z
}.

(** Untyped JS values, for the one place where the source reads properties
    of a value whose declared type has none of them. *)
#[local] Set Warnings "-register-all".
Inductive JsValue : Type :=
| JsUndefined
| JsNull
| JsNumber (n : Z)
| JsAmount (q : Q)
| JsString (s : string)
| JsArray (items : list JsValue)
| JsObject (fields : list (string * JsValue)).

Inductive ServerEvent : Type :=
| JOINED_AUCTION_ROOM (auctionItemId : string)
| LEFT_AUCTION_ROOM (auctionItemId : string)
| AUCTION_STATE_SYNC (p : AuctionStateSyncPayload)
| BID_UPDATE_BROADCAST (p : BidUpdateBroadcastPayload)
| BID_PLACED_SUCCESS (p : BidPlacedSuccessPayload)
| BID_PLACED_ERROR (p : BidPlacedErrorPayload)
| AUCTION_ENDED_NOTIFICATION (p : AuctionEndedPayload)
| auction_ended (auctionItemId winnerUserId winnerUsername finalBidAmountInDollars : JsValue).

(** Where an event is sent: [socket.emit], [io.to(room).emit], [io.emit]. *)
Inductive Emission : Type :=
| ToSocket (socketId : string) (e : ServerEvent)
| ToRoom (roomName : string) (e : ServerEvent)
| ToAll (e : ServerEvent).

(** ** The world the handlers run in *)

Record World : Type := mkWorld {
  store : Store;
  redis : gmap string (RedisValue * Z);
  rooms : gmap string (gset string);
  ioServer : bool;
  emitted : list Emission
}.

Definition with_store (w : World) (s : Store) : World :=
  mkWorld s (redis w) (rooms w) (ioServer w) (emitted w).

Definition with_redis (w : World) (r : gmap string (RedisValue * Z)) : World :=
  mkWorld (store w) r (rooms w) (ioServer w) (emitted w).

Definition with_rooms (w : World) (r : gmap string (gset string)) : World :=
  mkWorld (store w) (redis w) r (ioServer w) (emitted w).

Definition with_emitted (w : World) (l : list Emission) : World :=
  mkWorld (store w) (redis w) (rooms w) (ioServer w) l.

(** What the environment decides during one call. *)
Record Env : Type := mkEnv {
  generateUuidV4 : string;          (* the lock token drawn by acquire *)
  generatedBidId : string;          (* the id the store gives the created bid *)
  currentTimestamp : Z;             (* [new Date()] that end times are compared with *)
  bidPlacedAtTimestamp : Z;         (* [new Date()] of the write step *)
  processingStartTime : Z;          (* [Date.now()] on entry of the pipeline *)
  processingEndTime : Z;            (* [Date.now()] after the locked section *)
  databaseNow : Z;                  (* CURRENT_TIMESTAMP, the default of placed_at *)
  updatedAtOfUpdateMany : Z;        (* the updated_at given to the rows the reaper's updateMany changes *)
  updatedAtOfWinnerWrite : string -> Z; (* the updated_at given by the reaper's winner update of this auction *)
  redisSetFails : bool;             (* SET .. PX .. NX throws *)
  redisEvalFails : bool;            (* EVAL of the release script throws *)
  redisSetexFails : string -> bool; (* SETEX of this key throws *)
  findUniqueFails : bool;           (* auctionItem.findUnique throws *)
  transactionFails : bool;          (* $transaction throws (and rolls back) *)
  bidInfoFails : bool;              (* a query of fetchCurrentAuctionBidInfo throws *)
  bidCreateFails : bool;            (* bid.create of recordFailedBidAttempt throws *)
  updateManyFails : bool;           (* the reaper's updateMany throws *)
  findManyFails : bool;             (* the reaper's findMany throws *)
  winnerWriteFails : string -> bool (* the reaper's findFirst/update throws for this auction *)
}.

(** ** A state-and-exception monad for the asynchronous functions *)

Definition M (A : Type) : Type := World -> (string + A) * World.

Definition ret {A} (a : A) : M A := fun w => (inr a, w).

Definition throw {A} (msg : string) : M A := fun w => (inl msg, w).

Definition bind {A B} (m : M A) (k : A -> M B) : M B := fun w =>
  match m w with
  | (inl e, w') => (inl e, w')
  | (inr a, w') => k a w'
  end.

Notation "'do' x <- m ; k" := (bind m (fun x => k))
  (at level 10, x name, m at level 100, k at level 200).
Notation "'run' m ; k" := (bind m (fun _ => k))
  (at level 10, m at level 100, k at level 200).

Definition get_world : M World := fun w => (inr w, w).

Definition modify (f : World -> World) : M unit := fun w => (inr tt, f w).

(** [try { body } catch (e) { handler e }] *)
Definition try_catch {A} (body : M A) (handler : string -> M A) : M A := fun w =>
  match body w with
  | (inl e, w') => handler e w'
  | (inr a, w') => (inr a, w')
  end.

(** [try { body } finally { fin }]: [fin] runs on every exit of [body]; an
    exception of [fin] replaces the outcome of [body]. *)
Definition try_finally {A B} (body : M A) (fin : M B) : M A := fun w =>
  let '(r, w') := body w in
  match fin w' with
  | (inl e, w'') => (inl e, w'')
  | (inr _, w'') => (r, w'')
  end.

(** [await Promise.all([first, second])] of two requests: both are issued and
    each takes effect or fails on its own; the await throws when one of them
    failed. *)
Definition promise_all (first second : M unit) : M unit := fun w =>
  let '(r1, w1) := first w in
  let '(r2, w2) := second w1 in
  (match r1, r2 with
   | inl e, _ => inl e
   | inr _, inl e => inl e
   | inr _, inr _ => inr tt
   end, w2).

Definition emit (e : Emission) : M unit :=
  modify (fun w => with_emitted w (emitted w ++ [e])).

(** ** Error codes (constants/error-codes.constants) *)

Definition AUTH_ERROR_INVALID_CREDENTIALS := "AUTH_INVALID_CREDENTIALS".
Definition AUTH_ERROR_TOKEN_EXPIRED := "AUTH_TOKEN_EXPIRED".
Definition AUTH_ERROR_TOKEN_INVALID := "AUTH_TOKEN_INVALID".
Definition AUTH_ERROR_TOKEN_BLACKLISTED := "AUTH_TOKEN_BLACKLISTED".
Definition AUTH_ERROR_TOKEN_MISSING := "AUTH_TOKEN_MISSING".
Definition AUTH_ERROR_USER_NOT_FOUND := "AUTH_USER_NOT_FOUND".
Definition AUTH_ERROR_EMAIL_ALREADY_EXISTS := "AUTH_EMAIL_ALREADY_EXISTS".
Definition AUTH_ERROR_USERNAME_ALREADY_EXISTS := "AUTH_USERNAME_ALREADY_EXISTS".
Definition AUTH_ERROR_ACCOUNT_INACTIVE := "AUTH_ACCOUNT_INACTIVE".

Definition BID_ERROR_CONCURRENT_BID := "BID_CONCURRENT_BID_ERROR".
Definition BID_ERROR_AUCTION_ENDED := "BID_AUCTION_ENDED".
Definition BID_ERROR_AUCTION_NOT_STARTED := "BID_AUCTION_NOT_STARTED".
Definition BID_ERROR_AUCTION_NOT_FOUND := "BID_AUCTION_NOT_FOUND".
Definition BID_ERROR_BID_TOO_LOW := "BID_AMOUNT_TOO_LOW".
Definition BID_ERROR_INVALID_AMOUNT := "BID_INVALID_AMOUNT".
Definition BID_ERROR_OWN_AUCTION := "BID_CANNOT_BID_ON_OWN_AUCTION".
Definition BID_ERROR_PROCESSING_FAILED := "BID_PROCESSING_FAILED".
Definition BID_ERROR_LOCK_ACQUISITION_FAILED := "BID_LOCK_ACQUISITION_FAILED".

Definition AUCTION_ERROR_NOT_FOUND := "AUCTION_NOT_FOUND".
Definition AUCTION_ERROR_ALREADY_ENDED := "AUCTION_ALREADY_ENDED".
Definition AUCTION_ERROR_NOT_ACTIVE := "AUCTION_NOT_ACTIVE".
Definition AUCTION_ERROR_INVALID_DATES := "AUCTION_INVALID_DATES".

Definition VALIDATION_ERROR_INVALID_EMAIL := "VALIDATION_INVALID_EMAIL".
Definition VALIDATION_ERROR_INVALID_PASSWORD := "VALIDATION_INVALID_PASSWORD".
Definition VALIDATION_ERROR_INVALID_USERNAME := "VALIDATION_INVALID_USERNAME".
Definition VALIDATION_ERROR_REQUIRED_FIELD := "VALIDATION_REQUIRED_FIELD".
Definition VALIDATION_ERROR_INVALID_FORMAT := "VALIDATION_INVALID_FORMAT".

Definition SERVER_ERROR_INTERNAL := "SERVER_INTERNAL_ERROR".
Definition SERVER_ERROR_DATABASE := "SERVER_DATABASE_ERROR".
Definition SERVER_ERROR_REDIS := "SERVER_REDIS_ERROR".
Definition SERVER_ERROR_RATE_LIMIT := "SERVER_RATE_LIMIT_EXCEEDED".

Definition ERROR_MESSAGES_MAP : list (string * string) :=
  [ (AUTH_ERROR_INVALID_CREDENTIALS, "Invalid email/username or password");
    (AUTH_ERROR_TOKEN_EXPIRED, "Your session has expired. Please log in again");
    (AUTH_ERROR_TOKEN_INVALID, "Invalid authentication token");
    (AUTH_ERROR_TOKEN_BLACKLISTED, "This session has been logged out");
    (AUTH_ERROR_TOKEN_MISSING, "Authentication token is required");
    (AUTH_ERROR_USER_NOT_FOUND, "User not found");
    (AUTH_ERROR_EMAIL_ALREADY_EXISTS, "An account with this email already exists");
    (AUTH_ERROR_USERNAME_ALREADY_EXISTS, "This username is already taken");
    (AUTH_ERROR_ACCOUNT_INACTIVE, "Your account has been deactivated");
    (BID_ERROR_CONCURRENT_BID, "Another bid was placed at the same time. Please try again");
    (BID_ERROR_AUCTION_ENDED, "This auction has already ended");
    (BID_ERROR_AUCTION_NOT_STARTED, "This auction has not started yet");
    (BID_ERROR_AUCTION_NOT_FOUND, "Auction not found");
    (BID_ERROR_BID_TOO_LOW, "Your bid must be higher than the current bid plus minimum increment");
    (BID_ERROR_INVALID_AMOUNT, "Invalid bid amount");
    (BID_ERROR_OWN_AUCTION, "You cannot bid on your own auction");
    (BID_ERROR_PROCESSING_FAILED, "Failed to process bid. Please try again");
    (BID_ERROR_LOCK_ACQUISITION_FAILED, "Bid processing is busy. Please try again");
    (AUCTION_ERROR_NOT_FOUND, "Auction not found");
    (AUCTION_ERROR_ALREADY_ENDED, "This auction has already ended");
    (AUCTION_ERROR_NOT_ACTIVE, "This auction is not currently active");
    (AUCTION_ERROR_INVALID_DATES, "Invalid auction dates");
    (VALIDATION_ERROR_INVALID_EMAIL, "Please enter a valid email address");
    (VALIDATION_ERROR_INVALID_PASSWORD,
     "Password must be at least 8 characters with uppercase, lowercase, and number");
    (VALIDATION_ERROR_INVALID_USERNAME,
     "Username must be 3-30 characters, alphanumeric and underscores only");
    (VALIDATION_ERROR_REQUIRED_FIELD, "This field is required");
    (VALIDATION_ERROR_INVALID_FORMAT, "Invalid format");
    (SERVER_ERROR_INTERNAL, "An unexpected error occurred. Please try again later");
    (SERVER_ERROR_DATABASE, "Database error. Please try again later");
    (SERVER_ERROR_REDIS, "Service temporarily unavailable. Please try again");
    (SERVER_ERROR_RATE_LIMIT, "Too many requests. Please wait and try again") ].

Fixpoint assoc (k : string) (l : list (string * string)) : option string :=
  match l with
  | [] => None
  | (k', v) :: l' => if String.eqb k k' then Some v else assoc k l'
  end.

(** JS [a || b] on strings: the empty string is falsy. *)
Definition or_else (a : option string) (b : string) : string :=
  match a with
  | Some s => if String.eqb s "" then b else s
  | None => b
  end.

(** JS truthiness of a string that may be missing: [x || null], [!x]. *)
Definition truthy (x : option string) : option string :=
  match x with
  | Some s => if String.eqb s "" then None else Some s
  | None => None
  end.

Definition getErrorMessageFromCode (errorCode : string) : string :=
  or_else (assoc errorCode ERROR_MESSAGES_MAP) "An unknown error occurred".

(** ** Coordinator keys (constants/redis-keys.constants) *)

Definition REDIS_KEY_PREFIX_FOR_BID_PROCESSING_LOCK := "lock:bid-processing:".
Definition REDIS_KEY_PREFIX_FOR_CURRENT_BID := "auction:current-bid:".
Definition REDIS_KEY_PREFIX_FOR_HIGHEST_BIDDER := "auction:highest-bidder:".

Definition generateBidProcessingLockKey (auctionItemId : string) : string :=
  REDIS_KEY_PREFIX_FOR_BID_PROCESSING_LOCK ++ auctionItemId.

Definition generateCurrentBidCacheKey (auctionItemId : string) : string :=
  REDIS_KEY_PREFIX_FOR_CURRENT_BID ++ auctionItemId.

Definition generateHighestBidderCacheKey (auctionItemId : string) : string :=
  REDIS_KEY_PREFIX_FOR_HIGHEST_BIDDER ++ auctionItemId.

Definition CACHE_TTL_FOR_AUCTION_STATE_IN_SECONDS : Z := 60.
Definition LOCK_TTL_FOR_BID_PROCESSING_IN_MILLISECONDS : Z := 5000.

(** ** Redis lock manager (lib/redis-lock-manager.lib) *)

(** [SET key value PX ttl NX]: sets the key only when it is absent. *)
Definition redis_set_px_nx (env : Env) (key : string) (value : string) (ttl : Z)
  : M (option string) := fun w =>
  if redisSetFails env then (inl "redis error", w)
  else match redis w !! key with
       | Some _ => (inr None, w)
       | None => (inr (Some "OK"), with_redis w (<[key := (RString value, ttl)]> (redis w)))
       end.

(** [LUA_SCRIPT_FOR_SAFE_LOCK_RELEASE]: delete the key only when it holds
    the caller's identifier; answers the number of keys deleted. *)
Definition redis_eval_safe_lock_release (env : Env) (key : string) (value : string)
  : M Z := fun w =>
  if redisEvalFails env then (inl "redis error", w)
  else match redis w !! key with
       | Some (v, _) =>
           if RedisValue_eqb v (RString value)
           then (inr 1, with_redis w (delete key (redis w)))
           else (inr 0, w)
       | None => (inr 0, w)
       end.

Definition redis_setex (env : Env) (key : string) (seconds : Z) (value : RedisValue)
  : M unit := fun w =>
  if redisSetexFails env key then (inl "redis error", w)
  else (inr tt, with_redis w (<[key := (value, seconds * 1000)]> (redis w))).

Record LockAcquisitionResult : Type := mkLockAcquisitionResult {
  wasLockAcquiredSuccessfully : bool;
  uniqueLockIdentifier : option string;
  acq_errorMessage : option string
}.

Record LockReleaseResult : Type := mkLockReleaseResult {
  wasLockReleasedSuccessfully : bool;
  rel_errorMessage : option string
}.

Definition acquireDistributedLockForBidProcessing (env : Env) (auctionItemId : string)
    (lockTimeoutInMilliseconds : Z) : M LockAcquisitionResult :=
  let lockKeyName := generateBidProcessingLockKey auctionItemId in
  let uniqueLockIdentifier := generateUuidV4 env in
  try_catch
    (do lockAcquisitionResponse <-
        redis_set_px_nx env lockKeyName uniqueLockIdentifier lockTimeoutInMilliseconds;
     match lockAcquisitionResponse with
     | Some _ => ret (mkLockAcquisitionResult true (Some uniqueLockIdentifier) None)
     | None => ret (mkLockAcquisitionResult false None
                      (Some "Lock is currently held by another process"))
     end)
    (fun _ => ret (mkLockAcquisitionResult false None
                     (Some "Failed to acquire lock due to Redis error"))).

Definition releaseDistributedLockForBidProcessing (env : Env) (auctionItemId : string)
    (uniqueLockIdentifier : string) : M LockReleaseResult :=
  let lockKeyName := generateBidProcessingLockKey auctionItemId in
  try_catch
    (do lockReleaseResponse <-
        redis_eval_safe_lock_release env lockKeyName uniqueLockIdentifier;
     if (lockReleaseResponse =? 1)%Z
     then ret (mkLockReleaseResult true None)
     else ret (mkLockReleaseResult false
                 (Some "Lock was not owned by this process or has already expired")))
    (fun _ => ret (mkLockReleaseResult false
                     (Some "Failed to release lock due to Redis error"))).

Record ExecuteWithLockResult (T : Type) : Type := mkExecuteWithLockResult {
  wasExecutionSuccessful : bool;
  executionResult : option T;
  exec_errorMessage : option string;
  wasLockAcquired : bool
}.
Arguments mkExecuteWithLockResult {T}.
Arguments wasExecutionSuccessful {T}.
Arguments executionResult {T}.
Arguments exec_errorMessage {T}.
Arguments wasLockAcquired {T}.

Definition executeWithDistributedLock {T} (env : Env) (auctionItemId : string)
    (callbackToExecuteWhileHoldingLock : M T)
    (lockTimeoutInMilliseconds : Z) : M (ExecuteWithLockResult T) :=
  do lockAcquisitionResult <-
     acquireDistributedLockForBidProcessing env auctionItemId lockTimeoutInMilliseconds;
  if negb (wasLockAcquiredSuccessfully lockAcquisitionResult)
  then ret (mkExecuteWithLockResult false None (acq_errorMessage lockAcquisitionResult) false)
  else
    let uniqueLockIdentifier := default "" (uniqueLockIdentifier lockAcquisitionResult) in
    try_finally
      (try_catch
         (do executionResult <- callbackToExecuteWhileHoldingLock;
          ret (mkExecuteWithLockResult true (Some executionResult) None true))
         (fun errorMessage =>
            ret (mkExecuteWithLockResult false None (Some errorMessage) true)))
      (releaseDistributedLockForBidProcessing env auctionItemId uniqueLockIdentifier).

(** ** Bid processor (services/bid-processor.service) *)

Record BidProcessingResult : Type := mkBidProcessingResult {
  res_wasBidSuccessful : bool;
  res_bidId : option string;
  newHighestBidInDollars : option Q;
  previousHighestBidInDollars : option Q;
  res_bidPlacedAtTimestamp : option Z;
  errorCode : option string;
  errorMessage : option Message;
  processingTimeInMs : Z
}.

Record AuctionBidInfo : Type := mkAuctionBidInfo {
  info_auctionItemId : string;
  info_currentHighestBidInDollars : Q;
  info_highestBidderUserId : option string;
  info_highestBidderUsername : option string;
  info_minimumBidIncrementInDollars : Q;
  info_auctionEndTimeTimestamp : Z;
  info_totalNumberOfBids : nat
}.

Definition createErrorResult (errorCode : string) : BidProcessingResult :=
  mkBidProcessingResult false None None None None (Some errorCode)
    (Some (Text (getErrorMessageFromCode errorCode))) 0.

(** [prismaClient.auctionItem.findUnique({ where: { id } })] *)
Definition auctionItem_findUnique (env : Env) (id : string) : M (option AuctionItem) :=
  fun w =>
    if findUniqueFails env then (inl "database error", w)
    else (inr (auctionItem (store w) !! id), w).

(** The write of one bid on an auction row: [data: { currentHighestBidInDollars,
    updatedAtTimestamp }]; every other column is kept. *)
Definition setHighestBid (a : AuctionItem) (amount : Q) (now : Z) : AuctionItem :=
  mkAuctionItem (startingPriceInDollars a) amount
    (minimumBidIncrementInDollars a) (auctionStartTimeTimestamp a)
    (auctionEndTimeTimestamp a) (currentStatus a) now (creatorUserId a)
    (winnerUserId a).

(** [prismaClient.$transaction([auctionItem.update({ where: { id }, data }),
    bid.create({ data })])]: both writes or none. The update selects the row
    by its id alone; it throws when no row has that id or when the amount
    does not fit the column. The create throws when the generated primary key
    is taken or when the bidder is no user (foreign key). Both rows get the
    amount as the column rounds it. *)
Definition transaction_update_auction_and_create_bid (env : Env)
    (auctionItemId bidderUserId : string) (bidAmountDecimal : Q)
    (bidPlacedAtTimestamp : Z) : M Bid := fun w =>
  if transactionFails env then (inl "database error", w)
  else match auctionItem (store w) !! auctionItemId with
       | None => (inl "Record to update not found", w)
       | Some a =>
           match DECIMAL_12_2 bidAmountDecimal with
           | None => (inl "numeric field overflow", w)
           | Some storedAmount =>
               if existsb (fun b => String.eqb (bid_id b) (generatedBidId env)) (bid (store w))
               then (inl "Unique constraint failed", w)
               else
                 match user (store w) !! bidderUserId with
                 | None => (inl "Foreign key constraint failed", w)
                 | Some _ =>
                     let createdBid :=
                       mkBid (generatedBidId env) storedAmount bidPlacedAtTimestamp true None
                             auctionItemId bidderUserId in
                     (inr createdBid,
                      with_store w
                        (mkStore
                           (<[auctionItemId := setHighestBid a storedAmount bidPlacedAtTimestamp]>
                              (auctionItem (store w)))
                           (bid (store w) ++ [createdBid])
                           (user (store w))))
                 end
           end
       end.

Definition updateAuctionCacheInRedis (env : Env) (auctionItemId : string)
    (currentBidInDollars : Q) (highestBidderUserId : string) : M unit :=
  try_catch
    (let currentBidKey := generateCurrentBidCacheKey auctionItemId in
     let highestBidderKey := generateHighestBidderCacheKey auctionItemId in
     promise_all
       (redis_setex env currentBidKey CACHE_TTL_FOR_AUCTION_STATE_IN_SECONDS
          (RNumber currentBidInDollars))
       (redis_setex env highestBidderKey CACHE_TTL_FOR_AUCTION_STATE_IN_SECONDS
          (RString highestBidderUserId)))
    (fun _ => ret tt).

(** Steps 1 to 4 of [processBidTransaction]: read the auction and validate.
    Answers either the result to return at once, or the current highest bid
    that was read, for the write step. *)
Definition validateBid (env : Env) (auctionItemId bidderUserId : string)
    (bidAmountInDollars : Q) : M (BidProcessingResult + Q) :=
  do auctionItem <- auctionItem_findUnique env auctionItemId;
  match auctionItem with
  | None => ret (inl (createErrorResult BID_ERROR_AUCTION_NOT_FOUND))
  | Some auctionItem =>
      let currentTimestamp := currentTimestamp env in
      if negb (bool_decide (currentStatus auctionItem = ACTIVE))
      then ret (inl (createErrorResult BID_ERROR_AUCTION_ENDED))
      else if (currentTimestamp <? auctionStartTimeTimestamp auctionItem)%Z
      then ret (inl (createErrorResult BID_ERROR_AUCTION_NOT_STARTED))
      else if (auctionEndTimeTimestamp auctionItem <=? currentTimestamp)%Z
      then ret (inl (createErrorResult BID_ERROR_AUCTION_ENDED))
      else if String.eqb (creatorUserId auctionItem) bidderUserId
      then ret (inl (createErrorResult BID_ERROR_OWN_AUCTION))
      else
        let currentBidAsNumber := toNumber (currentHighestBidInDollars auctionItem) in
        let minimumIncrementAsNumber := toNumber (minimumBidIncrementInDollars auctionItem) in
        let minimumRequiredBid := jsAdd currentBidAsNumber minimumIncrementAsNumber in
        if Qltb bidAmountInDollars minimumRequiredBid
        then ret (inl (mkBidProcessingResult false None None (Some currentBidAsNumber) None
                         (Some BID_ERROR_BID_TOO_LOW)
                         (Some (BidMustBeAtLeast minimumRequiredBid currentBidAsNumber
                                  minimumIncrementAsNumber))
                         0))
        else ret (inr currentBidAsNumber)
  end.

(** Steps 5 and 6 of [processBidTransaction]: the transaction, then the cache. *)
Definition executeBidWrites (env : Env) (auctionItemId bidderUserId : string)
    (bidAmountInDollars : Q) (currentBidAsNumber : Q) : M BidProcessingResult :=
  let bidPlacedAtTimestamp := bidPlacedAtTimestamp env in
  let bidAmountDecimal := Decimal bidAmountInDollars in
  do createdBid <-
     transaction_update_auction_and_create_bid env auctionItemId bidderUserId
       bidAmountDecimal bidPlacedAtTimestamp;
  run updateAuctionCacheInRedis env auctionItemId bidAmountInDollars bidderUserId;
  ret (mkBidProcessingResult true (Some (bid_id createdBid)) (Some bidAmountInDollars)
         (Some currentBidAsNumber) (Some bidPlacedAtTimestamp) None None 0).

Definition processBidTransaction (env : Env) (auctionItemId bidderUserId : string)
    (bidAmountInDollars : Q) : M BidProcessingResult :=
  do validated <- validateBid env auctionItemId bidderUserId bidAmountInDollars;
  match validated with
  | inl result => ret result
  | inr currentBidAsNumber =>
      executeBidWrites env auctionItemId bidderUserId bidAmountInDollars currentBidAsNumber
  end.

(** The same function when another writer's action takes effect at the
    suspension point between the read of step 1 and the transaction of step 5
    (the guarded function awaits the store there). *)
Definition processBidTransaction_interleaved (env : Env) (other : M unit)
    (auctionItemId bidderUserId : string) (bidAmountInDollars : Q)
  : M BidProcessingResult :=
  do validated <- validateBid env auctionItemId bidderUserId bidAmountInDollars;
  match validated with
  | inl result => ret result
  | inr currentBidAsNumber =>
      run other;
      executeBidWrites env auctionItemId bidderUserId bidAmountInDollars currentBidAsNumber
  end.

Definition setProcessingTime (r : BidProcessingResult) (t : Z) : BidProcessingResult :=
  mkBidProcessingResult (res_wasBidSuccessful r) (res_bidId r) (newHighestBidInDollars r)
    (previousHighestBidInDollars r) (res_bidPlacedAtTimestamp r) (errorCode r)
    (errorMessage r) t.

Definition processBidWithDistributedLock (env : Env) (auctionItemId bidderUserId : string)
    (bidAmountInDollars : Q) : M BidProcessingResult :=
  let processingStartTime := processingStartTime env in
  do lockExecutionResult <-
     executeWithDistributedLock env auctionItemId
       (processBidTransaction env auctionItemId bidderUserId bidAmountInDollars)
       LOCK_TTL_FOR_BID_PROCESSING_IN_MILLISECONDS;
  let processingTimeInMs := (processingEndTime env - processingStartTime)%Z in
  if negb (wasLockAcquired lockExecutionResult)
  then ret (mkBidProcessingResult false None None None None
              (Some BID_ERROR_LOCK_ACQUISITION_FAILED)
              (Some (Text (getErrorMessageFromCode BID_ERROR_LOCK_ACQUISITION_FAILED)))
              processingTimeInMs)
  else
    match wasExecutionSuccessful lockExecutionResult, executionResult lockExecutionResult with
    | true, Some result => ret (setProcessingTime result processingTimeInMs)
    | _, _ =>
        ret (mkBidProcessingResult false None None None None
               (Some BID_ERROR_PROCESSING_FAILED)
               (Some (Text (or_else (exec_errorMessage lockExecutionResult)
                              "Bid processing failed")))
               processingTimeInMs)
    end.

(** [_count.allBidsOnItem]: every bid row of the auction, successful or not. *)
Definition count_allBidsOnItem (s : Store) (auctionItemId : string) : nat :=
  length (filter (fun b => bid_auctionItemId b = auctionItemId) (bid s)).

Definition successfulBidsOn (s : Store) (auctionItemId : string) : list Bid :=
  filter (fun b => bid_auctionItemId b = auctionItemId ∧ wasBidSuccessful b = true) (bid s).

(** [orderBy: { bidAmountInDollars: 'desc' }] followed by taking the first
    row. The query names no second sort key: among rows of equal amount the
    engine answers the one it meets first, here the first in storage order. *)
Fixpoint firstByAmountDesc (rows : list Bid) : option Bid :=
  match rows with
  | [] => None
  | b :: rest =>
      match firstByAmountDesc rest with
      | Some b' => if Qltb (bid_bidAmountInDollars b) (bid_bidAmountInDollars b')
                   then Some b' else Some b
      | None => Some b
      end
  end.

(** [prismaClient.bid.findFirst({ where: { auctionItemId, wasBidSuccessful: true },
    orderBy: { bidAmountInDollars: 'desc' } })] *)
Definition bid_findFirst_highest (s : Store) (auctionItemId : string) : option Bid :=
  firstByAmountDesc (successfulBidsOn s auctionItemId).

Definition fetchCurrentAuctionBidInfo (env : Env) (auctionItemId : string)
  : M (option AuctionBidInfo) :=
  try_catch
    (do w <- get_world;
     if bidInfoFails env then throw "database error"
     else
       match auctionItem (store w) !! auctionItemId with
       | None => ret None
       | Some auctionItem =>
           let highestBid := bid_findFirst_highest (store w) auctionItemId in
           (* [include: { bidderUser }]: the user row the bid refers to *)
           do bidderUser <-
              match highestBid with
              | None => ret None
              | Some b =>
                  match user (store w) !! bidderUserId b with
                  | Some u => ret (Some u)
                  | None => throw "TypeError"
                  end
              end;
           ret (Some (mkAuctionBidInfo
                        auctionItemId
                        (toNumber (currentHighestBidInDollars auctionItem))
                        (b ← highestBid; _ ← bidderUser; truthy (Some (bidderUserId b)))
                        (u ← bidderUser; truthy (Some (username u)))
                        (toNumber (minimumBidIncrementInDollars auctionItem))
                        (auctionEndTimeTimestamp auctionItem)
                        (count_allBidsOnItem (store w) auctionItemId)))
       end)
    (fun _ => ret None).

(** [prismaClient.bid.create({ data })] of a failed attempt: the insert throws
    when the amount does not fit the column, when the generated primary key
    is taken, and when the auction or the bidder does not exist (foreign
    keys). *)
Definition bid_create_failed_attempt (env : Env) (auctionItemId bidderUserId : string)
    (bidAmountDecimal : Q) (processingTimeInMs : Z) : M unit := fun w =>
  if bidCreateFails env then (inl "database error", w)
  else match DECIMAL_12_2 bidAmountDecimal with
       | None => (inl "numeric field overflow", w)
       | Some storedAmount =>
           if existsb (fun b => String.eqb (bid_id b) (generatedBidId env)) (bid (store w))
           then (inl "Unique constraint failed", w)
           else
             match auctionItem (store w) !! auctionItemId, user (store w) !! bidderUserId with
             | Some _, Some _ =>
                 (inr tt,
                  with_store w
                    (mkStore (auctionItem (store w))
                       (bid (store w) ++
                          [mkBid (generatedBidId env) storedAmount (databaseNow env)
                             false (Some processingTimeInMs) auctionItemId bidderUserId])
                       (user (store w))))
             | _, _ => (inl "Foreign key constraint failed", w)
             end
       end.

Definition recordFailedBidAttempt (env : Env) (auctionItemId bidderUserId : string)
    (bidAmountInDollars : Q) (processingTimeInMs : Z) : M unit :=
  try_catch
    (bid_create_failed_attempt env auctionItemId bidderUserId (Decimal bidAmountInDollars)
       processingTimeInMs)
    (fun _ => ret tt).

(** ** Bid events over the socket (sockets/bid-events.socket) *)

Record AuthenticatedSocketData : Type := mkAuthenticatedSocketData {
  userId : string;
  userEmail : string;
  userFullName : string;
  sd_username : string;
  jwtToken : string
}.

Record Socket : Type := mkSocket {
  socket_id : string;
  data : option AuthenticatedSocketData
}.

(** What comes with a [JOIN_AUCTION_ROOM] or [LEAVE_AUCTION_ROOM] message
    ([JoinAuctionRoomPayload] and [LeaveAuctionRoomPayload] alike): a value
    whose [auctionItemId] may be missing, or no value at all ([undefined],
    [null]), of which no property can be read. *)
Inductive JoinAuctionRoomPayload : Type :=
| mkJoinAuctionRoomPayload (auctionItemId : option string)
| noJoinAuctionRoomPayload.

Definition join_auctionItemId (payload : JoinAuctionRoomPayload) : option string :=
  match payload with
  | mkJoinAuctionRoomPayload auctionItemId => auctionItemId
  | noJoinAuctionRoomPayload => None
  end.

(** What comes with a [PLACE_BID] message: a value of which either field may
    be missing and whose amount may be something else than a number ([None]),
    or no value at all ([undefined], [null]), of which no property can be
    read. *)
Inductive PlaceBidPayload : Type :=
| mkPlaceBidPayload (auctionItemId : option string) (bidAmountInDollars : option Q)
| noPlaceBidPayload.

Definition pb_auctionItemId (payload : PlaceBidPayload) : option string :=
  match payload with
  | mkPlaceBidPayload auctionItemId _ => auctionItemId
  | noPlaceBidPayload => None
  end.

Definition pb_bidAmountInDollars (payload : PlaceBidPayload) : option Q :=
  match payload with
  | mkPlaceBidPayload _ bidAmountInDollars => bidAmountInDollars
  | noPlaceBidPayload => None
  end.

Definition SOCKET_ROOM_PREFIX_FOR_AUCTION := "auction-room:".

Definition generateAuctionRoomNameFromId (auctionItemId : string) : string :=
  SOCKET_ROOM_PREFIX_FOR_AUCTION ++ auctionItemId.

Definition getUserDataFromSocket (socket : Socket) : option AuthenticatedSocketData :=
  match data socket with
  | Some d => if String.eqb (userId d) "" then None else Some d
  | None => None
  end.

Definition socket_join (socket : Socket) (roomName : string) : M unit :=
  modify (fun w =>
    with_rooms w
      (<[roomName := {[socket_id socket]} ∪ default ∅ (rooms w !! roomName)]> (rooms w))).

(** The handlers destructure the payload before anything else: without a
    payload they throw at once. *)
Definition handleJoinRoom (env : Env) (socket : Socket) (payload : JoinAuctionRoomPayload)
  : M unit :=
  match payload with
  | noJoinAuctionRoomPayload => throw "TypeError"
  | mkJoinAuctionRoomPayload auctionItemId =>
      match truthy auctionItemId with
      | None => ret tt
      | Some auctionItemId =>
          let roomName := generateAuctionRoomNameFromId auctionItemId in
          run socket_join socket roomName;
          run emit (ToSocket (socket_id socket) (JOINED_AUCTION_ROOM auctionItemId));
          do bidInfo <- fetchCurrentAuctionBidInfo env auctionItemId;
          match bidInfo with
          | Some bidInfo =>
              emit (ToSocket (socket_id socket)
                      (AUCTION_STATE_SYNC
                         (mkAuctionStateSyncPayload
                            (info_auctionItemId bidInfo)
                            (info_currentHighestBidInDollars bidInfo)
                            (info_highestBidderUserId bidInfo)
                            (info_highestBidderUsername bidInfo)
                            (info_auctionEndTimeTimestamp bidInfo)
                            "ACTIVE"
                            (info_totalNumberOfBids bidInfo))))
          | None => ret tt
          end
      end
  end.

Definition socket_leave (socket : Socket) (roomName : string) : M unit :=
  modify (fun w =>
    with_rooms w
      (<[roomName := default ∅ (rooms w !! roomName) ∖ {[socket_id socket]}]> (rooms w))).

Definition handleLeaveRoom (socket : Socket) (payload : JoinAuctionRoomPayload) : M unit :=
  match payload with
  | noJoinAuctionRoomPayload => throw "TypeError"
  | mkJoinAuctionRoomPayload auctionItemId =>
      match truthy auctionItemId with
      | None => ret tt
      | Some auctionItemId =>
          let roomName := generateAuctionRoomNameFromId auctionItemId in
          run socket_leave socket roomName;
          emit (ToSocket (socket_id socket) (LEFT_AUCTION_ROOM auctionItemId))
      end
  end.

Definition handlePlaceBid (env : Env) (socket : Socket) (payload : PlaceBidPayload)
  : M unit :=
  match payload with
  | noPlaceBidPayload => throw "TypeError"
  | mkPlaceBidPayload _ _ =>
      match getUserDataFromSocket socket with
      | None =>
          emit (ToSocket (socket_id socket)
                  (BID_PLACED_ERROR
                     (mkBidPlacedErrorPayload (pb_auctionItemId payload) "AUTH_ERROR"
                        (Text "Not authenticated"))))
      | Some userData =>
          match truthy (pb_auctionItemId payload), pb_bidAmountInDollars payload with
          | Some auctionItemId, Some bidAmountInDollars =>
              if Qleb bidAmountInDollars 0
              then emit (ToSocket (socket_id socket)
                           (BID_PLACED_ERROR
                              (mkBidPlacedErrorPayload (pb_auctionItemId payload)
                                 "VALIDATION_ERROR" (Text "Invalid bid data"))))
              else
                try_catch
                  (do result <-
                      processBidWithDistributedLock env auctionItemId (userId userData)
                        bidAmountInDollars;
                   if res_wasBidSuccessful result
                   then
                     match res_bidPlacedAtTimestamp result with
                     | None => throw "TypeError"
                     | Some placedAt =>
                         run emit (ToSocket (socket_id socket)
                                     (BID_PLACED_SUCCESS
                                        (mkBidPlacedSuccessPayload auctionItemId bidAmountInDollars
                                           (default "" (res_bidId result)) placedAt)));
                         let roomName := generateAuctionRoomNameFromId auctionItemId in
                         do bidInfo <- fetchCurrentAuctionBidInfo env auctionItemId;
                         let totalNumberOfBids :=
                           match info_totalNumberOfBids <$> bidInfo with
                           | Some (S n) => S n
                           | _ => 1%nat
                           end in
                         do w <- get_world;
                         if ioServer w
                         then emit (ToRoom roomName
                                      (BID_UPDATE_BROADCAST
                                         (mkBidUpdateBroadcastPayload auctionItemId
                                            (default 0%Q (newHighestBidInDollars result))
                                            (userId userData) (sd_username userData)
                                            placedAt totalNumberOfBids)))
                         else ret tt
                     end
                   else
                     emit (ToSocket (socket_id socket)
                             (BID_PLACED_ERROR
                                (mkBidPlacedErrorPayload (Some auctionItemId)
                                   (or_else (errorCode result) "BID_FAILED")
                                   (match errorMessage result with
                                    | Some (Text "") | None => Text "Bid failed"
                                    | Some m => m
                                    end)))))
                  (fun _ =>
                     emit (ToSocket (socket_id socket)
                             (BID_PLACED_ERROR
                                (mkBidPlacedErrorPayload (Some auctionItemId) "SERVER_ERROR"
                                   (Text "An error occurred while processing your bid")))))
          | _, _ =>
              emit (ToSocket (socket_id socket)
                      (BID_PLACED_ERROR
                         (mkBidPlacedErrorPayload (pb_auctionItemId payload)
                            "VALIDATION_ERROR" (Text "Invalid bid data"))))
          end
      end
  end.

(** The room broadcast of an ended auction. No function of the source calls
    it. *)
Definition broadcastAuctionEnded (env : Env) (auctionItemId : string)
    (winnerUserId winnerUsername : option string) (finalBidAmountInDollars : Q) : M unit :=
  do w <- get_world;
  if negb (ioServer w) then ret tt
  else emit (ToRoom (generateAuctionRoomNameFromId auctionItemId)
               (AUCTION_ENDED_NOTIFICATION
                  (mkAuctionEndedPayload auctionItemId winnerUserId winnerUsername
                     finalBidAmountInDollars (currentTimestamp env)))).

(** ** Expiry reaper (services/auction-data-fetcher.service, server entry point) *)

Fixpoint for_each {A} (l : list A) (body : A -> M unit) : M unit :=
  match l with
  | [] => ret tt
  | x :: l' => run body x; for_each l' body
  end.

(** The writes of the reaper on an auction row: [data: { currentStatus }] and
    [data: { winnerUserId }]. Neither sets [updatedAtTimestamp], so the store
    gives it the time of the write. *)
Definition setStatus (a : AuctionItem) (st : AuctionItemStatus) (updatedAt : Z) : AuctionItem :=
  mkAuctionItem (startingPriceInDollars a) (currentHighestBidInDollars a)
    (minimumBidIncrementInDollars a) (auctionStartTimeTimestamp a)
    (auctionEndTimeTimestamp a) st updatedAt (creatorUserId a)
    (winnerUserId a).

Definition setWinner (a : AuctionItem) (winner : string) (updatedAt : Z) : AuctionItem :=
  mkAuctionItem (startingPriceInDollars a) (currentHighestBidInDollars a)
    (minimumBidIncrementInDollars a) (auctionStartTimeTimestamp a)
    (auctionEndTimeTimestamp a) (currentStatus a) updatedAt (creatorUserId a)
    (Some winner).

(** [where: { currentStatus: 'ACTIVE', auctionEndTimeTimestamp: { lte: now } }] *)
Definition isExpiredActive (now : Z) (a : AuctionItem) : bool :=
  bool_decide (currentStatus a = ACTIVE) && (auctionEndTimeTimestamp a <=? now)%Z.

(** [where: { currentStatus: 'ENDED', winnerUserId: null }] *)
Definition isEndedWithoutWinner (a : AuctionItem) : bool :=
  bool_decide (currentStatus a = ENDED) && bool_decide (winnerUserId a = None).

(** [prismaClient.auctionItem.updateMany({ where, data: { currentStatus: 'ENDED' } })],
    answering the number of rows it changed. *)
Definition auctionItem_updateMany_expired (env : Env) : M Z := fun w =>
  if updateManyFails env then (inl "database error", w)
  else
    let now := currentTimestamp env in
    let rows := auctionItem (store w) in
    (inr (Z.of_nat (size (filter (fun kv => isExpiredActive now kv.2 = true) rows))),
     with_store w
       (mkStore ((fun a => if isExpiredActive now a
                           then setStatus a ENDED (updatedAtOfUpdateMany env) else a) <$> rows)
          (bid (store w)) (user (store w)))).

Definition auctionItem_findMany_ended_without_winner (env : Env)
  : M (list (string * AuctionItem)) :=
  fun w =>
    if findManyFails env then (inl "database error", w)
    else (inr (filter (fun row => isEndedWithoutWinner row.2 = true)
                 (map_to_list (auctionItem (store w)))), w).

(** [prismaClient.auctionItem.update({ where: { id }, data: { winnerUserId } })] *)
Definition auctionItem_update_winner (env : Env) (id : string) (winner : string) : M unit :=
  fun w =>
    match auctionItem (store w) !! id with
    | None => (inl "Record to update not found", w)
    | Some a =>
        (inr tt,
         with_store w
           (mkStore (<[id := setWinner a winner (updatedAtOfWinnerWrite env id)]>
                       (auctionItem (store w)))
              (bid (store w)) (user (store w))))
    end.

(** The body of the loop [for (const auction of endedAuctions)]; the row's
    [id] is the key it is stored under. *)
Definition assignWinner (env : Env) (auction : string * AuctionItem) : M unit :=
  do w <- get_world;
  if winnerWriteFails env auction.1 then throw "database error"
  else
    match bid_findFirst_highest (store w) auction.1 with
    | Some highestBid => auctionItem_update_winner env auction.1 (bidderUserId highestBid)
    | None => ret tt
    end.

(** The [try] block of [markExpiredAuctionsAsEnded]. *)
Definition endExpiredAuctions (env : Env) : M Z :=
  do result_count <- auctionItem_updateMany_expired env;
  do endedAuctions <- auctionItem_findMany_ended_without_winner env;
  run for_each endedAuctions (assignWinner env);
  ret result_count.

Definition markExpiredAuctionsAsEnded (env : Env) : M Z :=
  try_catch (endExpiredAuctions env) (fun _ => ret 0).

(** Property read [value.name]: only objects have the properties read here. *)
Definition js_get (v : JsValue) (name : string) : JsValue :=
  match v with
  | JsObject fields =>
      match find (fun kv => String.eqb (fst kv) name) fields with
      | Some kv => snd kv
      | None => JsUndefined
      end
  | _ => JsUndefined
  end.

(** [v > 0]: [undefined] converts to NaN, and every comparison with NaN is false. *)
Definition js_gt_zero (v : JsValue) : bool :=
  match v with
  | JsNumber n => (0 <? n)%Z
  | JsAmount q => Qltb 0 q
  | _ => false
  end.

(** [checkExpiredAuctions] of the server entry point. The value it gets from
    [markExpiredAuctionsAsEnded] is the number that function returns. *)
Definition checkExpiredAuctions (env : Env) : M unit :=
  try_catch
    (do n <- markExpiredAuctionsAsEnded env;
     let result := JsNumber n in
     if js_gt_zero (js_get result "count")
     then
       match js_get result "endedAuctions" with
       | JsArray items =>
           for_each items (fun auction =>
             emit (ToAll (auction_ended (js_get auction "auctionItemId")
                            (js_get auction "winnerUserId")
                            (js_get auction "winnerUsername")
                            (js_get auction "finalBidAmountInDollars"))))
       | _ => throw "TypeError: result.endedAuctions is not iterable"
       end
     else ret tt)
    (fun _ => ret tt).

(** * Notions used in the properties *)

(** ** Outcomes of the lock manager, of the bid transaction and of the handlers *)

Definition lockKeyFree (env : Env) (auctionItemId : string) (w : World) : bool :=
  negb (redisSetFails env) &&
  match redis w !! generateBidProcessingLockKey auctionItemId with
  | None => true
  | Some _ => false
  end.

(** The world right after a successful acquisition. *)
Definition lockedWorld (env : Env) (auctionItemId : string) (ttl : Z) (w : World) : World :=
  with_redis w
    (<[generateBidProcessingLockKey auctionItemId := (RString (generateUuidV4 env), ttl)]>
       (redis w)).

Definition lockUnavailableMessage (env : Env) : string :=
  if redisSetFails env then "Failed to acquire lock due to Redis error"
  else "Lock is currently held by another process".

(** What the release script leaves in the coordinator. *)
Definition releasedRedis (env : Env) (auctionItemId token : string)
    (r : gmap string (RedisValue * Z)) : gmap string (RedisValue * Z) :=
  if redisEvalFails env then r
  else match r !! generateBidProcessingLockKey auctionItemId with
       | Some (v, _) =>
           if RedisValue_eqb v (RString token)
           then delete (generateBidProcessingLockKey auctionItemId) r
           else r
       | None => r
       end.

(** The outcome of the guarded function as [executeWithDistributedLock] reports it. *)
Definition reportOutcome {T} (outcome : string + T) : ExecuteWithLockResult T :=
  match outcome with
  | inr x => mkExecuteWithLockResult true (Some x) None true
  | inl e => mkExecuteWithLockResult false None (Some e) true
  end.

Definition lockUnavailableResult (env : Env) : BidProcessingResult :=
  mkBidProcessingResult false None None None None
    (Some BID_ERROR_LOCK_ACQUISITION_FAILED)
    (Some (Text (getErrorMessageFromCode BID_ERROR_LOCK_ACQUISITION_FAILED)))
    (processingEndTime env - processingStartTime env).

Definition bidIdTaken (env : Env) (s : Store) : bool :=
  existsb (fun b => String.eqb (bid_id b) (generatedBidId env)) (bid s).

(** The bid row that an accepted bid inserts; [amount] is the amount as the
    column stores it. *)
Definition acceptedBidRow (env : Env) (auctionItemId bidderUserId : string) (amount : Q) : Bid :=
  mkBid (generatedBidId env) amount (bidPlacedAtTimestamp env) true None
        auctionItemId bidderUserId.

(** The store after the transaction of an accepted bid; [amount] is the amount
    as the columns store it. *)
Definition committedStore (env : Env) (auctionItemId bidderUserId : string) (amount : Q)
    (a : AuctionItem) (s : Store) : Store :=
  mkStore (<[auctionItemId := setHighestBid a amount (bidPlacedAtTimestamp env)]> (auctionItem s))
          (bid s ++ [acceptedBidRow env auctionItemId bidderUserId amount])
          (user s).

(** The coordinator after the cache refresh of an accepted bid. *)
Definition setexIfAnswered (env : Env) (key : string) (value : RedisValue)
    (r : gmap string (RedisValue * Z)) : gmap string (RedisValue * Z) :=
  if redisSetexFails env key then r
  else <[key := (value, CACHE_TTL_FOR_AUCTION_STATE_IN_SECONDS * 1000)]> r.

Definition refreshedCache (env : Env) (auctionItemId bidderUserId : string) (amount : Q)
    (r : gmap string (RedisValue * Z)) : gmap string (RedisValue * Z) :=
  setexIfAnswered env (generateHighestBidderCacheKey auctionItemId) (RString bidderUserId)
    (setexIfAnswered env (generateCurrentBidCacheKey auctionItemId) (RNumber amount) r).

Definition acceptedResult (env : Env) (amount previous : Q) : BidProcessingResult :=
  mkBidProcessingResult true (Some (generatedBidId env)) (Some amount) (Some previous)
    (Some (bidPlacedAtTimestamp env)) None None 0.

(** The checks of steps 2 to 4 on the row that was read. *)
Definition rejection (env : Env) (bidderUserId : string) (amount : Q) (a : AuctionItem)
  : option BidProcessingResult :=
  if negb (bool_decide (currentStatus a = ACTIVE))
  then Some (createErrorResult BID_ERROR_AUCTION_ENDED)
  else if (currentTimestamp env <? auctionStartTimeTimestamp a)%Z
  then Some (createErrorResult BID_ERROR_AUCTION_NOT_STARTED)
  else if (auctionEndTimeTimestamp a <=? currentTimestamp env)%Z
  then Some (createErrorResult BID_ERROR_AUCTION_ENDED)
  else if String.eqb (creatorUserId a) bidderUserId
  then Some (createErrorResult BID_ERROR_OWN_AUCTION)
  else if Qltb amount (jsAdd (currentHighestBidInDollars a) (minimumBidIncrementInDollars a))
  then Some (mkBidProcessingResult false None None (Some (currentHighestBidInDollars a)) None
               (Some BID_ERROR_BID_TOO_LOW)
               (Some (BidMustBeAtLeast
                        (jsAdd (currentHighestBidInDollars a) (minimumBidIncrementInDollars a))
                        (currentHighestBidInDollars a) (minimumBidIncrementInDollars a)))
               0)
  else None.

(** When a bid on world [w] is accepted: the row exists, passes the checks,
    and the transaction goes through (the amount fits the column, which
    stores it as [stored]; the bid id is free; the bidder is a user). *)
Definition accepts (env : Env) (auctionItemId bidderUserId : string) (amount : Q)
    (s : Store) (a : AuctionItem) (stored : Q) : Prop :=
  findUniqueFails env = false /\ auctionItem s !! auctionItemId = Some a /\
  rejection env bidderUserId amount a = None /\
  transactionFails env = false /\ DECIMAL_12_2 amount = Some stored /\
  bidIdTaken env s = false /\ is_Some (user s !! bidderUserId).

(** What the handler sends for an accepted bid: the reply to the bidder, then
    the broadcast to the auction's room. *)
Definition acceptedEmissions (env : Env) (socket : Socket) (userData : AuthenticatedSocketData)
    (auctionItemId : string) (amount : Q) (count : nat) (io : bool) : list Emission :=
  ToSocket (socket_id socket)
    (BID_PLACED_SUCCESS
       (mkBidPlacedSuccessPayload auctionItemId amount (generatedBidId env)
          (bidPlacedAtTimestamp env)))
  :: (if io
      then [ToRoom (generateAuctionRoomNameFromId auctionItemId)
              (BID_UPDATE_BROADCAST
                 (mkBidUpdateBroadcastPayload auctionItemId amount
                    (userId userData) (sd_username userData)
                    (bidPlacedAtTimestamp env) count))]
      else []).

(** The highest bidder as the store has it. *)
Definition storedHighestBidder (s : Store) (id : string) : option (string * User) :=
  b ← bid_findFirst_highest s id; u ← user s !! bidderUserId b; Some (bidderUserId b, u).

(** ** Effect of the reaper *)

(** The row of auction [id] once the reaper's loop has dealt with it. *)
Definition withWinner (env : Env) (s : Store) (id : string) (a : AuctionItem) : AuctionItem :=
  match bid_findFirst_highest s id with
  | Some highestBid => setWinner a (bidderUserId highestBid) (updatedAtOfWinnerWrite env id)
  | None => a
  end.

Definition winnerStep (env : Env) (s : Store) (m : gmap string AuctionItem)
    (row : string * AuctionItem) : gmap string AuctionItem :=
  alter (withWinner env s row.1) row.1 m.

(** The row once the reaper's [updateMany] has dealt with it. *)
Definition endRow (env : Env) (a : AuctionItem) : AuctionItem :=
  if isExpiredActive (currentTimestamp env) a
  then setStatus a ENDED (updatedAtOfUpdateMany env) else a.

(** The row of auction [id] that a run of the reaper's [try] block leaves. *)
Definition reapedRow (env : Env) (s : Store) (id : string) (a : AuctionItem) : AuctionItem :=
  if isEndedWithoutWinner (endRow env a) then withWinner env s id (endRow env a)
  else endRow env a.

(** The spec's notification step: one [AUCTION_ENDED_NOTIFICATION] for the
    auction, sent to its room, carrying the winner and the final amount. *)
Definition isEndedNotificationFor (id : string) (e : Emission) : Prop :=
  exists p, e = ToRoom (generateAuctionRoomNameFromId id) (AUCTION_ENDED_NOTIFICATION p) /\
            ended_auctionItemId p = id.

(** ** The invariant of the bid table *)

Definition prices (a : AuctionItem) : Q * Q :=
  (currentHighestBidInDollars a, minimumBidIncrementInDollars a).

(** Two stores with the same bid table and, row by row, the same current
    highest bid and minimum increment. *)
Definition samePrices (s s' : Store) : Prop :=
  bid s' = bid s /\
  forall id, prices <$> auctionItem s' !! id = prices <$> auctionItem s !! id.

(** The current highest bid and the minimum increment are column values, and
    the increment is positive. *)
Definition pricedInCents (a : AuctionItem) : Prop :=
  isColumnValue (currentHighestBidInDollars a) /\
  isColumnValue (minimumBidIncrementInDollars a) /\
  (0 < minimumBidIncrementInDollars a)%Q.

(** The invariant of the bid table at clock reading [t]: prices are column
    values and increments are positive, no successful bid is placed after
    [t], no successful bid exceeds the current highest bid of its auction, and
    successful bids of one auction placed at different times differ by at
    least the increment. *)
Definition Inv (s : Store) (t : Z) : Prop :=
  (forall id a, auctionItem s !! id = Some a -> pricedInCents a) /\
  (forall b, b ∈ bid s -> wasBidSuccessful b = true -> (placedAtTimestamp b <= t)%Z) /\
  (forall b a, b ∈ bid s -> wasBidSuccessful b = true ->
     auctionItem s !! bid_auctionItemId b = Some a ->
     (bid_bidAmountInDollars b <= currentHighestBidInDollars a)%Q) /\
  (forall b1 b2 a, b1 ∈ bid s -> b2 ∈ bid s ->
     wasBidSuccessful b1 = true -> wasBidSuccessful b2 = true ->
     bid_auctionItemId b1 = bid_auctionItemId b2 ->
     auctionItem s !! bid_auctionItemId b1 = Some a ->
     (placedAtTimestamp b1 < placedAtTimestamp b2)%Z ->
     (bid_bidAmountInDollars b1 + minimumBidIncrementInDollars a
      <= bid_bidAmountInDollars b2)%Q).

(** The worlds that the services reach from a store without bids whose
    auctions hold column values as prices and have a positive minimum
    increment (as [createAuctionItem] requires of every auction it creates:
    at least $0.01), when the lock serialises the bid transactions (each call
    below runs as a whole) and the clock read by the write step never goes
    back. The second component is the latest reading of that clock. *)
Inductive reachable : World -> Z -> Prop :=
| reachable_initial w t :
    bid (store w) = [] ->
    (forall id a, auctionItem (store w) !! id = Some a -> pricedInCents a) ->
    reachable w t
| reachable_bid w t env auctionItemId bidderUserId amount :
    reachable w t ->
    (t <= bidPlacedAtTimestamp env)%Z ->
    reachable (snd (processBidWithDistributedLock env auctionItemId bidderUserId amount w))
              (bidPlacedAtTimestamp env)
| reachable_tick w t env :
    reachable w t ->
    reachable (snd (markExpiredAuctionsAsEnded env w)) t
| reachable_failed_attempt w t env auctionItemId bidderUserId amount ms :
    reachable w t ->
    reachable (snd (recordFailedBidAttempt env auctionItemId bidderUserId amount ms w)) t
| reachable_join w t env socket payload :
    reachable w t ->
    reachable (snd (handleJoinRoom env socket payload w)) t.

(** ** The properties in the words of the specification *)

(** An amount has more than two fractional digits when a hundred times the
    amount is not an integer. *)
Definition moreThanTwoFractionalDigits (amount : Q) : bool :=
  negb (Pos.eqb (Qden (Qred (amount * 100))) 1).

(** The guard as the specification words it: an amount that is not positive
    or has more than two fractional digits is answered with the
    [BID_ERROR_INVALID_AMOUNT] code, and the world is otherwise untouched. *)
Definition spec_rejects_invalid_amount (env : Env) (socket : Socket)
    (payload : PlaceBidPayload) (w : World) : Prop :=
  forall amount,
    pb_bidAmountInDollars payload = Some amount ->
    (amount <= 0)%Q \/ moreThanTwoFractionalDigits amount = true ->
    exists message,
      handlePlaceBid env socket payload w =
      (inr tt,
       with_emitted w
         (emitted w ++
          [ToSocket (socket_id socket)
             (BID_PLACED_ERROR
                (mkBidPlacedErrorPayload (pb_auctionItemId payload)
                   BID_ERROR_INVALID_AMOUNT message))])).

(** The transaction as the specification words it: when the row's current
    highest bid at write time differs from the value read at validation (some
    other writer got in between), the transaction is aborted, the function
    answers the [BID_ERROR_CONCURRENT_BID] error and the store keeps what the
    other writer left. *)
Definition spec_conflict_on_changed_row (env : Env) (other : M unit)
    (auctionItemId bidderUserId : string) (amount : Q) (w : World) : Prop :=
  forall previous w1 w2 a,
    validateBid env auctionItemId bidderUserId amount w = (inr (inr previous), w1) ->
    other w1 = (inr tt, w2) ->
    auctionItem (store w2) !! auctionItemId = Some a ->
    ~ (currentHighestBidInDollars a == previous)%Q ->
    exists r w',
      processBidTransaction_interleaved env other auctionItemId bidderUserId amount w
      = (inr r, w') /\
      res_wasBidSuccessful r = false /\
      errorCode r = Some BID_ERROR_CONCURRENT_BID /\
      store w' = store w2.

(** The order of the specification: higher amount first, then earlier
    [placedAt], then lexicographically smaller [bidId]. *)
Definition spec_preferred (b b' : Bid) : bool :=
  Qltb (bid_bidAmountInDollars b') (bid_bidAmountInDollars b) ||
  (Qeq_bool (bid_bidAmountInDollars b) (bid_bidAmountInDollars b') &&
   ((placedAtTimestamp b <? placedAtTimestamp b')%Z ||
    ((placedAtTimestamp b =? placedAtTimestamp b')%Z && String.ltb (bid_id b) (bid_id b')))).

Fixpoint spec_winningBid (rows : list Bid) : option Bid :=
  match rows with
  | [] => None
  | b :: rest =>
      match spec_winningBid rest with
      | Some b' => if spec_preferred b' b then Some b' else Some b
      | None => Some b
      end
  end.

(** The winner selection as the specification words it. *)
Definition spec_reaper_picks_winner (env : Env) (w : World) (id : string) : Prop :=
  forall n w' a,
    endExpiredAuctions env w = (inr n, w') ->
    auctionItem (store w) !! id = Some a ->
    isExpiredActive (currentTimestamp env) a = true ->
    successfulBidsOn (store w) id <> [] ->
    winnerUserId <$> auctionItem (store w') !! id
    = Some (bidderUserId <$> spec_winningBid (successfulBidsOn (store w) id)).

(** The price invariant as the specification words it, on the bid table of a
    world: of two successful bids on an auction, the later one is at least
    the minimum increment above the earlier one. *)
Definition spec_successful_bids_rise (w : World) : Prop :=
  forall id a b1 b2,
    auctionItem (store w) !! id = Some a ->
    b1 ∈ successfulBidsOn (store w) id ->
    b2 ∈ successfulBidsOn (store w) id ->
    (placedAtTimestamp b1 < placedAtTimestamp b2)%Z ->
    (bid_bidAmountInDollars b1 + minimumBidIncrementInDollars a
     <= bid_bidAmountInDollars b2)%Q.

(** The same in the specification's second wording, on one bid: when it is
    accepted, its amount is at least the current highest bid at validation
    plus the minimum increment. *)
Definition spec_accepted_bid_reaches_minimum (env : Env) (auctionItemId bidderUserId : string)
    (amount : Q) (w : World) : Prop :=
  forall r w' a,
    processBidWithDistributedLock env auctionItemId bidderUserId amount w = (inr r, w') ->
    res_wasBidSuccessful r = true ->
    auctionItem (store w) !! auctionItemId = Some a ->
    (currentHighestBidInDollars a + minimumBidIncrementInDollars a <= amount)%Q.

(** The carrying of the amount as the specification words it: for an accepted
    bid, the auction row, the bid row and the result hold the submitted
    amount itself. *)
Definition spec_amount_carried_exactly (env : Env) (auctionItemId bidderUserId : string)
    (amount : Q) (w : World) : Prop :=
  forall r w1,
    processBidWithDistributedLock env auctionItemId bidderUserId amount w = (inr r, w1) ->
    res_wasBidSuccessful r = true ->
    (exists a, auctionItem (store w1) !! auctionItemId = Some a /\
               (currentHighestBidInDollars a == amount)%Q) /\
    (exists b, bid (store w1) = (bid (store w) ++ [b])%list /\
               (bid_bidAmountInDollars b == amount)%Q) /\
    (exists returned, newHighestBidInDollars r = Some returned /\ (returned == amount)%Q).

Definition statusName (st : AuctionItemStatus) : string :=
  match st with
  | ACTIVE => "ACTIVE"
  | ENDED => "ENDED"
  | CANCELLED => "CANCELLED"
  end.

(** The snapshot as the specification words it: each value is taken from the
    coordinator cache when the cache has it and from the store otherwise, the
    status is the auction's current status and the count is the number of
    successful bids. *)
Definition spec_snapshot (w : World) (id : string) (a : AuctionItem)
    (p : AuctionStateSyncPayload) : Prop :=
  sync_currentHighestBidInDollars p =
    match redis w !! generateCurrentBidCacheKey id with
    | Some (RNumber cached, _) => cached
    | _ => currentHighestBidInDollars a
    end /\
  sync_highestBidderUsername p =
    (bidder ← match redis w !! generateHighestBidderCacheKey id with
              | Some (RString cached, _) => Some cached
              | _ => bidderUserId <$> bid_findFirst_highest (store w) id
              end;
     u ← user (store w) !! bidder;
     truthy (Some (username u))) /\
  sync_auctionEndTimeTimestamp p = auctionEndTimeTimestamp a /\
  sync_currentStatus p = statusName (currentStatus a) /\
  sync_totalNumberOfBids p = length (successfulBidsOn (store w) id).

Definition spec_join_replies_snapshot (env : Env) (socket : Socket) (id : string)
    (w : World) : Prop :=
  forall a,
    auctionItem (store w) !! id = Some a ->
    exists p,
      ToSocket (socket_id socket) (AUCTION_STATE_SYNC p)
        ∈ emitted (snd (handleJoinRoom env socket (mkJoinAuctionRoomPayload (Some id)) w)) /\
      spec_snapshot w id a p.

(** ** A running example: the auction of the specification's scenarios

    An auction that starts at $100 with a $10 increment, created by alice,
    open from time 0 to time 60000 (one minute); bob and carol are bidders. *)

Definition exampleAuction : AuctionItem :=
  mkAuctionItem 100 100 10 0 60000 ACTIVE 0 "alice" None.

Definition exampleUsers : gmap string User :=
  <["alice" := mkUser "alice" "Alice"]>
    (<["bob" := mkUser "bob" "Bob"]>
       (<["carol" := mkUser "carol" "Carol"]> ∅)).

Definition exampleStore : Store := mkStore (<["a1" := exampleAuction]> ∅) [] exampleUsers.

Definition exampleWorld : World := mkWorld exampleStore ∅ ∅ true [].

(** An environment without failures: clock readings, lock token and bid id. *)
Definition quietEnv (token bidId : string) (now placedAt : Z) : Env :=
  mkEnv token bidId now placedAt now placedAt placedAt placedAt (fun _ => placedAt)
        false false (fun _ => false) false false false false false false (fun _ => false).

Definition exampleEnv : Env := quietEnv "token-1" "bid-1" 500 501.

Definition bobSocket : Socket :=
  mkSocket "socket-bob" (Some (mkAuthenticatedSocketData "bob" "bob@example.com" "Bob" "bob" "jwt-bob")).

Definition placeBidPayload (amount : Q) : PlaceBidPayload :=
  mkPlaceBidPayload (Some "a1") (Some amount).

(** Carol's bid of $150, committed at 6000 under a lock taken after bob's had
    expired, while bob's bid of $110 (read at 500, its write timestamp taken
    at 501) still waits for its transaction. *)
Definition carolCommits150 : M unit :=
  run executeBidWrites (quietEnv "token-0" "bid-0" 6000 6000) "a1" "carol" 150 100;
  ret tt.

(** The example auction after bob's accepted bid of $110. *)
Definition worldAfterBob110 : World :=
  snd (processBidWithDistributedLock exampleEnv "a1" "bob" 110 exampleWorld).

(** A tick after the end time during which every winner write fails. *)
Definition failingWinnerWritesEnv : Env :=
  mkEnv "" "" 61000 61000 61000 61000 61000 61000 (fun _ => 61000)
        false false (fun _ => false) false false false false false false (fun _ => true).

Definition worldAfterFailedTick : World :=
  snd (markExpiredAuctionsAsEnded failingWinnerWritesEnv worldAfterBob110).

Definition reaperEnv : Env := quietEnv "" "" 65000 65000.

(** Two successful bids of $120 on the example auction: bob's bid takes its
    timestamp at 1000 and its transaction is slow; carol's bid, validated
    against the same $100, commits at 7000 before bob's transaction does. *)
Definition carolCommits120 : M unit :=
  run executeBidWrites (quietEnv "token-2" "bid-2" 7000 7000) "a1" "carol" 120 100;
  ret tt.

Definition tiedWorld : World :=
  snd (processBidTransaction_interleaved (quietEnv "token-1" "bid-1" 1000 1000)
         carolCommits120 "a1" "bob" 120 exampleWorld).

(** Bob's $110 is accepted and cached; carol's $120 is accepted while the
    cache refresh fails (the failure is logged and the bid stands). The cache
    still says $110 by bob, the store says $120 by carol. *)
Definition cacheDownEnv : Env :=
  mkEnv "token-2" "bid-2" 600 601 600 601 601 601 (fun _ => 601)
        false false (fun _ => true) false false false false false false (fun _ => false).

Definition staleCacheWorld : World :=
  snd (processBidWithDistributedLock cacheDownEnv "a1" "carol" 120 worldAfterBob110).

(** Carol's $120 at 601, after bob's $110 at 501. *)
Definition worldAfterCarol120 : World :=
  snd (processBidWithDistributedLock (quietEnv "token-2" "bid-2" 600 601) "a1" "carol" 120
         worldAfterBob110).

(** An auction at ten cents with an increment of seventy cents: in binary64
    the two add up to 0.7999999999999999. *)
Definition dimeAuction : AuctionItem :=
  mkAuctionItem 0.1 0.1 0.7 0 60000 ACTIVE 0 "alice" None.

Definition dimeWorld : World :=
  mkWorld (mkStore (<["a1" := dimeAuction]> ∅) [] exampleUsers) ∅ ∅ true [].

(** The example auction, ended by the reaper with bob as its winner. *)
Definition endedWorld : World :=
  snd (markExpiredAuctionsAsEnded reaperEnv worldAfterBob110).

(** * Further functions of the services *)

(** ** Lock status (lib/redis-lock-manager.lib) *)

(** [redisClient.get(key)] *)
Definition redis_get (getFails : bool) (key : string) : M (option RedisValue) := fun w =>
  if getFails then (inl "redis error", w)
  else (inr (fst <$> redis w !! key), w).

(** [checkIfLockIsCurrentlyHeld]; [redisGetFails] tells whether the GET throws. *)
Definition checkIfLockIsCurrentlyHeld (redisGetFails : bool) (auctionItemId : string)
  : M bool :=
  let lockKeyName := generateBidProcessingLockKey auctionItemId in
  try_catch
    (do currentLockValue <- redis_get redisGetFails lockKeyName;
     ret (match currentLockValue with Some _ => true | None => false end))
    (fun _ => ret false).


(** ** The life cycle of an auction row *)

(** The terms of an auction, fixed when it is created. *)
Definition auctionTerms (a : AuctionItem) : Q * Q * Z * Z * string :=
  (startingPriceInDollars a, minimumBidIncrementInDollars a,
   auctionStartTimeTimestamp a, auctionEndTimeTimestamp a, creatorUserId a).

(** ** Creating an auction (services/auction-data-fetcher.service) *)

(** Strings are read as sequences of code units below 256. [String.prototype.trim]
    removes white space and line terminators from both ends; below 256 these
    are TAB, LF, VT, FF, CR, SP and NBSP. *)
Definition isJsWhiteSpace (c : Ascii.ascii) : bool :=
  bool_decide (Ascii.nat_of_ascii c ∈ [9; 10; 11; 12; 13; 32; 160]%nat).

Fixpoint trimStart (s : string) : string :=
  match s with
  | EmptyString => EmptyString
  | String c rest => if isJsWhiteSpace c then trimStart rest else s
  end.

Fixpoint trimEnd (s : string) : string :=
  match s with
  | EmptyString => EmptyString
  | String c rest =>
      match trimEnd rest with
      | EmptyString => if isJsWhiteSpace c then EmptyString else String c EmptyString
      | t => String c t
      end
  end.

Definition trim (s : string) : string := trimEnd (trimStart s).

Definition SAMPLE_AUCTION_IMAGES : list string :=
  ["https://images.unsplash.com/photo-1523275335684-37898b6baf30?w=600&h=400&fit=crop";
   "https://images.unsplash.com/photo-1505740420928-5e560c06d30e?w=600&h=400&fit=crop";
   "https://images.unsplash.com/photo-1526170375885-4d8ecf77b99f?w=600&h=400&fit=crop";
   "https://images.unsplash.com/photo-1572635196237-14b3f281503f?w=600&h=400&fit=crop";
   "https://images.unsplash.com/photo-1560343090-f0409e92791a?w=600&h=400&fit=crop";
   "https://images.unsplash.com/photo-1585386959984-a4155224a1ad?w=600&h=400&fit=crop";
   "https://images.unsplash.com/photo-1491553895911-0055uj?w=600&h=400&fit=crop";
   "https://images.unsplash.com/photo-1587829741301-dc798b83add3?w=600&h=400&fit=crop"].

(** What a call of [createAuctionItem] reads from outside: the clock, the
    draw of [Math.random] as the index it floors to, the [id], [created_at]
    and [updated_at] the store gives the new row, and whether the insert
    fails. *)
Record CreateEnv : Type := mkCreateEnv {
  create_now : Z;
  create_randomIndex : nat;
  create_generatedId : string;
  create_createdAtTimestamp : Z;
  create_updatedAtTimestamp : Z;
  create_insertFails : bool
}.

(** [getRandomSampleImage]; the index is below the length of the list. *)
Definition getRandomSampleImage (cenv : CreateEnv) : string :=
  default "" (SAMPLE_AUCTION_IMAGES !! (create_randomIndex cenv `mod` length SAMPLE_AUCTION_IMAGES)%nat).

(** [CreateAuctionItemInput]; the duration is a whole number of minutes. *)
Record CreateAuctionItemInput : Type := mkCreateAuctionItemInput {
  in_itemTitle : string;
  in_itemDescription : string;
  in_startingPriceInDollars : Q;
  in_minimumBidIncrementInDollars : Q;
  in_auctionDurationInMinutes : Z;
  in_itemImageUrl : option string;
  in_creatorUserId : string
}.

Record UserSummary : Type := mkUserSummary {
  summary_userId : string;
  summary_username : string;
  summary_fullName : string
}.

(** [AuctionItemData] *)
Record AuctionItemData : Type := mkAuctionItemData {
  data_id : string;
  data_itemTitle : string;
  data_itemDescription : string;
  data_startingPriceInDollars : Q;
  data_currentHighestBidInDollars : Q;
  data_minimumBidIncrementInDollars : Q;
  data_auctionStartTimeTimestamp : Z;
  data_auctionEndTimeTimestamp : Z;
  data_itemImageUrl : option string;
  data_currentStatus : AuctionItemStatus;
  data_createdAtTimestamp : Z;
  data_creatorUser : UserSummary;
  data_winnerUser : option UserSummary;
  data_totalBidCount : nat;
  data_highestBidder : option (string * string)
}.

Record CreateAuctionItemResult : Type := mkCreateAuctionItemResult {
  wasCreationSuccessful : bool;
  created_auctionItem : option AuctionItemData;
  created_errorMessage : option string
}.

Definition creationRefused (message : string) : CreateAuctionItemResult :=
  mkCreateAuctionItemResult false None (Some message).

(** The row as the table stores it: each amount as its column rounds it;
    nothing when an amount does not fit. *)
Definition storedAuctionItem (row : AuctionItem) : option AuctionItem :=
  startingPrice ← DECIMAL_12_2 (startingPriceInDollars row);
  currentHighestBid ← DECIMAL_12_2 (currentHighestBidInDollars row);
  minimumBidIncrement ← DECIMAL_12_2 (minimumBidIncrementInDollars row);
  Some (mkAuctionItem startingPrice currentHighestBid minimumBidIncrement
          (auctionStartTimeTimestamp row) (auctionEndTimeTimestamp row) (currentStatus row)
          (updatedAtTimestamp row) (creatorUserId row) (winnerUserId row)).

(** [prismaClient.auctionItem.create({ data, include: { creatorUser } })],
    answering the id, the row as stored and the creator's user row. The table
    of the embedding keeps the columns the bid pipeline and the reaper work
    on; title, description and image go to the caller with the created row.
    The insert throws on an amount that does not fit its column, on a taken
    [id] and on a creator that is no user (foreign key). *)
Definition auctionItem_create (cenv : CreateEnv) (row : AuctionItem)
  : M (string * AuctionItem * User) :=
  fun w =>
    if create_insertFails cenv then (inl "database error", w)
    else
      match storedAuctionItem row with
      | None => (inl "numeric field overflow", w)
      | Some stored =>
          match auctionItem (store w) !! create_generatedId cenv with
          | Some _ => (inl "Unique constraint failed", w)
          | None =>
              match user (store w) !! creatorUserId row with
              | None => (inl "Foreign key constraint failed", w)
              | Some creator =>
                  (inr (create_generatedId cenv, stored, creator),
                   with_store w
                     (mkStore (<[create_generatedId cenv := stored]> (auctionItem (store w)))
                        (bid (store w)) (user (store w))))
              end
          end
      end.

Definition createAuctionItem (cenv : CreateEnv) (input : CreateAuctionItemInput)
  : M CreateAuctionItemResult :=
  try_catch
    (if String.eqb (in_itemTitle input) "" ||
        (String.length (trim (in_itemTitle input)) <? 3)%nat
     then ret (creationRefused "Title must be at least 3 characters long")
     else if String.eqb (in_itemDescription input) "" ||
             (String.length (trim (in_itemDescription input)) <? 10)%nat
     then ret (creationRefused "Description must be at least 10 characters long")
     else if Qltb (in_startingPriceInDollars input) 0.01
     then ret (creationRefused "Starting price must be at least $0.01")
     else if Qltb (in_minimumBidIncrementInDollars input) 0.01
     then ret (creationRefused "Minimum bid increment must be at least $0.01")
     else if (in_auctionDurationInMinutes input <? 1)%Z
     then ret (creationRefused "Auction duration must be at least 1 minute")
     else
       let now := create_now cenv in
       let auctionEndTime := (now + in_auctionDurationInMinutes input * 60 * 1000)%Z in
       let imageUrl :=
         match in_itemImageUrl input with
         | Some url =>
             if negb (String.eqb url "") && negb (String.eqb (trim url) "")
             then trim url else getRandomSampleImage cenv
         | None => getRandomSampleImage cenv
         end in
       do created <-
          auctionItem_create cenv
            (mkAuctionItem
               (Decimal (in_startingPriceInDollars input))
               (Decimal (in_startingPriceInDollars input))
               (Decimal (in_minimumBidIncrementInDollars input))
               now auctionEndTime ACTIVE (create_updatedAtTimestamp cenv)
               (in_creatorUserId input) None);
       let '(createdId, createdAuction, creatorUser) := created in
       ret (mkCreateAuctionItemResult true
              (Some (mkAuctionItemData
                       createdId
                       (trim (in_itemTitle input))
                       (trim (in_itemDescription input))
                       (toNumber (startingPriceInDollars createdAuction))
                       (toNumber (currentHighestBidInDollars createdAuction))
                       (toNumber (minimumBidIncrementInDollars createdAuction))
                       (auctionStartTimeTimestamp createdAuction)
                       (auctionEndTimeTimestamp createdAuction)
                       (Some imageUrl) (currentStatus createdAuction)
                       (create_createdAtTimestamp cenv)
                       (mkUserSummary (creatorUserId createdAuction)
                          (username creatorUser) (fullName creatorUser))
                       None 0%nat None))
              None))
    (fun _ => ret (creationRefused "Failed to create auction item")).

(** ** Bid history of an auction (services/auction-data-fetcher.service) *)

Record BidHistoryItem : Type := mkBidHistoryItem {
  history_bidId : string;
  history_bidAmountInDollars : Q;
  history_placedAtTimestamp : Z;
  history_bidderUser : string * string
}.

(** [orderBy: { placedAtTimestamp: 'desc' }]: insertion into a list that is
    already in that order. The query names no second sort key; rows placed at
    the same millisecond are answered in storage order. *)
Fixpoint insertByPlacedAtDesc (b : Bid) (sorted : list Bid) : list Bid :=
  match sorted with
  | [] => [b]
  | b' :: rest =>
      if (placedAtTimestamp b' <=? placedAtTimestamp b)%Z
      then b :: sorted
      else b' :: insertByPlacedAtDesc b rest
  end.

Definition orderByPlacedAtDesc (rows : list Bid) : list Bid :=
  foldr insertByPlacedAtDesc [] rows.

(** [take: n] on the ordered rows: the first [n] rows for a non-negative [n],
    the last [-n] rows, in the same order, for a negative one. *)
Definition takeRows {A} (n : Z) (rows : list A) : list A :=
  if (0 <=? n)%Z then take (Z.to_nat n) rows
  else drop (length rows - Z.to_nat (- n)) rows.

(** [fetchBidHistoryForAuction]; [findManyFails] tells whether the query
    throws. The limit is the number that the route makes of the [limit] of
    the query string with [parseInt]: an integer of either sign, or NaN
    ([None]), which the query refuses. The [include] of the bidder cannot
    miss: the bid table refers to the user table by a foreign key; a dangling
    reference makes the read of [bid.bidderUser.id] throw. *)
Definition fetchBidHistoryForAuction (findManyFails : bool) (auctionItemId : string)
    (limitNumberOfBids : option Z) : M (list BidHistoryItem) :=
  try_catch
    (do w <- get_world;
     if findManyFails then throw "database error"
     else
       match limitNumberOfBids with
       | None => throw "Argument take: invalid value"
       | Some limitNumberOfBids =>
           let bidHistory :=
             takeRows limitNumberOfBids
               (orderByPlacedAtDesc (successfulBidsOn (store w) auctionItemId)) in
           match
             mapM (fun b : Bid =>
                     u ← user (store w) !! bidderUserId b;
                     Some (mkBidHistoryItem (bid_id b) (toNumber (bid_bidAmountInDollars b))
                             (placedAtTimestamp b) (bidderUserId b, username u)))
                  bidHistory
           with
           | Some items => ret items
           | None => throw "TypeError"
           end
       end)
    (fun _ => ret []).

(** ** The worlds the server reaches *)

(** The worlds reached from empty auction and bid tables by calls of the
    services and handlers, each call running as a whole (as the per-auction
    lock intends for the bid transactions). *)
Inductive served : World -> Prop :=
| served_start w :
    auctionItem (store w) = ∅ -> bid (store w) = [] -> served w
| served_createAuctionItem w cenv input :
    served w -> served (snd (createAuctionItem cenv input w))
| served_handlePlaceBid w env socket payload :
    served w -> served (snd (handlePlaceBid env socket payload w))
| served_processBidWithDistributedLock w env auctionItemId bidderUserId amount :
    served w ->
    served (snd (processBidWithDistributedLock env auctionItemId bidderUserId amount w))
| served_recordFailedBidAttempt w env auctionItemId bidderUserId amount ms :
    served w ->
    served (snd (recordFailedBidAttempt env auctionItemId bidderUserId amount ms w))
| served_handleJoinRoom w env socket payload :
    served w -> served (snd (handleJoinRoom env socket payload w))
| served_handleLeaveRoom w socket payload :
    served w -> served (snd (handleLeaveRoom socket payload w))
| served_checkExpiredAuctions w env :
    served w -> served (snd (checkExpiredAuctions env w))
| served_markExpiredAuctionsAsEnded w env :
    served w -> served (snd (markExpiredAuctionsAsEnded env w)).

(** The second bid is at least [increment] above the first. *)
Definition risesBy (increment : Q) (b1 b2 : Bid) : Prop :=
  (bid_bidAmountInDollars b1 + increment <= bid_bidAmountInDollars b2)%Q.

(** The state of one auction row with respect to its successful bids, in
    storage order. *)
Definition SettledRow (a : AuctionItem) (bids : list Bid) : Prop :=
  (isColumnValue (startingPriceInDollars a) /\
   isColumnValue (currentHighestBidInDollars a) /\
   isColumnValue (minimumBidIncrementInDollars a)) /\
  (0.01 <= startingPriceInDollars a)%Q /\
  (0.01 <= minimumBidIncrementInDollars a)%Q /\
  (auctionStartTimeTimestamp a < auctionEndTimeTimestamp a)%Z /\
  currentStatus a <> CANCELLED /\
  currentHighestBidInDollars a =
    from_option bid_bidAmountInDollars (startingPriceInDollars a) (last bids) /\
  StronglySorted (risesBy (minimumBidIncrementInDollars a)) bids /\
  (forall b, b ∈ bids ->
     (startingPriceInDollars a + minimumBidIncrementInDollars a
      <= bid_bidAmountInDollars b)%Q /\
     bidderUserId b <> creatorUserId a) /\
  (forall u, winnerUserId a = Some u ->
     currentStatus a = ENDED /\ bidderUserId <$> last bids = Some u).

Definition Settled (s : Store) : Prop :=
  (forall b, b ∈ bid s -> wasBidSuccessful b = true ->
     is_Some (auctionItem s !! bid_auctionItemId b)) /\
  (forall id a, auctionItem s !! id = Some a -> SettledRow a (successfulBidsOn s id)).

(** ** Outcome of a creation *)

(** The row that [createAuctionItem] inserts; [startingPrice] and
    [minimumBidIncrement] are the amounts of the input as their columns store
    them. *)
Definition createdRow (cenv : CreateEnv) (input : CreateAuctionItemInput)
    (startingPrice minimumBidIncrement : Q) : AuctionItem :=
  mkAuctionItem startingPrice startingPrice minimumBidIncrement
    (create_now cenv)
    (create_now cenv + in_auctionDurationInMinutes input * 60 * 1000)
    ACTIVE (create_updatedAtTimestamp cenv) (in_creatorUserId input) None.

(** What makes a creation go through: the input passes the five checks and
    the insert succeeds (it does not fail, the amounts fit their columns,
    which store them as [startingPrice] and [minimumBidIncrement], the id is
    free, the creator is a user). *)
Definition creatable (cenv : CreateEnv) (input : CreateAuctionItemInput) (s : Store)
    (startingPrice minimumBidIncrement : Q) : Prop :=
  (3 <= String.length (trim (in_itemTitle input)))%nat /\
  (10 <= String.length (trim (in_itemDescription input)))%nat /\
  (0.01 <= in_startingPriceInDollars input)%Q /\
  (0.01 <= in_minimumBidIncrementInDollars input)%Q /\
  (1 <= in_auctionDurationInMinutes input)%Z /\
  create_insertFails cenv = false /\
  DECIMAL_12_2 (in_startingPriceInDollars input) = Some startingPrice /\
  DECIMAL_12_2 (in_minimumBidIncrementInDollars input) = Some minimumBidIncrement /\
  auctionItem s !! create_generatedId cenv = None /\
  is_Some (user s !! in_creatorUserId input).

(** ** Example: the auction of the running example, created *)

Definition emptyWorld : World := mkWorld (mkStore ∅ [] exampleUsers) ∅ ∅ true [].

Definition exampleCreateEnv : CreateEnv := mkCreateEnv 0 0 "a1" 0 0 false.

Definition exampleInput : CreateAuctionItemInput :=
  mkCreateAuctionItemInput "  Oak desk " "A solid oak writing desk" 100 10 1 None "alice".

(** ** Notions for the bid history *)

(** [b2] was not placed after [b1]. *)
Definition notPlacedAfter (b1 b2 : Bid) : Prop :=
  (placedAtTimestamp b2 <= placedAtTimestamp b1)%Z.

(** The history item of a bid row and the user row of its bidder. *)
Definition historyItemOf (s : Store) (b : Bid) (h : BidHistoryItem) : Prop :=
  history_bidId h = bid_id b /\
  history_bidAmountInDollars h = bid_bidAmountInDollars b /\
  history_placedAtTimestamp h = placedAtTimestamp b /\
  (history_bidderUser h).1 = bidderUserId b /\
  Some (history_bidderUser h).2 = username <$> user s !! bidderUserId b.

(** ** The answer of the bid pipeline *)

(** The result that [processBidWithDistributedLock] makes of an exception of
    the guarded function. *)
Definition processingFailedResult (env : Env) (exceptionText : string) : BidProcessingResult :=
  mkBidProcessingResult false None None None None
    (Some BID_ERROR_PROCESSING_FAILED)
    (Some (Text (or_else (Some exceptionText) "Bid processing failed")))
    (processingEndTime env - processingStartTime env).

(** The error codes that a [BID_PLACED_ERROR] reply can carry. *)
Definition bidErrorCodesSent : list string :=
  ["AUTH_ERROR"; "VALIDATION_ERROR";
   BID_ERROR_LOCK_ACQUISITION_FAILED; BID_ERROR_PROCESSING_FAILED;
   BID_ERROR_AUCTION_NOT_FOUND; BID_ERROR_AUCTION_ENDED; BID_ERROR_AUCTION_NOT_STARTED;
   BID_ERROR_OWN_AUCTION; BID_ERROR_BID_TOO_LOW].

(** ** Time synchronisation (sockets/time-sync.socket, client hook useSocketConnection) *)

Record TimeSyncRequestPayload : Type := mkTimeSyncRequestPayload {
  req_clientTimestampT0InMs : Z
}.

Record TimeSyncResponsePayload : Type := mkTimeSyncResponsePayload {
  clientTimestampT0InMs : Z;
  serverTimestampT1InMs : Z;
  serverTimestampT2InMs : Z
}.

(** [handleTimeSyncRequest]: the [TIME_SYNC_RESPONSE] it sends to the socket.
    [serverT1] and [serverT2] are its two readings of [Date.now()]. *)
Definition handleTimeSyncRequest (serverT1 serverT2 : Z) (payload : TimeSyncRequestPayload)
  : TimeSyncResponsePayload :=
  mkTimeSyncResponsePayload (req_clientTimestampT0InMs payload) serverT1 serverT2.

Record TimeSyncSample : Type := mkTimeSyncSample {
  offsetInMs : Q;
  roundTripTimeInMs : Z
}.

(** What [updateTimeSyncState] is called with. *)
Record TimeSyncState : Type := mkTimeSyncState {
  serverTimeOffsetInMs : Q;
  lastSyncTimestamp : Z;
  isTimeSynced : bool;
  state_roundTripTimeInMs : Z
}.

Definition SYNC_SAMPLES_COUNT : nat := 5.

(** [sort((a, b) => a.roundTripTimeInMs - b.roundTripTimeInMs)]; the sort of
    arrays is stable. *)
Fixpoint insertByRoundTripTime (x : TimeSyncSample) (sorted : list TimeSyncSample)
  : list TimeSyncSample :=
  match sorted with
  | [] => [x]
  | y :: rest =>
      if (roundTripTimeInMs x <? roundTripTimeInMs y)%Z
      then x :: sorted
      else y :: insertByRoundTripTime x rest
  end.

Definition sortByRoundTripTime (samples : list TimeSyncSample) : list TimeSyncSample :=
  foldl (fun sorted x => insertByRoundTripTime x sorted) [] samples.

(** The sample that [handleTimeSyncResponse] computes from a response
    received when the client clock reads [clientTimestampT3InMs]. *)
Definition timeSyncSample (clientTimestampT3InMs : Z) (response : TimeSyncResponsePayload)
  : TimeSyncSample :=
  let offsetInMs :=
    (inject_Z (serverTimestampT1InMs response - clientTimestampT0InMs response
               + (serverTimestampT2InMs response - clientTimestampT3InMs)) / 2)%Q in
  let roundTripTimeInMs :=
    (clientTimestampT3InMs - clientTimestampT0InMs response
     - (serverTimestampT2InMs response - serverTimestampT1InMs response))%Z in
  mkTimeSyncSample offsetInMs roundTripTimeInMs.

(** [handleTimeSyncResponse] on the buffer of samples: the new buffer and the
    state it publishes, if any. [now] is the reading of [Date.now()] for
    [lastSyncTimestamp]. The median index is below the length of the sorted
    array, so the read of [sortedSamples[...]] cannot miss. *)
Definition handleTimeSyncResponse (clientTimestampT3InMs now : Z)
    (response : TimeSyncResponsePayload) (timeSyncSamples : list TimeSyncSample)
  : list TimeSyncSample * option TimeSyncState :=
  let samples := (timeSyncSamples ++ [timeSyncSample clientTimestampT3InMs response])%list in
  if (SYNC_SAMPLES_COUNT <=? length samples)%nat
  then
    let sortedSamples := sortByRoundTripTime samples in
    match sortedSamples !! (length sortedSamples / 2)%nat with
    | Some medianSample =>
        ([], Some (mkTimeSyncState (offsetInMs medianSample) now true
                     (roundTripTimeInMs medianSample)))
    | None => (samples, None)
    end
  else (samples, None).

(** The round trip of the first sample is not longer than that of the second. *)
Definition notSlower (x y : TimeSyncSample) : Prop :=
  (roundTripTimeInMs x <= roundTripTimeInMs y)%Z.

#[global] Instance notSlower_dec (x y : TimeSyncSample) : Decision (notSlower x y) :=
  decide (roundTripTimeInMs x <= roundTripTimeInMs y)%Z.
(** * Properties *)

(** ** Amount comparisons *)

Lemma Qltb_lt (x y : Q) : Qltb x y = true <-> (x < y)%Q.
Proof.
  unfold Qltb. rewrite negb_true_iff, <- not_true_iff_false, Qle_bool_iff.
  split; [apply Qnot_le_lt | apply Qlt_not_le].
Qed.

Lemma Qltb_ge (x y : Q) : Qltb x y = false <-> (y <= x)%Q.
Proof. unfold Qltb. rewrite negb_false_iff. apply Qle_bool_iff. Qed.

Lemma Qleb_le (x y : Q) : Qleb x y = true <-> (x <= y)%Q.
Proof. apply Qle_bool_iff. Qed.

(** ** Rounding *)

Lemma Qfloor_bounds (q : Q) : (inject_Z (Qfloor q) <= q < inject_Z (Qfloor q) + 1)%Q.
Proof.
  split; [apply Qfloor_le|].
  pose proof (Qlt_floor q) as H. rewrite inject_Z_plus in H. exact H.
Qed.

Lemma roundHalfEven_near (q : Q) :
  (- (1 # 2) <= inject_Z (roundHalfEven q) - q <= 1 # 2)%Q.
Proof.
  unfold roundHalfEven. pose proof (Qfloor_bounds q) as [Hlo Hhi].
  destruct (Qcompare_spec (q - inject_Z (Qfloor q)) (1 # 2)) as [He|Hl|Hg];
    cbv iota; [destruct (Z.even (Qfloor q))|..]; rewrite ?inject_Z_plus;
    change (inject_Z 1) with 1%Q; generalize dependent (inject_Z (Qfloor q));
    intros; lra.
Qed.

Lemma roundHalfAwayFromZero_near (q : Q) :
  (- (1 # 2) <= inject_Z (roundHalfAwayFromZero q) - q <= 1 # 2)%Q.
Proof.
  unfold roundHalfAwayFromZero. destruct (Qle_bool 0 q).
  - pose proof (Qfloor_bounds (q + (1 # 2))) as [Hlo Hhi].
    generalize dependent (inject_Z (Qfloor (q + (1 # 2)))). intros; lra.
  - pose proof (Qfloor_bounds (- q + (1 # 2))) as [Hlo Hhi].
    rewrite inject_Z_opp.
    generalize dependent (inject_Z (Qfloor (- q + (1 # 2)))). intros; lra.
Qed.

(** An integer within reach of the rounding is reached. *)
Lemma roundHalfAwayFromZero_ge (q : Q) (n : Z) :
  (inject_Z n - (1 # 2) < q)%Q -> (n <= roundHalfAwayFromZero q)%Z.
Proof.
  intros Hq. pose proof (roundHalfAwayFromZero_near q) as [Hlo _].
  assert (inject_Z (n - 1) < inject_Z (roundHalfAwayFromZero q))%Q as Hlt.
  { unfold Z.sub. rewrite inject_Z_plus, inject_Z_opp. change (inject_Z 1) with 1%Q.
    generalize dependent (inject_Z (roundHalfAwayFromZero q)).
    generalize dependent (inject_Z n). intros; lra. }
  rewrite <- Zlt_Qlt in Hlt. lia.
Qed.

Lemma roundHalfAwayFromZero_inject_Z (n : Z) : roundHalfAwayFromZero (inject_Z n) = n.
Proof.
  pose proof (roundHalfAwayFromZero_near (inject_Z n)) as [Hlo Hhi].
  assert (inject_Z (n - 1) < inject_Z (roundHalfAwayFromZero (inject_Z n)))%Q as H1.
  { unfold Z.sub. rewrite inject_Z_plus, inject_Z_opp. change (inject_Z 1) with 1%Q.
    generalize dependent (inject_Z (roundHalfAwayFromZero (inject_Z n))).
    generalize dependent (inject_Z n). intros; lra. }
  assert (inject_Z (roundHalfAwayFromZero (inject_Z n)) < inject_Z (n + 1))%Q as H2.
  { rewrite inject_Z_plus. change (inject_Z 1) with 1%Q.
    generalize dependent (inject_Z (roundHalfAwayFromZero (inject_Z n))).
    generalize dependent (inject_Z n). intros; lra. }
  rewrite <- Zlt_Qlt in H1, H2. lia.
Qed.

#[global] Instance roundHalfAwayFromZero_comp : Proper (Qeq ==> eq) roundHalfAwayFromZero.
Proof.
  intros x y Hxy. unfold roundHalfAwayFromZero.
  assert (Qle_bool 0 x = Qle_bool 0 y) as ->.
  { apply eq_true_iff_eq. rewrite !Qle_bool_iff. by rewrite Hxy. }
  destruct (Qle_bool 0 y); [|f_equal]; apply Qfloor_comp; by rewrite Hxy.
Qed.

(** ** Binary64 *)

Lemma binaryExponent_le (q : Q) : (0 < q)%Q -> (2 ^ binaryExponent q <= q)%Q.
Proof.
  intros Hq. unfold binaryExponent. destruct q as [n d]. cbn [Qnum Qden].
  set (k := (Z.log2 n - Z.log2 (Z.pos d))%Z).
  destruct (Qle_bool (2 ^ k) (n # d)) eqn:Hk; [by apply Qle_bool_iff|].
  assert (0 < n)%Z as Hn by (unfold Qlt in Hq; simpl in Hq; lia).
  destruct (Z.log2_spec n Hn) as [Hln _].
  destruct (Z.log2_spec (Z.pos d) (Pos2Z.is_pos d)) as [_ Hld].
  pose proof (Z.log2_nonneg n) as Hln0.
  pose proof (Z.log2_nonneg (Z.pos d)) as Hld0.
  replace (k - 1)%Z with (Z.log2 n - Z.succ (Z.log2 (Z.pos d)))%Z by (unfold k; lia).
  rewrite Qpower_minus by discriminate.
  rewrite <- (Zpower_Qpower 2 (Z.log2 n)) by done.
  rewrite <- (Zpower_Qpower 2 (Z.succ (Z.log2 (Z.pos d)))) by lia.
  set (A := (2 ^ Z.log2 n)%Z) in *. set (B := (2 ^ Z.succ (Z.log2 (Z.pos d)))%Z) in *.
  assert (0 < A)%Z as HA by (apply Z.pow_pos_nonneg; lia).
  apply Qle_shift_div_r.
  - change 0%Q with (inject_Z 0). rewrite <- Zlt_Qlt. lia.
  - unfold Qle, Qmult, inject_Z. simpl. nia.
Qed.

Lemma nearestBinary64_pos (q : Q) :
  (0 < q)%Q ->
  let ulp := (2 ^ (binaryExponent q - 52))%Q in
  (- (q * BINARY64_UNIT_ROUNDOFF)
   <= inject_Z (roundHalfEven (q / ulp)) * ulp - q
   <= q * BINARY64_UNIT_ROUNDOFF)%Q.
Proof.
  intros Hq ulp.
  assert (0 < ulp)%Q as Hulp by (by apply Qpower_0_lt).
  assert (ulp * 4503599627370496 <= q)%Q as Hle.
  { unfold ulp. rewrite Qpower_minus by discriminate.
    pose proof (binaryExponent_le q Hq) as HE.
    change (2 ^ 52)%Q with 4503599627370496%Q.
    set (P := (2 ^ binaryExponent q)%Q) in *.
    assert (P / 4503599627370496 * 4503599627370496 == P)%Q as -> by (field; discriminate).
    done. }
  pose proof (roundHalfEven_near (q / ulp)) as [Hlo Hhi].
  set (m := inject_Z (roundHalfEven (q / ulp))) in *.
  assert (q / ulp * ulp == q)%Q as Hy by (field; lra).
  set (y := (q / ulp)%Q) in *.
  assert ((m - y) * ulp <= (1 # 2) * ulp)%Q as H1 by (apply Qmult_le_compat_r; lra).
  assert (- (1 # 2) * ulp <= (m - y) * ulp)%Q as H2 by (apply Qmult_le_compat_r; lra).
  assert ((m - y) * ulp == m * ulp - q)%Q as Heq by (rewrite <- Hy; ring).
  rewrite Heq in H1, H2. unfold BINARY64_UNIT_ROUNDOFF. lra.
Qed.

(** The relative error of rounding to binary64 is at most 2^-53. *)
Lemma nearestBinary64_error (q : Q) :
  (Qabs (nearestBinary64 q - q) <= Qabs q * BINARY64_UNIT_ROUNDOFF)%Q.
Proof.
  unfold nearestBinary64. destruct (Qcompare_spec q 0) as [He|Hl|Hg].
  - rewrite He. vm_compute. discriminate.
  - assert (0 < - q)%Q as Hq by lra.
    pose proof (nearestBinary64_pos (- q) Hq) as [Hlo Hhi]. cbv zeta in Hlo, Hhi.
    rewrite (Qabs_neg q) by lra. apply Qabs_Qle_condition.
    unfold BINARY64_UNIT_ROUNDOFF in *. lra.
  - pose proof (nearestBinary64_pos q Hg) as [Hlo Hhi]. cbv zeta in Hlo, Hhi.
    rewrite (Qabs_pos q) by lra. apply Qabs_Qle_condition.
    unfold BINARY64_UNIT_ROUNDOFF in *. lra.
Qed.

Lemma shortestDecimalFrom_reads_back fuel : forall p x,
  shortestDecimalFrom fuel p x = x \/
  (nearestBinary64 (shortestDecimalFrom fuel p x) == x)%Q.
Proof.
  induction fuel as [|fuel IH]; intros p x; cbn [shortestDecimalFrom]; [by left|].
  cbv zeta.
  set (below := Qred (inject_Z (Qfloor (x / 10 ^ p)) * 10 ^ p)).
  set (above := Qred (inject_Z (Qfloor (x / 10 ^ p) + 1) * 10 ^ p)).
  destruct (Qeq_bool (nearestBinary64 below) x) eqn:Hbelow;
    destruct (Qeq_bool (nearestBinary64 above) x) eqn:Habove; cbn [andb];
    rewrite ?Qeq_bool_iff in *.
  - destruct (x - below ?= above - x)%Q; [destruct (Z.even _)| |]; by right.
  - by right.
  - by right.
  - apply IH.
Qed.

(** The decimal printed for a number is within the rounding error of reading
    it back. *)
Lemma shortestDecimal_error (x : Q) :
  (Qabs (shortestDecimal x - x) <= Qabs (shortestDecimal x) * BINARY64_UNIT_ROUNDOFF)%Q.
Proof.
  assert (forall d y, d = y \/ (nearestBinary64 d == y)%Q ->
            (Qabs (d - y) <= Qabs d * BINARY64_UNIT_ROUNDOFF)%Q) as Hcase.
  { intros d y [->|Hd].
    - assert (y - y == 0)%Q as -> by ring. simpl.
      apply Qmult_le_0_compat; [apply Qabs_nonneg|done].
    - rewrite <- Hd. rewrite Qabs_Qminus. apply nearestBinary64_error. }
  unfold shortestDecimal. destruct (Qcompare_spec x 0) as [He|Hl|Hg].
  - rewrite He. vm_compute. discriminate.
  - match goal with
    | |- context [shortestDecimalFrom ?f ?p (- x)] =>
        pose proof (Hcase _ _ (shortestDecimalFrom_reads_back f p (- x))) as H;
        set (d := shortestDecimalFrom f p (- x)) in *
    end.
    rewrite Qred_correct.
    assert (- d - x == - (d - - x))%Q as -> by ring.
    by rewrite !Qabs_opp.
  - apply Hcase, shortestDecimalFrom_reads_back.
Qed.

(** The binary64 sum of two amounts of up to ten integer digits is within a
    thousandth of their sum. *)
Lemma jsAdd_error (a b : Q) :
  (Qabs a <= 10000000000)%Q -> (Qabs b <= 10000000000)%Q ->
  (Qabs (jsAdd a b - (a + b)) <= 1 # 1000)%Q.
Proof.
  intros Ha Hb. unfold jsAdd.
  pose proof (nearestBinary64_error a) as Hna.
  pose proof (nearestBinary64_error b) as Hnb.
  set (na := nearestBinary64 a) in *. set (nb := nearestBinary64 b) in *.
  pose proof (nearestBinary64_error (na + nb)) as Hx.
  set (x := nearestBinary64 (na + nb)) in *.
  pose proof (shortestDecimal_error x) as Hd.
  set (d := shortestDecimal x) in *.
  unfold BINARY64_UNIT_ROUNDOFF in *.
  apply Qabs_Qle_condition in Hna, Hnb, Hx, Hd. apply Qabs_Qle_condition.
  clearbody na nb x d.
  destruct (Qlt_le_dec a 0);
    [rewrite (Qabs_neg a) in * by lra | rewrite (Qabs_pos a) in * by lra];
  (destruct (Qlt_le_dec b 0);
    [rewrite (Qabs_neg b) in * by lra | rewrite (Qabs_pos b) in * by lra]);
  (destruct (Qlt_le_dec (na + nb) 0);
    [rewrite (Qabs_neg (na + nb)) in * by lra | rewrite (Qabs_pos (na + nb)) in * by lra]);
  (destruct (Qlt_le_dec d 0);
    [rewrite (Qabs_neg d) in * by lra | rewrite (Qabs_pos d) in * by lra]);
  lra.
Qed.

(** ** Columns of type DECIMAL(12,2) *)

Lemma Qmake_100 (n : Z) : (n # 100 == inject_Z n * (1 # 100))%Q.
Proof. unfold Qeq. simpl. lia. Qed.

Lemma DECIMAL_12_2_Some q c :
  DECIMAL_12_2 q = Some c ->
  (Z.abs (roundHalfAwayFromZero (q * 100)) < 10 ^ 12)%Z /\
  c = Qred (roundHalfAwayFromZero (q * 100) # 100).
Proof.
  unfold DECIMAL_12_2. destruct (Z.ltb_spec (Z.abs (roundHalfAwayFromZero (q * 100))) (10 ^ 12));
    [|done].
  by intros [= <-].
Qed.

(** What is read from a column can be written back as it is. *)
Lemma DECIMAL_12_2_column q c : DECIMAL_12_2 q = Some c -> isColumnValue c.
Proof.
  intros [Hlt ->]%DECIMAL_12_2_Some. unfold isColumnValue, DECIMAL_12_2.
  set (n := roundHalfAwayFromZero (q * 100)) in *.
  assert (roundHalfAwayFromZero (Qred (n # 100) * 100) = n) as ->.
  { rewrite <- (roundHalfAwayFromZero_inject_Z n) at 2.
    apply roundHalfAwayFromZero_comp. rewrite Qred_correct, Qmake_100. field. }
  destruct (Z.ltb_spec (Z.abs n) (10 ^ 12)); [done|lia].
Qed.

(** A column value is a whole number of cents below 10^12. *)
Lemma isColumnValue_cents c :
  isColumnValue c ->
  exists n, (Z.abs n < 10 ^ 12)%Z /\ (c * 100 == inject_Z n)%Q.
Proof.
  intros [Hlt Hc]%DECIMAL_12_2_Some.
  exists (roundHalfAwayFromZero (c * 100)). split; [done|].
  rewrite Hc at 1. rewrite Qred_correct, Qmake_100. field.
Qed.

Lemma isColumnValue_bound c : isColumnValue c -> (Qabs c <= 10000000000)%Q.
Proof.
  intros (n & Hn & Hc)%isColumnValue_cents.
  assert (c == inject_Z n * (1 # 100))%Q as -> by (rewrite <- Hc; field).
  apply Qabs_Qle_condition.
  assert (inject_Z (- 10 ^ 12) <= inject_Z n <= inject_Z (10 ^ 12))%Q as [Hlo Hhi]
    by (rewrite <- !Zle_Qle; lia).
  change (inject_Z (- 10 ^ 12)) with (- 1000000000000)%Q in Hlo.
  change (inject_Z (10 ^ 12)) with 1000000000000%Q in Hhi.
  generalize dependent (inject_Z n). intros; lra.
Qed.

(** The column rounds to the nearest cent. *)
Lemma DECIMAL_12_2_near q c :
  DECIMAL_12_2 q = Some c -> (- (1 # 200) <= c - q <= 1 # 200)%Q.
Proof.
  intros [_ ->]%DECIMAL_12_2_Some. rewrite Qred_correct, Qmake_100.
  pose proof (roundHalfAwayFromZero_near (q * 100)) as [Hlo Hhi].
  generalize dependent (inject_Z (roundHalfAwayFromZero (q * 100))). intros; lra.
Qed.

(** An amount of at most two decimals is stored as it is. *)
Lemma DECIMAL_12_2_exact q c n :
  DECIMAL_12_2 q = Some c -> (q * 100 == inject_Z n)%Q -> (c == q)%Q.
Proof.
  intros [_ ->]%DECIMAL_12_2_Some Hn. rewrite Qred_correct, Qmake_100.
  rewrite (roundHalfAwayFromZero_comp _ _ Hn), roundHalfAwayFromZero_inject_Z.
  rewrite <- Hn. field.
Qed.

(** The column keeps the order of what is written to it. *)
Lemma DECIMAL_12_2_le_column q c b :
  DECIMAL_12_2 q = Some c -> isColumnValue b -> (b - (1 # 200) < q)%Q -> (b <= c)%Q.
Proof.
  intros [_ ->]%DECIMAL_12_2_Some (n & _ & Hn)%isColumnValue_cents Hq.
  rewrite Qred_correct, Qmake_100.
  assert (n <= roundHalfAwayFromZero (q * 100))%Z as Hle.
  { apply roundHalfAwayFromZero_ge. rewrite <- Hn. lra. }
  rewrite Zle_Qle in Hle. rewrite <- Hn in Hle.
  generalize dependent (inject_Z (roundHalfAwayFromZero (q * 100))). intros; lra.
Qed.

(** A sum of two column values is a whole number of cents. *)
Lemma isColumnValue_plus_cents a b :
  isColumnValue a -> isColumnValue b -> exists n, ((a + b) * 100 == inject_Z n)%Q.
Proof.
  intros (na & _ & Ha)%isColumnValue_cents (nb & _ & Hb)%isColumnValue_cents.
  exists (na + nb)%Z. rewrite inject_Z_plus, <- Ha, <- Hb. ring.
Qed.

(** The amount stored for a bid that reached the binary64 sum of two column
    values reaches their exact sum. *)
Lemma stored_amount_reaches_sum a b amount c :
  isColumnValue a -> isColumnValue b ->
  (jsAdd a b <= amount)%Q -> DECIMAL_12_2 amount = Some c ->
  (a + b <= c)%Q.
Proof.
  intros Ha Hb Hamt Hc.
  destruct (isColumnValue_plus_cents a b Ha Hb) as [n Hn].
  pose proof (jsAdd_error a b (isColumnValue_bound a Ha) (isColumnValue_bound b Hb)) as Herr.
  apply Qabs_Qle_condition in Herr.
  destruct (DECIMAL_12_2_Some _ _ Hc) as [_ ->]. rewrite Qred_correct, Qmake_100.
  assert (n <= roundHalfAwayFromZero (amount * 100))%Z as Hle.
  { apply roundHalfAwayFromZero_ge. rewrite <- Hn. lra. }
  rewrite Zle_Qle in Hle. rewrite <- Hn in Hle.
  generalize dependent (inject_Z (roundHalfAwayFromZero (amount * 100))). intros; lra.
Qed.

(** The binary64 sum is above the first summand when the second is a cent or
    more. *)
Lemma jsAdd_above a b :
  isColumnValue a -> isColumnValue b -> (0.01 <= b)%Q -> (a < jsAdd a b)%Q.
Proof.
  intros Ha Hb Hcent.
  pose proof (jsAdd_error a b (isColumnValue_bound a Ha) (isColumnValue_bound b Hb)) as Herr.
  apply Qabs_Qle_condition in Herr. lra.
Qed.

Example jsAdd_examples :
  jsAdd 100 10 = 110%Q /\ jsAdd 110 10 = 120%Q /\
  (jsAdd 50.1 0.2 == 50.300000000000004)%Q /\ (jsAdd 0.1 0.7 == 0.7999999999999999)%Q.
Proof. vm_compute. done. Qed.

(** From here on the binary64 sum is used through the lemmas above, and
    evaluated by [vm_compute] only. *)
Opaque jsAdd.

(** ** The lock manager *)

Lemma acquire_unfold env auctionItemId ttl w :
  acquireDistributedLockForBidProcessing env auctionItemId ttl w =
  if lockKeyFree env auctionItemId w
  then (inr (mkLockAcquisitionResult true (Some (generateUuidV4 env)) None),
        lockedWorld env auctionItemId ttl w)
  else (inr (mkLockAcquisitionResult false None (Some (lockUnavailableMessage env))), w).
Proof.
  unfold acquireDistributedLockForBidProcessing, try_catch, bind, redis_set_px_nx,
    lockKeyFree, lockUnavailableMessage, lockedWorld, ret.
  destruct (redisSetFails env); simpl; [done|].
  by destruct (redis w !! generateBidProcessingLockKey auctionItemId).
Qed.

Lemma with_redis_id w : with_redis w (redis w) = w.
Proof. by destruct w. Qed.

Lemma with_store_id w : with_store w (store w) = w.
Proof. by destruct w. Qed.

Lemma release_world env auctionItemId token w :
  snd (releaseDistributedLockForBidProcessing env auctionItemId token w) =
  with_redis w (releasedRedis env auctionItemId token (redis w)).
Proof.
  unfold releaseDistributedLockForBidProcessing, try_catch, bind,
    redis_eval_safe_lock_release, releasedRedis, ret.
  destruct (redisEvalFails env); simpl; [by rewrite with_redis_id|].
  destruct (redis w !! generateBidProcessingLockKey auctionItemId) as [[v t]|];
    simpl; [|by rewrite with_redis_id].
  destruct (RedisValue_eqb v (RString token)); simpl; [done|by rewrite with_redis_id].
Qed.

Lemma release_never_throws env auctionItemId token w :
  exists r, fst (releaseDistributedLockForBidProcessing env auctionItemId token w) = inr r.
Proof.
  unfold releaseDistributedLockForBidProcessing, try_catch, bind,
    redis_eval_safe_lock_release, ret.
  destruct (redisEvalFails env); simpl; [eauto|].
  destruct (redis w !! generateBidProcessingLockKey auctionItemId) as [[v t]|];
    simpl; [|eauto].
  destruct (RedisValue_eqb v (RString token)); simpl; eauto.
Qed.

(** Once the script has run, the key no longer holds the caller's token. *)
Lemma released_not_held env auctionItemId token r ttl :
  redisEvalFails env = false ->
  releasedRedis env auctionItemId token r !! generateBidProcessingLockKey auctionItemId
    <> Some (RString token, ttl).
Proof.
  intros Hok. unfold releasedRedis. rewrite Hok.
  destruct (r !! generateBidProcessingLockKey auctionItemId) as [[v t]|] eqn:Hk.
  - destruct (RedisValue_eqb v (RString token)) eqn:Hv.
    + by rewrite lookup_delete_eq.
    + rewrite Hk. intros [= -> ->]. simpl in Hv. by rewrite String.eqb_refl in Hv.
  - by rewrite Hk.
Qed.

Lemma executeWithDistributedLock_unfold {T} env auctionItemId (callback : M T) ttl w :
  executeWithDistributedLock env auctionItemId callback ttl w =
  if lockKeyFree env auctionItemId w
  then (inr (reportOutcome (fst (callback (lockedWorld env auctionItemId ttl w)))),
        snd (releaseDistributedLockForBidProcessing env auctionItemId (generateUuidV4 env)
               (snd (callback (lockedWorld env auctionItemId ttl w)))))
  else (inr (mkExecuteWithLockResult false None (Some (lockUnavailableMessage env)) false), w).
Proof.
  unfold executeWithDistributedLock, bind at 1. rewrite acquire_unfold.
  destruct (lockKeyFree env auctionItemId w); simpl; [|done].
  unfold try_finally, try_catch, bind, ret.
  destruct (callback (lockedWorld env auctionItemId ttl w)) as [[e|x] w2]; simpl.
  - destruct (release_never_throws env auctionItemId (generateUuidV4 env) w2) as [r Hr].
    destruct (releaseDistributedLockForBidProcessing _ _ _ w2) as [[?|?] ?]; simpl in *;
      [done|done].
  - destruct (release_never_throws env auctionItemId (generateUuidV4 env) w2) as [r Hr].
    destruct (releaseDistributedLockForBidProcessing _ _ _ w2) as [[?|?] ?]; simpl in *;
      [done|done].
Qed.

(** C7. [executeWithDistributedLock] releases the per-auction lock on every
    exit path of the guarded function. When the lock is acquired, the guarded
    function runs on the locked world and, whether it returns a value (a
    success or an error result) or throws, the release script runs on the
    world it leaves, after which the key no longer holds the caller's token
    (provided the coordinator answers the script). When acquisition fails,
    the world is untouched, the answer is the same whatever the guarded
    function is (it is never invoked), and the bid pipeline reports
    [BID_ERROR_LOCK_ACQUISITION_FAILED]. *)
Theorem executeWithDistributedLock_releases_on_every_exit :
  forall (T : Type) env auctionItemId (callback : M T) ttl w,
    let key := generateBidProcessingLockKey auctionItemId in
    let token := generateUuidV4 env in
    let '(answer, w') := executeWithDistributedLock env auctionItemId callback ttl w in
    if lockKeyFree env auctionItemId w
    then
      let '(outcome, w2) := callback (lockedWorld env auctionItemId ttl w) in
      answer = inr (reportOutcome outcome) /\
      w' = with_redis w2 (releasedRedis env auctionItemId token (redis w2)) /\
      (redisEvalFails env = false ->
       forall t, redis w' !! key <> Some (RString token, t))
    else
      w' = w /\
      (exists msg, answer = inr (mkExecuteWithLockResult false None (Some msg) false)) /\
      (forall callback' : M T,
         executeWithDistributedLock env auctionItemId callback' ttl w = (answer, w')) /\
      (forall bidderUserId bidAmountInDollars,
         processBidWithDistributedLock env auctionItemId bidderUserId bidAmountInDollars w
         = (inr (lockUnavailableResult env), w)).
Proof.
  intros T env aid callback ttl w key token.
  rewrite executeWithDistributedLock_unfold.
  destruct (lockKeyFree env aid w) eqn:Hfree.
  - destruct (callback (lockedWorld env aid ttl w)) as [outcome w2] eqn:Hcb. simpl.
    rewrite release_world. split; [done|]. split; [done|].
    intros Hok t. simpl. by apply released_not_held.
  - split; [done|]. split; [eauto|]. split.
    + intros callback'. rewrite executeWithDistributedLock_unfold. by rewrite Hfree.
    + intros bidder amount. unfold processBidWithDistributedLock, bind.
      rewrite executeWithDistributedLock_unfold, Hfree. done.
Qed.

(** ** The bid transaction *)

Lemma updateAuctionCacheInRedis_unfold env auctionItemId amount bidderUserId w :
  updateAuctionCacheInRedis env auctionItemId amount bidderUserId w =
  (inr tt, with_redis w (refreshedCache env auctionItemId bidderUserId amount (redis w))).
Proof.
  unfold updateAuctionCacheInRedis, try_catch, promise_all, redis_setex, refreshedCache,
    setexIfAnswered, ret.
  destruct (redisSetexFails env (generateCurrentBidCacheKey auctionItemId));
    destruct (redisSetexFails env (generateHighestBidderCacheKey auctionItemId));
    simpl; by rewrite ?with_redis_id.
Qed.

Lemma executeBidWrites_unfold env auctionItemId bidderUserId amount previous w :
  executeBidWrites env auctionItemId bidderUserId amount previous w =
  if transactionFails env then (inl "database error", w)
  else match auctionItem (store w) !! auctionItemId with
       | None => (inl "Record to update not found", w)
       | Some a =>
           match DECIMAL_12_2 amount with
           | None => (inl "numeric field overflow", w)
           | Some stored =>
               if bidIdTaken env (store w) then (inl "Unique constraint failed", w)
               else
                 match user (store w) !! bidderUserId with
                 | None => (inl "Foreign key constraint failed", w)
                 | Some _ =>
                     (inr (acceptedResult env amount previous),
                      with_redis
                        (with_store w
                           (committedStore env auctionItemId bidderUserId stored a (store w)))
                        (refreshedCache env auctionItemId bidderUserId amount (redis w)))
                 end
           end
       end.
Proof.
  unfold executeBidWrites, bind at 1, transaction_update_auction_and_create_bid, bidIdTaken,
    Decimal.
  destruct (transactionFails env); [done|].
  destruct (auctionItem (store w) !! auctionItemId) as [a|]; [|done].
  destruct (DECIMAL_12_2 amount) as [stored|]; [|done].
  destruct (existsb _ _); [done|].
  destruct (user (store w) !! bidderUserId); [|done].
  unfold bind. rewrite updateAuctionCacheInRedis_unfold. done.
Qed.

Lemma validateBid_unfold env auctionItemId bidderUserId amount w :
  validateBid env auctionItemId bidderUserId amount w =
  if findUniqueFails env then (inl "database error", w)
  else match auctionItem (store w) !! auctionItemId with
       | None => (inr (inl (createErrorResult BID_ERROR_AUCTION_NOT_FOUND)), w)
       | Some a =>
           match rejection env bidderUserId amount a with
           | Some r => (inr (inl r), w)
           | None => (inr (inr (currentHighestBidInDollars a)), w)
           end
       end.
Proof.
  unfold validateBid, bind, auctionItem_findUnique, rejection, toNumber, ret.
  destruct (findUniqueFails env); [done|].
  destruct (auctionItem (store w) !! auctionItemId) as [a|]; [|done].
  repeat (match goal with |- context [if ?c then _ else _] => destruct c end; try done).
Qed.

Lemma rejection_unsuccessful env bidderUserId amount a r :
  rejection env bidderUserId amount a = Some r ->
  res_wasBidSuccessful r = false /\ errorCode r <> Some BID_ERROR_CONCURRENT_BID /\
  errorCode r <> None.
Proof.
  unfold rejection.
  repeat (match goal with |- context [if ?c then _ else _] => destruct c end);
    intros [= <-]; done.
Qed.

(** A bid passes the checks exactly when the auction is active and running,
    the bidder is not its creator and the amount reaches the binary64 sum of
    the current highest bid and the minimum increment. *)
Lemma rejection_None env bidderUserId amount a :
  rejection env bidderUserId amount a = None <->
  currentStatus a = ACTIVE /\
  (auctionStartTimeTimestamp a <= currentTimestamp env < auctionEndTimeTimestamp a)%Z /\
  creatorUserId a <> bidderUserId /\
  (jsAdd (currentHighestBidInDollars a) (minimumBidIncrementInDollars a) <= amount)%Q.
Proof.
  unfold rejection. case_bool_decide as Hst; simpl.
  2: { split; [done|]. intros [? _]. done. }
  destruct (Z.ltb_spec (currentTimestamp env) (auctionStartTimeTimestamp a)).
  { split; [done|]. intros (_ & ? & _). lia. }
  destruct (Z.leb_spec (auctionEndTimeTimestamp a) (currentTimestamp env)).
  { split; [done|]. intros (_ & ? & _). lia. }
  destruct (String.eqb_spec (creatorUserId a) bidderUserId).
  { split; [done|]. intros (_ & _ & ? & _). done. }
  destruct (Qltb amount _) eqn:Hlt.
  { split; [done|]. intros (_ & _ & _ & Hle). apply Qltb_lt in Hlt.
    exfalso. apply (Qlt_not_le _ _ Hlt Hle). }
  apply Qltb_ge in Hlt. split; [|done]. intros _. repeat split; try done; lia.
Qed.

Lemma processBidTransaction_unfold env auctionItemId bidderUserId amount w :
  processBidTransaction env auctionItemId bidderUserId amount w =
  if findUniqueFails env then (inl "database error", w)
  else match auctionItem (store w) !! auctionItemId with
       | None => (inr (createErrorResult BID_ERROR_AUCTION_NOT_FOUND), w)
       | Some a =>
           match rejection env bidderUserId amount a with
           | Some r => (inr r, w)
           | None =>
               executeBidWrites env auctionItemId bidderUserId amount
                 (currentHighestBidInDollars a) w
           end
       end.
Proof.
  unfold processBidTransaction, bind at 1. rewrite validateBid_unfold.
  destruct (findUniqueFails env); [done|].
  destruct (auctionItem (store w) !! auctionItemId) as [a|]; [|done].
  by destruct (rejection env bidderUserId amount a).
Qed.

Lemma processBidTransaction_cases env auctionItemId bidderUserId amount w :
  (exists a stored,
     accepts env auctionItemId bidderUserId amount (store w) a stored /\
     processBidTransaction env auctionItemId bidderUserId amount w =
     (inr (acceptedResult env amount (currentHighestBidInDollars a)),
      with_redis
        (with_store w (committedStore env auctionItemId bidderUserId stored a (store w)))
        (refreshedCache env auctionItemId bidderUserId amount (redis w)))) \/
  (exists outcome,
     processBidTransaction env auctionItemId bidderUserId amount w = (outcome, w) /\
     match outcome with
     | inl _ => True
     | inr r => res_wasBidSuccessful r = false /\
                errorCode r <> Some BID_ERROR_CONCURRENT_BID /\ errorCode r <> None
     end).
Proof.
  rewrite processBidTransaction_unfold. unfold accepts.
  destruct (findUniqueFails env); [right; by eexists|].
  destruct (auctionItem (store w) !! auctionItemId) as [a|] eqn:Ha;
    [|right; by eexists].
  destruct (rejection env bidderUserId amount a) as [r|] eqn:Hr.
  { right. eexists. split; [done|]. by apply rejection_unsuccessful in Hr. }
  rewrite executeBidWrites_unfold, Ha.
  destruct (transactionFails env); [right; by eexists|].
  destruct (DECIMAL_12_2 amount) as [stored|] eqn:Hstored; [|right; by eexists].
  destruct (bidIdTaken env (store w)) eqn:Hid; [right; by eexists|].
  destruct (user (store w) !! bidderUserId) eqn:Hu; [|right; by eexists].
  left. exists a, stored. done.
Qed.

Lemma store_release env auctionItemId token w :
  store (snd (releaseDistributedLockForBidProcessing env auctionItemId token w)) = store w.
Proof. by rewrite release_world. Qed.

(** The bid pipeline never throws; it either accepts the bid, committing the
    transaction on the store it found, or answers an unsuccessful result and
    leaves the store as it was. *)
Lemma processBidWithDistributedLock_cases env auctionItemId bidderUserId amount w :
  exists r w',
    processBidWithDistributedLock env auctionItemId bidderUserId amount w = (inr r, w') /\
    ((exists a stored,
        lockKeyFree env auctionItemId w = true /\
        accepts env auctionItemId bidderUserId amount (store w) a stored /\
        r = setProcessingTime (acceptedResult env amount (currentHighestBidInDollars a))
              (processingEndTime env - processingStartTime env) /\
        store w' = committedStore env auctionItemId bidderUserId stored a (store w)) \/
     (res_wasBidSuccessful r = false /\ store w' = store w /\
      errorCode r <> Some BID_ERROR_CONCURRENT_BID /\ errorCode r <> None)) /\
    emitted w' = emitted w /\ ioServer w' = ioServer w /\ rooms w' = rooms w.
Proof.
  unfold processBidWithDistributedLock, bind.
  rewrite executeWithDistributedLock_unfold.
  destruct (lockKeyFree env auctionItemId w) eqn:Hfree; simpl.
  2: { eexists _, _. split; [done|]. split; [|done]. right. done. }
  set (w1 := lockedWorld env auctionItemId LOCK_TTL_FOR_BID_PROCESSING_IN_MILLISECONDS w).
  destruct (processBidTransaction_cases env auctionItemId bidderUserId amount w1)
    as [(a & stored & Hacc & ->)|(outcome & -> & Hout)]; simpl.
  - eexists _, _. split; [done|]. rewrite release_world. split; [|done].
    left. exists a, stored. done.
  - destruct outcome as [e|r]; simpl.
    + eexists _, _. split; [done|]. rewrite release_world. split; [|done]. right. done.
    + eexists _, _. split; [done|]. rewrite release_world. split; [|done]. right.
      destruct Hout as (? & ? & ?). done.
Qed.

Lemma recordFailedBidAttempt_cases env auctionItemId bidderUserId amount t w :
  exists w',
    recordFailedBidAttempt env auctionItemId bidderUserId amount t w = (inr tt, w') /\
    auctionItem (store w') = auctionItem (store w) /\
    (bid (store w') = bid (store w) \/
     exists b, bid (store w') = (bid (store w) ++ [b])%list /\ wasBidSuccessful b = false).
Proof.
  unfold recordFailedBidAttempt, try_catch, bid_create_failed_attempt, ret.
  destruct (bidCreateFails env); [eexists; split; [done|]; auto|].
  destruct (DECIMAL_12_2 _); [|eexists; split; [done|]; auto].
  destruct (existsb _ _); [eexists; split; [done|]; auto|].
  destruct (auctionItem (store w) !! auctionItemId); [|eexists; split; [done|]; auto].
  destruct (user (store w) !! bidderUserId); [|eexists; split; [done|]; auto].
  eexists. split; [done|]. split; [done|]. right. by eexists.
Qed.

(** ** The socket handlers *)

Lemma fetchCurrentAuctionBidInfo_total env auctionItemId w :
  exists info, fetchCurrentAuctionBidInfo env auctionItemId w = (inr info, w).
Proof.
  unfold fetchCurrentAuctionBidInfo, try_catch, bind, get_world, throw, ret.
  destruct (bidInfoFails env); [by eexists|].
  destruct (auctionItem (store w) !! auctionItemId) as [a|]; [|by eexists].
  destruct (bid_findFirst_highest (store w) auctionItemId) as [b|]; [|by eexists].
  destruct (user (store w) !! bidderUserId b); by eexists.
Qed.

Example bid_with_three_fractional_digits :
  let '(answer, w1) :=
    processBidWithDistributedLock exampleEnv "a1" "bob" 110.005 exampleWorld in
  (exists r, answer = inr r /\ res_wasBidSuccessful r = true /\
             newHighestBidInDollars r = Some 110.005%Q) /\
  currentHighestBidInDollars <$> auctionItem (store w1) !! "a1" = Some 110.01%Q /\
  bid_bidAmountInDollars <$> bid (store w1) = [110.01%Q].
Proof. vm_compute. split; [by eexists|done]. Qed.

(** C10, as stated, fails on the code: the amount columns are DECIMAL(12,2),
    so that an accepted bid of 110.005 is committed as 110.01, to the auction
    row and to the bid row, while the caller is told 110.005. *)
Lemma amount_carried_exactly_counterexample :
  ~ spec_amount_carried_exactly exampleEnv "a1" "bob" 110.005 exampleWorld.
Proof.
  intros H. pose proof bid_with_three_fractional_digits as Hrun.
  destruct (processBidWithDistributedLock exampleEnv "a1" "bob" 110.005 exampleWorld)
    as [answer w1] eqn:Heq.
  destruct Hrun as ((r & -> & Hok & _) & Hrow & _).
  destruct (H r w1 Heq Hok) as [(a & Ha & Hcur) _].
  rewrite Ha in Hrow. injection Hrow as Hrow. rewrite Hrow in Hcur. discriminate.
Qed.

(** C10, amended. For every accepted bid, the [newHighestBidInDollars]
    returned to the caller, the amount of the [BID_PLACED_SUCCESS] reply and
    the [newHighestBidInDollars] of the room broadcast are the submitted
    [bidAmountInDollars] itself: the code rounds nowhere. The amount
    committed to the auction row and to the bid row is one and the same: what
    their DECIMAL(12,2) columns make of the submitted amount, namely that
    amount rounded to two decimals. It is within half a cent of the submitted
    amount, and equal to it when that has at most two fractional digits. *)
Theorem accepted_amount_is_stored_to_the_cent :
  forall env socket payload userData auctionItemId amount w r w1,
    getUserDataFromSocket socket = Some userData ->
    truthy (pb_auctionItemId payload) = Some auctionItemId ->
    pb_bidAmountInDollars payload = Some amount ->
    Qleb amount 0 = false ->
    processBidWithDistributedLock env auctionItemId (userId userData) amount w = (inr r, w1) ->
    res_wasBidSuccessful r = true ->
    exists stored,
      DECIMAL_12_2 amount = Some stored /\
      currentHighestBidInDollars <$> auctionItem (store w1) !! auctionItemId = Some stored /\
      (exists b, bid (store w1) = (bid (store w) ++ [b])%list /\
                 Some (bid_id b) = res_bidId r /\
                 bid_bidAmountInDollars b = stored /\ wasBidSuccessful b = true) /\
      (- (1 # 200) <= stored - amount <= 1 # 200)%Q /\
      (forall cents, (amount * 100 == inject_Z cents)%Q -> (stored == amount)%Q) /\
      newHighestBidInDollars r = Some amount /\
      (exists count,
         handlePlaceBid env socket payload w =
         (inr tt,
          with_emitted w1
            (emitted w1 ++
             acceptedEmissions env socket userData auctionItemId amount count (ioServer w1)))).
Proof.
  intros env socket payload ud aid amount w r w1 Hud Haid Hamt Hpos Hrun Hok.
  destruct (processBidWithDistributedLock_cases env aid (userId ud) amount w)
    as (r0 & w0 & Hrun0 & Hcases & _).
  rewrite Hrun in Hrun0. injection Hrun0 as <- <-.
  destruct Hcases as [(a & stored & _ & Hacc & -> & Hst)|(Hfail & _)]; [|congruence].
  destruct Hacc as (_ & _ & _ & _ & Hstored & _).
  exists stored. rewrite Hst. split; [done|]. split.
  { simpl. by rewrite lookup_insert_eq. }
  split.
  { eexists. split; [done|]. done. }
  split; [by apply DECIMAL_12_2_near|].
  split; [intros cents; by apply DECIMAL_12_2_exact|].
  split; [done|].
  destruct payload as [pid pamount|]; [|done].
  unfold handlePlaceBid. rewrite Hud, Haid, Hamt, Hpos.
  unfold try_catch, bind at 1. rewrite Hrun. simpl.
  unfold bind at 1, emit at 1, modify. unfold bind at 1.
  match goal with
  | |- context [fetchCurrentAuctionBidInfo env aid ?w2] =>
      destruct (fetchCurrentAuctionBidInfo_total env aid w2) as [info ->]
  end.
  unfold bind, get_world, emit, modify, ret, acceptedEmissions. simpl.
  eexists. destruct (ioServer w1); simpl.
  - rewrite <- app_assoc. reflexivity.
  - reflexivity.
Qed.

(** What a [PLACE_BID] message leads to: an exception and an unchanged world
    when it comes without payload; with a payload, one error reply and an
    unchanged store, or the emissions of an accepted bid and the store the
    pipeline left. *)
Lemma handlePlaceBid_cases env socket payload w :
  (payload = noPlaceBidPayload /\ exists e, handlePlaceBid env socket payload w = (inl e, w)) \/
  (exists p w1,
     handlePlaceBid env socket payload w =
     (inr tt,
      with_emitted w1 (emitted w ++ [ToSocket (socket_id socket) (BID_PLACED_ERROR p)])) /\
     store w1 = store w) \/
  (exists userData auctionItemId amount count r w1,
     processBidWithDistributedLock env auctionItemId (userId userData) amount w = (inr r, w1) /\
     res_wasBidSuccessful r = true /\
     handlePlaceBid env socket payload w =
     (inr tt,
      with_emitted w1
        (emitted w ++
         acceptedEmissions env socket userData auctionItemId amount count (ioServer w)))).
Proof.
  destruct payload as [pid pamount|]; [right|left; split; [done|by eexists]].
  set (payload := mkPlaceBidPayload pid pamount).
  destruct (handlePlaceBid env socket payload w) as [o wf] eqn:Hh.
  revert Hh. unfold handlePlaceBid, payload. fold payload.
  destruct (getUserDataFromSocket socket) as [ud|];
    [|intros [= <- <-]; left; by eexists _, w].
  destruct (truthy (pb_auctionItemId payload)) as [aid|];
    [|destruct (pb_bidAmountInDollars payload); intros [= <- <-]; left; by eexists _, w].
  destruct (pb_bidAmountInDollars payload) as [amount|];
    [|intros [= <- <-]; left; by eexists _, w].
  destruct (Qleb amount 0); [intros [= <- <-]; left; by eexists _, w|].
  destruct (processBidWithDistributedLock_cases env aid (userId ud) amount w)
    as (r & w1 & Hrun & Hcases & Hemit & Hio & _).
  unfold try_catch, bind at 1. rewrite Hrun.
  destruct Hcases as [(a & stored & _ & _ & Hr & Hst)|(Hfail & Hst & _)].
  - rewrite Hr. simpl.
    unfold bind at 1, emit at 1, modify. unfold bind at 1.
    match goal with
    | |- context [fetchCurrentAuctionBidInfo env aid ?w2] =>
        destruct (fetchCurrentAuctionBidInfo_total env aid w2) as [info ->]
    end.
    unfold bind, get_world, emit, modify, ret. simpl.
    intros Hh. right. eexists ud, aid, amount, _, r, w1.
    split; [done|]. split; [by rewrite Hr|].
    rewrite <- Hh. unfold acceptedEmissions. rewrite <- Hio, <- Hemit.
    destruct (ioServer w1); simpl.
    + rewrite <- app_assoc. reflexivity.
    + reflexivity.
  - rewrite Hfail. unfold emit, modify. simpl. rewrite Hemit.
    intros [= <- <-]. left. eexists _, w1. done.
Qed.

(** C8. A bid that is answered with an unsuccessful result, whatever the
    error code, leaves the store as it was: every auction row keeps its
    current highest bid, status and winner, and the bid table gains no row.
    This holds for the result of the pipeline and for every [BID_PLACED_ERROR]
    reply of the socket handler (the guard's replies included). The audit
    insert of a failed attempt ([recordFailedBidAttempt]) leaves every
    auction row as it was and adds at most one row, marked unsuccessful. *)
Theorem failed_bid_leaves_auction_unchanged :
  forall env auctionItemId bidderUserId amount w r w',
    processBidWithDistributedLock env auctionItemId bidderUserId amount w = (inr r, w') ->
    res_wasBidSuccessful r = false ->
    store w' = store w /\
    (forall id a, auctionItem (store w) !! id = Some a ->
       exists a', auctionItem (store w') !! id = Some a' /\
         currentHighestBidInDollars a' = currentHighestBidInDollars a /\
         currentStatus a' = currentStatus a /\
         winnerUserId a' = winnerUserId a) /\
    successfulBidsOn (store w') auctionItemId = successfulBidsOn (store w) auctionItemId /\
    (forall socket payload p,
       emitted (snd (handlePlaceBid env socket payload w))
       = (emitted w ++ [ToSocket (socket_id socket) (BID_PLACED_ERROR p)])%list ->
       store (snd (handlePlaceBid env socket payload w)) = store w) /\
    (forall t,
       let w'' := snd (recordFailedBidAttempt env auctionItemId bidderUserId amount t w') in
       auctionItem (store w'') = auctionItem (store w) /\
       successfulBidsOn (store w'') auctionItemId = successfulBidsOn (store w) auctionItemId).
Proof.
  intros env aid bidder amount w r w' Hrun Hfail.
  destruct (processBidWithDistributedLock_cases env aid bidder amount w)
    as (r0 & w0 & Hrun0 & Hcases & _).
  rewrite Hrun in Hrun0. injection Hrun0 as <- <-.
  destruct Hcases as [(a & stored & _ & _ & -> & _)|(_ & Hst & _)]; [done|].
  split; [done|]. rewrite Hst. split; [eauto 10|]. split; [done|]. split.
  - intros socket payload p Hemit.
    destruct (handlePlaceBid_cases env socket payload w)
      as [(_ & e & Hthrow)
         |[(p' & w1 & Hrun' & Hsame)
          |(ud & aid' & amount' & count & r1 & w1 & _ & _ & Hacc)]].
    + by rewrite Hthrow.
    + by rewrite Hrun'.
    + rewrite Hacc in Hemit. simpl in Hemit. apply app_inv_head in Hemit.
      unfold acceptedEmissions in Hemit. discriminate.
  - intros t w''. subst w''.
    destruct (recordFailedBidAttempt_cases env aid bidder amount t w')
      as (w'' & -> & Hauc & Hbid). simpl.
    rewrite Hauc, Hst. split; [done|].
    unfold successfulBidsOn. destruct Hbid as [->|(b & -> & Hb)]; rewrite Hst; [done|].
    rewrite filter_app, filter_cons_False, filter_nil, app_nil_r; [done|].
    intros [_ ?]. congruence.
Qed.

(** ** C2: the shape guard of the handler *)

Example handlePlaceBid_negative_amount :
  emitted (snd (handlePlaceBid exampleEnv bobSocket (placeBidPayload (-5)) exampleWorld)) =
  [ToSocket "socket-bob"
     (BID_PLACED_ERROR
        (mkBidPlacedErrorPayload (Some "a1") "VALIDATION_ERROR" (Text "Invalid bid data")))].
Proof. vm_compute. reflexivity. Qed.

Example handlePlaceBid_three_fractional_digits :
  emitted (snd (handlePlaceBid exampleEnv bobSocket (placeBidPayload 110.005) exampleWorld)) =
  [ToSocket "socket-bob"
     (BID_PLACED_SUCCESS (mkBidPlacedSuccessPayload "a1" 110.005 "bid-1" 501));
   ToRoom "auction-room:a1"
     (BID_UPDATE_BROADCAST (mkBidUpdateBroadcastPayload "a1" 110.005 "bob" "bob" 501 1))].
Proof. vm_compute. reflexivity. Qed.

(** C2, as stated, fails on the code: a bid of -5 is answered with the code
    "VALIDATION_ERROR", not [BID_ERROR_INVALID_AMOUNT], and a bid of 110.005
    (three fractional digits) is accepted. *)
Lemma invalid_amount_guard_counterexample :
  ~ spec_rejects_invalid_amount exampleEnv bobSocket (placeBidPayload (-5)) exampleWorld /\
  ~ spec_rejects_invalid_amount exampleEnv bobSocket (placeBidPayload 110.005) exampleWorld.
Proof.
  split.
  - intros H. destruct (H (-5)%Q eq_refl) as [message Heq].
    { left. vm_compute. discriminate. }
    apply (f_equal (fun x => emitted (snd x))) in Heq.
    rewrite handlePlaceBid_negative_amount in Heq. simpl in Heq. discriminate.
  - intros H. destruct (H 110.005%Q eq_refl) as [message Heq].
    { right. vm_compute. reflexivity. }
    apply (f_equal (fun x => emitted (snd x))) in Heq.
    rewrite handlePlaceBid_three_fractional_digits in Heq. simpl in Heq. discriminate.
Qed.

(** C2, amended. A [PLACE_BID] message of an authenticated socket whose
    amount is a number not above zero is answered with one
    [BID_PLACED_ERROR] carrying the code "VALIDATION_ERROR", and nothing else
    happens: the store, the coordinator (no lock is taken) and the rooms are
    as before, whatever the environment would have answered. The number of
    fractional digits plays no part in the guard. *)
Theorem nonpositive_amount_is_rejected_before_processing :
  forall env socket payload userData amount w,
    getUserDataFromSocket socket = Some userData ->
    pb_bidAmountInDollars payload = Some amount ->
    (amount <= 0)%Q ->
    handlePlaceBid env socket payload w =
    (inr tt,
     with_emitted w
       (emitted w ++
        [ToSocket (socket_id socket)
           (BID_PLACED_ERROR
              (mkBidPlacedErrorPayload (pb_auctionItemId payload)
                 "VALIDATION_ERROR" (Text "Invalid bid data")))])).
Proof.
  intros env socket payload ud amount w Hud Hamt Hle.
  destruct payload as [pid pamount|]; [|done].
  unfold handlePlaceBid. rewrite Hud, Hamt.
  apply Qleb_le in Hle. rewrite Hle.
  by destruct (truthy (pb_auctionItemId (mkPlaceBidPayload pid pamount))).
Qed.

Lemma nonpositive_amount_is_rejected_before_processing_witness :
  (0 <= 0)%Q /\
  store (snd (handlePlaceBid exampleEnv bobSocket (placeBidPayload 0) exampleWorld))
  = exampleStore.
Proof.
  split; [apply Qle_refl|].
  rewrite (nonpositive_amount_is_rejected_before_processing exampleEnv bobSocket
             (placeBidPayload 0) _ 0%Q exampleWorld eq_refl eq_refl (Qle_refl 0)).
  reflexivity.
Defined.

(** ** C1: the write of the bid transaction *)

Example interleaved_bid_overwrites :
  let '(answer, w') :=
    processBidTransaction_interleaved exampleEnv carolCommits150 "a1" "bob" 110 exampleWorld in
  answer = inr (acceptedResult exampleEnv 110 100) /\
  currentHighestBidInDollars <$> auctionItem (store w') !! "a1" = Some 110%Q /\
  bid_bidAmountInDollars <$> bid (store w') = [150%Q; 110%Q].
Proof. vm_compute. done. Qed.

(** C1, as stated, fails on the code: bob's bid validated against $100 is
    written although the row holds $150 at write time; it is accepted and the
    row goes down to $110. *)
Lemma conflict_on_changed_row_counterexample :
  ~ spec_conflict_on_changed_row exampleEnv carolCommits150 "a1" "bob" 110 exampleWorld.
Proof.
  intros H.
  destruct (H 100%Q exampleWorld (snd (carolCommits150 exampleWorld))
              (setHighestBid exampleAuction 150 6000))
    as (r & w' & Heq & Hfail & _).
  - vm_compute. reflexivity.
  - vm_compute. reflexivity.
  - vm_compute. reflexivity.
  - vm_compute. discriminate.
  - pose proof interleaved_bid_overwrites as Hrun. rewrite Heq in Hrun.
    destruct Hrun as [[= ->] _]. discriminate Hfail.
Qed.

(** C1, amended. The auction-row update of the bid transaction selects the
    row by its id alone. Whatever current highest bid the row holds when the
    transaction runs, equal or not to the value read at validation, the
    transaction commits (when the store answers, the amount fits the column,
    the bid id is free and the bidder is a user): the row's current highest
    bid becomes the bid amount as the column stores it, the bid row is
    inserted and the bid is accepted. The pipeline never answers
    [BID_ERROR_CONCURRENT_BID]. *)
Theorem bid_write_is_keyed_by_id_only :
  forall env (other : M unit) auctionItemId bidderUserId amount w previous w1 w2 a stored,
    validateBid env auctionItemId bidderUserId amount w = (inr (inr previous), w1) ->
    other w1 = (inr tt, w2) ->
    auctionItem (store w2) !! auctionItemId = Some a ->
    transactionFails env = false ->
    DECIMAL_12_2 amount = Some stored ->
    bidIdTaken env (store w2) = false ->
    is_Some (user (store w2) !! bidderUserId) ->
    (exists w',
       processBidTransaction_interleaved env other auctionItemId bidderUserId amount w
       = (inr (acceptedResult env amount previous), w') /\
       store w' = committedStore env auctionItemId bidderUserId stored a (store w2) /\
       currentHighestBidInDollars <$> auctionItem (store w') !! auctionItemId = Some stored) /\
    (forall r w',
       processBidWithDistributedLock env auctionItemId bidderUserId amount w = (inr r, w') ->
       errorCode r <> Some BID_ERROR_CONCURRENT_BID).
Proof.
  intros env other aid bidder amount w previous w1 w2 a stored Hval Hother Ha Htx Hstored
    Hid [u Hu].
  split.
  - unfold processBidTransaction_interleaved, bind at 1. rewrite Hval.
    unfold bind at 1. rewrite Hother.
    rewrite executeBidWrites_unfold, Htx, Ha, Hstored, Hid, Hu.
    eexists. split; [done|]. simpl. split; [done|]. by rewrite lookup_insert_eq.
  - intros r w' Hrun.
    destruct (processBidWithDistributedLock_cases env aid bidder amount w)
      as (r0 & w0 & Hrun0 & Hcases & _).
    rewrite Hrun in Hrun0. injection Hrun0 as <- <-.
    destruct Hcases as [(a0 & stored0 & _ & _ & -> & _)|(_ & _ & Hne & _)]; done.
Qed.

Lemma bid_write_is_keyed_by_id_only_witness :
  exists w',
    processBidTransaction_interleaved exampleEnv carolCommits150 "a1" "bob" 110 exampleWorld
    = (inr (acceptedResult exampleEnv 110 100), w') /\
    currentHighestBidInDollars <$> auctionItem (store w') !! "a1" = Some 110%Q.
Proof.
  assert (validateBid exampleEnv "a1" "bob" 110 exampleWorld = (inr (inr 100%Q), exampleWorld))
    as Hval by (vm_compute; reflexivity).
  assert (carolCommits150 exampleWorld = (inr tt, snd (carolCommits150 exampleWorld)))
    as Hother by (vm_compute; reflexivity).
  assert (auctionItem (store (snd (carolCommits150 exampleWorld))) !! "a1"
          = Some (setHighestBid exampleAuction 150 6000)) as Ha by (vm_compute; reflexivity).
  assert (DECIMAL_12_2 110 = Some 110%Q) as Hstored by (vm_compute; reflexivity).
  assert (bidIdTaken exampleEnv (store (snd (carolCommits150 exampleWorld))) = false) as Hid
    by (vm_compute; reflexivity).
  assert (is_Some (user (store (snd (carolCommits150 exampleWorld))) !! "bob")) as Hu
    by (vm_compute; eauto).
  destruct (bid_write_is_keyed_by_id_only exampleEnv carolCommits150 "a1" "bob" 110
              exampleWorld 100 exampleWorld (snd (carolCommits150 exampleWorld))
              (setHighestBid exampleAuction 150 6000) 110
              Hval Hother Ha eq_refl Hstored Hid Hu)
    as [(w' & Hrun & _ & Hrow) _].
  exists w'. split; [exact Hrun | exact Hrow].
Defined.

(** ** The expiry reaper *)

Lemma firstByAmountDesc_None rows : firstByAmountDesc rows = None <-> rows = [].
Proof.
  destruct rows as [|b rest]; simpl; [done|].
  destruct (firstByAmountDesc rest) as [b'|]; [|done].
  by destruct (Qltb _ _).
Qed.

(** The row answered is one of the rows, and none has a greater amount. *)
Lemma firstByAmountDesc_highest rows b :
  firstByAmountDesc rows = Some b ->
  b ∈ rows /\
  forall b', b' ∈ rows -> (bid_bidAmountInDollars b' <= bid_bidAmountInDollars b)%Q.
Proof.
  revert b. induction rows as [|x rest IH]; intros b; simpl; [done|].
  destruct (firstByAmountDesc rest) as [y|] eqn:Hrest.
  - destruct (IH y eq_refl) as [Hy Hmax].
    destruct (Qltb (bid_bidAmountInDollars x) (bid_bidAmountInDollars y)) eqn:Hlt;
      intros [= <-].
    + apply Qltb_lt in Hlt. split; [by right|].
      intros b' [->|Hb']%elem_of_cons; [by apply Qlt_le_weak | by apply Hmax].
    + apply Qltb_ge in Hlt. split; [by left|].
      intros b' [->|Hb']%elem_of_cons; [apply Qle_refl|].
      eapply Qle_trans; [by apply Hmax | done].
  - apply firstByAmountDesc_None in Hrest as ->. intros [= <-].
    split; [by left|]. intros b' ->%list_elem_of_singleton. apply Qle_refl.
Qed.

Lemma withWinner_idemp env s id a :
  withWinner env s id (withWinner env s id a) = withWinner env s id a.
Proof. unfold withWinner. by destruct (bid_findFirst_highest s id). Qed.

Lemma bid_findFirst_highest_ext s s' id :
  bid s = bid s' -> bid_findFirst_highest s id = bid_findFirst_highest s' id.
Proof. unfold bid_findFirst_highest, successfulBidsOn. by intros ->. Qed.

Lemma assignWinner_ok env row w w' s0 :
  bid (store w) = bid s0 ->
  is_Some (auctionItem (store w) !! row.1) ->
  assignWinner env row w = (inr tt, w') ->
  w' = with_store w
         (mkStore (winnerStep env s0 (auctionItem (store w)) row) (bid (store w))
            (user (store w))).
Proof.
  destruct row as [id a0]. simpl. intros Hbids [a Ha].
  unfold assignWinner, bind, get_world, throw, ret, winnerStep, withWinner. simpl.
  destruct (winnerWriteFails env id); [done|].
  rewrite <- (bid_findFirst_highest_ext (store w) s0) by done.
  destruct (bid_findFirst_highest (store w) id) as [hb|].
  - unfold auctionItem_update_winner. rewrite Ha. intros [= <-]. do 2 f_equal.
    apply map_eq. intros k. rewrite lookup_alter, lookup_insert.
    destruct (decide (id = k)) as [<-|]; [by rewrite Ha|done].
  - intros [= <-]. destruct w as [[m bs us] ? ? ? ?]. unfold with_store. simpl in *.
    do 2 f_equal. apply map_eq. intros k. rewrite lookup_alter.
    destruct (decide (id = k)) as [<-|]; [by rewrite Ha|done].
Qed.

Lemma winnerStep_dom env s m row k :
  is_Some (winnerStep env s m row !! k) <-> is_Some (m !! k).
Proof.
  unfold winnerStep. rewrite lookup_alter. destruct (decide (row.1 = k)) as [<-|]; [|done].
  by rewrite fmap_is_Some.
Qed.

Lemma for_each_assignWinner env s0 l : forall w w',
  bid (store w) = bid s0 ->
  (forall row, row ∈ l -> is_Some (auctionItem (store w) !! row.1)) ->
  for_each l (assignWinner env) w = (inr tt, w') ->
  w' = with_store w
         (mkStore (foldl (winnerStep env s0) (auctionItem (store w)) l)
                  (bid (store w)) (user (store w))).
Proof.
  induction l as [|row l IH]; intros w w' Hbids Hdom; simpl.
  - intros [= <-]. by destruct w as [[? ? ?] ? ? ? ?].
  - unfold bind at 1.
    destruct (assignWinner env row w) as [[e|[]] w1] eqn:Hrow; [done|].
    apply (assignWinner_ok _ _ _ _ s0) in Hrow; [|done|apply Hdom; by left].
    intros Hrest. apply IH in Hrest.
    + rewrite Hrest, Hrow. done.
    + by rewrite Hrow.
    + intros row' Hin. rewrite Hrow. simpl. apply winnerStep_dom, Hdom. by right.
Qed.

Lemma lookup_foldl_winnerStep env s l : forall m k,
  foldl (winnerStep env s) m l !! k =
  if decide (k ∈ l.*1) then withWinner env s k <$> m !! k else m !! k.
Proof.
  induction l as [|row l IH]; intros m k.
  - case_decide as Hin; [|done]. by apply elem_of_nil in Hin.
  - change (foldl (winnerStep env s) m (row :: l))
      with (foldl (winnerStep env s) (winnerStep env s m row) l).
    rewrite IH. unfold winnerStep. rewrite lookup_alter. rewrite fmap_cons.
    destruct (decide (row.1 = k)) as [<-|Hne].
    + rewrite (decide_True (P := row.1 ∈ row.1 :: l.*1)) by (by left).
      destruct (m !! row.1) as [a|]; simpl; [|by case_decide].
      case_decide; simpl; [by rewrite withWinner_idemp|done].
    + destruct (decide (k ∈ l.*1)) as [Hin|Hnin].
      * rewrite decide_True; [done|by right].
      * rewrite decide_False; [done|].
        intros [->|?]%elem_of_cons; done.
Qed.

Lemma endExpiredAuctions_ok env w n w' :
  endExpiredAuctions env w = (inr n, w') ->
  bid (store w') = bid (store w) /\ user (store w') = user (store w) /\
  redis w' = redis w /\ emitted w' = emitted w /\
  n = Z.of_nat (size (filter (fun kv => isExpiredActive (currentTimestamp env) kv.2 = true)
                        (auctionItem (store w)))) /\
  forall id,
    auctionItem (store w') !! id =
    reapedRow env (store w) id <$> auctionItem (store w) !! id.
Proof.
  unfold endExpiredAuctions, bind at 1, auctionItem_updateMany_expired.
  destruct (updateManyFails env); [done|].
  unfold bind at 1, auctionItem_findMany_ended_without_winner.
  destruct (findManyFails env); [done|].
  unfold bind at 1. simpl.
  match goal with
  | |- context [for_each ?l _ ?w1] =>
      destruct (for_each l (assignWinner env) w1) as [[e|[]] w2] eqn:Hloop; [done|];
      apply (for_each_assignWinner env (store w)) in Hloop
  end.
  - unfold ret. intros [= <- <-]. rewrite Hloop. simpl.
    repeat (split; [done|]).
    intros id. rewrite lookup_foldl_winnerStep, lookup_fmap.
    fold (endRow env).
    destruct (auctionItem (store w) !! id) as [a|] eqn:Ha; simpl; [|by case_decide].
    unfold reapedRow.
    destruct (isEndedWithoutWinner (endRow env a)) eqn:Hended.
    + rewrite decide_True; [done|].
      apply list_elem_of_fmap. exists (id, endRow env a).
      split; [done|]. apply list_elem_of_filter. split; [done|].
      apply elem_of_map_to_list. by rewrite lookup_fmap, Ha.
    + rewrite decide_False; [done|].
      intros ([id' a'] & Heq & [Hp Hin]%list_elem_of_filter)%list_elem_of_fmap.
      simpl in *. subst id'.
      apply elem_of_map_to_list in Hin. rewrite lookup_fmap, Ha in Hin.
      simpl in *. injection Hin as <-. congruence.
  - done.
  - intros [id a] [_ Hin]%list_elem_of_filter.
    apply elem_of_map_to_list in Hin. simpl in *. by rewrite Hin.
Qed.


Lemma reapedRow_ended_without_winner env s id a :
  currentStatus (reapedRow env s id a) = ENDED ->
  winnerUserId (reapedRow env s id a) = None ->
  successfulBidsOn s id = [].
Proof.
  unfold reapedRow.
  destruct (isEndedWithoutWinner (endRow env a)) eqn:Hended.
  - unfold withWinner, bid_findFirst_highest.
    destruct (firstByAmountDesc (successfulBidsOn s id)) as [hb|] eqn:Hhb; [done|].
    intros _ _. by apply firstByAmountDesc_None.
  - intros Hst Hw. unfold isEndedWithoutWinner in Hended.
    rewrite Hst, Hw in Hended. done.
Qed.


Example failed_tick_leaves_ended_auction_without_winner :
  fst (markExpiredAuctionsAsEnded failingWinnerWritesEnv worldAfterBob110) = inr 0%Z /\
  (fun a => (currentStatus a, winnerUserId a)) <$> auctionItem (store worldAfterFailedTick) !! "a1"
  = Some (ENDED, None).
Proof. vm_compute. done. Qed.


(** ** C3: the winner the reaper picks *)

Example tiedWorld_bids :
  (fun b => (bidderUserId b, bid_bidAmountInDollars b, placedAtTimestamp b, wasBidSuccessful b))
    <$> bid (store tiedWorld)
  = [("carol", 120%Q, 7000%Z, true); ("bob", 120%Q, 1000%Z, true)].
Proof. vm_compute. reflexivity. Qed.

Example tiedWorld_reaped :
  let '(answer, w') := endExpiredAuctions reaperEnv tiedWorld in
  answer = inr 1%Z /\
  winnerUserId <$> auctionItem (store w') !! "a1" = Some (Some "carol") /\
  bidderUserId <$> spec_winningBid (successfulBidsOn (store tiedWorld) "a1") = Some "bob".
Proof. vm_compute. done. Qed.

(** C3, as stated, fails on the code: of two successful bids tied at $120 the
    reaper makes carol the winner, whose bid was placed at 7000, although
    bob's was placed at 1000. *)
Lemma reaper_tie_break_counterexample :
  ~ spec_reaper_picks_winner reaperEnv tiedWorld "a1".
Proof.
  intros H.
  pose proof tiedWorld_reaped as Hrun.
  destruct (endExpiredAuctions reaperEnv tiedWorld) as [answer w'] eqn:Heq.
  destruct Hrun as (-> & Hcode & Hspec).
  specialize (H 1%Z w' (setHighestBid (setHighestBid exampleAuction 120 7000) 120 1000) Heq).
  rewrite Hcode, Hspec in H.
  assert (Some (Some "carol") = Some (Some "bob")) as Habs; [|discriminate].
  apply H.
  - vm_compute. reflexivity.
  - vm_compute. reflexivity.
  - vm_compute. discriminate.
Qed.

(** C3, amended. For every auction that the reaper ends (active and past its
    end time, winner still null) and that has a successful bid, the row is
    left ENDED and the winner written to it is the bidder of a successful bid
    of the highest amount: the row that the query ordered by amount alone
    answers first. When several successful bids share the highest amount,
    neither [placedAt] nor [bidId] decides between them. *)
Theorem reaper_winner_has_highest_amount :
  forall env w n w' id a,
    endExpiredAuctions env w = (inr n, w') ->
    auctionItem (store w) !! id = Some a ->
    isExpiredActive (currentTimestamp env) a = true ->
    winnerUserId a = None ->
    successfulBidsOn (store w) id <> [] ->
    exists highestBid a',
      bid_findFirst_highest (store w) id = Some highestBid /\
      highestBid ∈ successfulBidsOn (store w) id /\
      (forall b, b ∈ successfulBidsOn (store w) id ->
         (bid_bidAmountInDollars b <= bid_bidAmountInDollars highestBid)%Q) /\
      auctionItem (store w') !! id = Some a' /\
      currentStatus a' = ENDED /\
      winnerUserId a' = Some (bidderUserId highestBid).
Proof.
  intros env w n w' id a Hrun Ha Hexp Hw Hbids.
  destruct (endExpiredAuctions_ok env w n w' Hrun) as (_ & _ & _ & _ & _ & Hrows).
  rewrite Hrows, Ha. simpl. unfold reapedRow, endRow. rewrite Hexp.
  unfold isEndedWithoutWinner. simpl. rewrite Hw. simpl.
  unfold withWinner, bid_findFirst_highest.
  destruct (firstByAmountDesc (successfulBidsOn (store w) id)) as [hb|] eqn:Hhb.
  - exists hb. eexists. destruct (firstByAmountDesc_highest _ _ Hhb) as [Hin Hmax]. done.
  - by apply firstByAmountDesc_None in Hhb.
Qed.

(** Bob's $110 and carol's $120: the tick at 65000 makes carol the winner. *)
Lemma reaper_winner_has_highest_amount_witness :
  exists highestBid a',
    bid_findFirst_highest (store worldAfterCarol120) "a1" = Some highestBid /\
    length (successfulBidsOn (store worldAfterCarol120) "a1") = 2%nat /\
    bid_bidAmountInDollars highestBid = 120%Q /\
    auctionItem (store (snd (endExpiredAuctions reaperEnv worldAfterCarol120))) !! "a1"
    = Some a' /\
    currentStatus a' = ENDED /\
    winnerUserId a' = Some "carol".
Proof.
  assert (endExpiredAuctions reaperEnv worldAfterCarol120
          = (inr 1%Z, snd (endExpiredAuctions reaperEnv worldAfterCarol120))) as Hrun.
  { vm_compute. reflexivity. }
  destruct (reaper_winner_has_highest_amount reaperEnv worldAfterCarol120 1%Z _ "a1"
              (setHighestBid (setHighestBid exampleAuction 110 501) 120 601) Hrun)
    as (hb & a' & Hhb & _ & _ & Ha' & Hst & Hw).
  - vm_compute. reflexivity.
  - reflexivity.
  - reflexivity.
  - vm_compute. discriminate.
  - exists hb, a'. split; [exact Hhb|].
    vm_compute in Hhb. injection Hhb as <-.
    split; [vm_compute; reflexivity|]. split; [reflexivity|].
    split; [exact Ha'|]. split; [exact Hst|exact Hw].
Defined.

(** ** C4: the notification of ended auctions *)

Lemma assignWinner_emitted env row w :
  emitted (snd (assignWinner env row w)) = emitted w.
Proof.
  unfold assignWinner, bind, get_world, throw, ret, auctionItem_update_winner.
  destruct (winnerWriteFails env row.1); [done|].
  destruct (bid_findFirst_highest (store w) row.1); [|done].
  by destruct (auctionItem (store w) !! row.1).
Qed.

Lemma for_each_assignWinner_emitted env l : forall w,
  emitted (snd (for_each l (assignWinner env) w)) = emitted w.
Proof.
  induction l as [|row l IH]; intros w; simpl; [done|].
  unfold bind. pose proof (assignWinner_emitted env row w) as Hrow.
  destruct (assignWinner env row w) as [[e|[]] w1]; simpl in *; [done|].
  by rewrite IH.
Qed.

Lemma markExpiredAuctionsAsEnded_total env w :
  exists n w', markExpiredAuctionsAsEnded env w = (inr n, w') /\ emitted w' = emitted w.
Proof.
  unfold markExpiredAuctionsAsEnded, try_catch, endExpiredAuctions, bind at 1,
    auctionItem_updateMany_expired.
  destruct (updateManyFails env); [by eexists _, _|].
  unfold bind at 1, auctionItem_findMany_ended_without_winner.
  destruct (findManyFails env); [by eexists _, _|].
  unfold bind at 1. simpl.
  match goal with
  | |- context [for_each ?l _ ?w1] =>
      pose proof (for_each_assignWinner_emitted env l w1) as Hloop;
      destruct (for_each l (assignWinner env) w1) as [[e|[]] w2]
  end; simpl in *; (eexists _, _; split; [reflexivity|exact Hloop]).
Qed.

(** C4 (defect of the code). [checkExpiredAuctions] reads [count] and
    [endedAuctions] off the value of [markExpiredAuctionsAsEnded], which is a
    number: both reads are [undefined], the test [undefined > 0] is false and
    the broadcast loop never runs. So no tick pushes any event, to any room or
    socket; in the example, the tick at 65000 moves auction "a1" from ACTIVE
    to ENDED with bob as its winner and nobody is told. *)
Theorem reaper_tick_pushes_no_event :
  (forall env w,
     fst (checkExpiredAuctions env w) = inr tt /\
     emitted (snd (checkExpiredAuctions env w)) = emitted w) /\
  (let w' := snd (checkExpiredAuctions reaperEnv worldAfterBob110) in
   currentStatus <$> auctionItem (store worldAfterBob110) !! "a1" = Some ACTIVE /\
   (fun a => (currentStatus a, winnerUserId a)) <$> auctionItem (store w') !! "a1"
   = Some (ENDED, Some "bob") /\
   emitted w' = emitted worldAfterBob110 /\
   ~ exists e, e ∈ emitted w' /\ isEndedNotificationFor "a1" e).
Proof.
  split.
  - intros env w. unfold checkExpiredAuctions, try_catch, bind.
    destruct (markExpiredAuctionsAsEnded_total env w) as (n & w1 & -> & Hemit).
    done.
  - assert (emitted (snd (checkExpiredAuctions reaperEnv worldAfterBob110)) = []) as Hnone
      by (vm_compute; reflexivity).
    split; [vm_compute; reflexivity|]. split; [vm_compute; reflexivity|].
    split; [vm_compute; reflexivity|].
    rewrite Hnone. intros (e & Hin & _). by apply elem_of_nil in Hin.
Qed.

(** ** C5: the snapshot sent on join *)

Example join_on_stale_cache :
  redis staleCacheWorld !! generateCurrentBidCacheKey "a1" = Some (RNumber 110, 60000%Z) /\
  emitted (snd (handleJoinRoom exampleEnv bobSocket (mkJoinAuctionRoomPayload (Some "a1"))
                  staleCacheWorld))
  = [ToSocket "socket-bob" (JOINED_AUCTION_ROOM "a1");
     ToSocket "socket-bob"
       (AUCTION_STATE_SYNC
          (mkAuctionStateSyncPayload "a1" 120 (Some "carol") (Some "carol") 60000 "ACTIVE" 2))].
Proof. vm_compute. done. Qed.

Example join_on_ended_auction :
  currentStatus <$> auctionItem (store endedWorld) !! "a1" = Some ENDED /\
  emitted (snd (handleJoinRoom exampleEnv bobSocket (mkJoinAuctionRoomPayload (Some "a1"))
                  endedWorld))
  = [ToSocket "socket-bob" (JOINED_AUCTION_ROOM "a1");
     ToSocket "socket-bob"
       (AUCTION_STATE_SYNC
          (mkAuctionStateSyncPayload "a1" 110 (Some "bob") (Some "bob") 60000 "ACTIVE" 1))].
Proof. vm_compute. done. Qed.

(** C5, as stated, fails on the code: with $110 cached and $120 stored the
    snapshot reports the stored $120 (the cache is not read), and for an
    auction whose status is ENDED the snapshot says "ACTIVE". *)
Lemma join_snapshot_counterexample :
  ~ spec_join_replies_snapshot exampleEnv bobSocket "a1" staleCacheWorld /\
  ~ spec_join_replies_snapshot exampleEnv bobSocket "a1" endedWorld.
Proof.
  split.
  - intros H.
    destruct (H (setHighestBid (setHighestBid exampleAuction 110 501) 120 601))
      as (p & Hin & Hcur & _); [vm_compute; reflexivity|].
    destruct join_on_stale_cache as [Hcache Hemit].
    rewrite Hemit in Hin. rewrite Hcache in Hcur.
    apply elem_of_cons in Hin as [[=]|Hin].
    apply list_elem_of_singleton in Hin. injection Hin as ->.
    simpl in Hcur. discriminate Hcur.
  - intros H.
    destruct (H (setWinner (setStatus (setHighestBid exampleAuction 110 501) ENDED 65000)
                   "bob" 65000))
      as (p & Hin & _ & _ & _ & Hst & _); [vm_compute; reflexivity|].
    destruct join_on_ended_auction as [_ Hemit].
    rewrite Hemit in Hin.
    apply elem_of_cons in Hin as [[=]|Hin].
    apply list_elem_of_singleton in Hin. injection Hin as ->.
    simpl in Hst. discriminate Hst.
Qed.

(** C5, amended. On every join to the room of an existing auction, when the
    store answers and holds the user row of the highest bidder, the socket is
    added to the room and gets a snapshot with the auction's current highest
    bid, the highest bidder's id and username (null when there is no
    successful bid), the end time and the number of bid rows of the auction,
    all read from the store. The coordinator cache is not consulted: the
    events sent are the same whatever the coordinator holds. *)
Theorem join_snapshot_is_read_from_store :
  forall env socket id w a,
    truthy (Some id) = Some id ->
    bidInfoFails env = false ->
    auctionItem (store w) !! id = Some a ->
    (forall b, bid_findFirst_highest (store w) id = Some b ->
               is_Some (user (store w) !! bidderUserId b)) ->
    (exists p,
       emitted (snd (handleJoinRoom env socket (mkJoinAuctionRoomPayload (Some id)) w))
       = (emitted w ++ [ToSocket (socket_id socket) (JOINED_AUCTION_ROOM id);
                        ToSocket (socket_id socket) (AUCTION_STATE_SYNC p)])%list /\
       sync_auctionItemId p = id /\
       sync_currentHighestBidInDollars p = currentHighestBidInDollars a /\
       sync_highestBidderUserId p
       = (bu ← storedHighestBidder (store w) id; truthy (Some bu.1)) /\
       sync_highestBidderUsername p
       = (bu ← storedHighestBidder (store w) id; truthy (Some (username bu.2))) /\
       sync_auctionEndTimeTimestamp p = auctionEndTimeTimestamp a /\
       sync_totalNumberOfBids p = count_allBidsOnItem (store w) id) /\
    socket_id socket
      ∈ default ∅ (rooms (snd (handleJoinRoom env socket (mkJoinAuctionRoomPayload (Some id)) w))
                     !! generateAuctionRoomNameFromId id) /\
    (forall r,
       emitted (snd (handleJoinRoom env socket (mkJoinAuctionRoomPayload (Some id))
                       (with_redis w r)))
       = emitted (snd (handleJoinRoom env socket (mkJoinAuctionRoomPayload (Some id)) w))).
Proof.
  intros env socket id w a Hid Hok Ha Hfk.
  assert (forall r,
    handleJoinRoom env socket (mkJoinAuctionRoomPayload (Some id)) (with_redis w r)
    = (inr tt,
       with_emitted
         (with_rooms (with_redis w r)
            (<[generateAuctionRoomNameFromId id :=
                 {[socket_id socket]} ∪ default ∅ (rooms w !! generateAuctionRoomNameFromId id)]>
               (rooms w)))
         (emitted w ++
          [ToSocket (socket_id socket) (JOINED_AUCTION_ROOM id);
           ToSocket (socket_id socket)
             (AUCTION_STATE_SYNC
                (mkAuctionStateSyncPayload id (currentHighestBidInDollars a)
                   (bu ← storedHighestBidder (store w) id; truthy (Some bu.1))
                   (bu ← storedHighestBidder (store w) id; truthy (Some (username bu.2)))
                   (auctionEndTimeTimestamp a) "ACTIVE"
                   (count_allBidsOnItem (store w) id)))]))) as Hrun.
  { intros r. unfold handleJoinRoom. rewrite Hid.
    unfold bind at 1, socket_join, modify. unfold bind at 1, emit at 1, modify.
    unfold bind at 1, fetchCurrentAuctionBidInfo, try_catch, bind at 1, get_world.
    rewrite Hok. simpl. rewrite Ha. unfold storedHighestBidder.
    destruct (bid_findFirst_highest (store w) id) as [b|] eqn:Hb.
    - destruct (Hfk b eq_refl) as [u Hu]. unfold bind at 1. rewrite Hu.
      unfold ret, emit, modify, with_emitted, with_rooms, toNumber. simpl.
      rewrite !Hu. simpl. rewrite <- app_assoc. reflexivity.
    - unfold bind, ret, emit, modify, with_emitted, with_rooms, toNumber. simpl.
      rewrite <- app_assoc. reflexivity. }
  pose proof (Hrun (redis w)) as Hw. rewrite with_redis_id in Hw.
  split; [|split].
  - eexists. rewrite Hw. simpl. split; [reflexivity|]. done.
  - rewrite Hw. simpl. rewrite lookup_insert_eq. simpl. set_solver.
  - intros r. rewrite Hrun, Hw. reflexivity.
Qed.

(** ** C6: the price of an auction along its accepted bids *)

Lemma samePrices_refl s : samePrices s s.
Proof. by split. Qed.

Lemma samePrices_trans s1 s2 s3 : samePrices s1 s2 -> samePrices s2 s3 -> samePrices s1 s3.
Proof.
  intros [Hb1 Hp1] [Hb2 Hp2]. split; [congruence|].
  intros id. by rewrite Hp2, Hp1.
Qed.

Lemma samePrices_lookup s s' id a' :
  samePrices s s' -> auctionItem s' !! id = Some a' ->
  exists a, auctionItem s !! id = Some a /\ prices a = prices a'.
Proof.
  intros [_ Hp] Ha'. specialize (Hp id). rewrite Ha' in Hp. simpl in Hp.
  destruct (auctionItem s !! id) as [a|]; [|done]. exists a. split; [done|].
  simpl in Hp. congruence.
Qed.

Lemma assignWinner_samePrices env row w :
  samePrices (store w) (store (snd (assignWinner env row w))).
Proof.
  unfold assignWinner, bind, get_world, throw, ret, auctionItem_update_winner.
  destruct (winnerWriteFails env row.1); [apply samePrices_refl|].
  destruct (bid_findFirst_highest (store w) row.1); [|apply samePrices_refl].
  destruct (auctionItem (store w) !! row.1) as [a|] eqn:Ha; [|apply samePrices_refl].
  split; [done|]. intros id. simpl. rewrite lookup_insert.
  destruct (decide (row.1 = id)) as [<-|]; [by rewrite Ha|done].
Qed.

Lemma for_each_assignWinner_samePrices env l : forall w,
  samePrices (store w) (store (snd (for_each l (assignWinner env) w))).
Proof.
  induction l as [|row l IH]; intros w; simpl; [apply samePrices_refl|].
  unfold bind. pose proof (assignWinner_samePrices env row w) as Hrow.
  destruct (assignWinner env row w) as [[e|[]] w1]; simpl in *; [done|].
  eapply samePrices_trans; [exact Hrow|apply IH].
Qed.

(** The reaper, failing or not, touches neither the bid table nor any
    auction's current highest bid or minimum increment. *)
Lemma markExpiredAuctionsAsEnded_samePrices env w :
  samePrices (store w) (store (snd (markExpiredAuctionsAsEnded env w))).
Proof.
  unfold markExpiredAuctionsAsEnded, try_catch, endExpiredAuctions, bind at 1,
    auctionItem_updateMany_expired.
  destruct (updateManyFails env); [apply samePrices_refl|].
  unfold bind at 1, auctionItem_findMany_ended_without_winner.
  destruct (findManyFails env); simpl.
  - split; [done|]. intros id. simpl. rewrite lookup_fmap.
    destruct (auctionItem (store w) !! id) as [a|]; [|done]. simpl.
    by destruct (isExpiredActive (currentTimestamp env) a).
  - unfold bind at 1.
    match goal with
    | |- context [for_each ?l _ ?w1] =>
        pose proof (for_each_assignWinner_samePrices env l w1) as Hloop;
        destruct (for_each l (assignWinner env) w1) as [[e|[]] w2]
    end; simpl in *.
    all: eapply samePrices_trans; [|exact Hloop].
    all: split; [done|]; intros id; simpl; rewrite lookup_fmap.
    all: destruct (auctionItem (store w) !! id) as [a|]; [|done]; simpl.
    all: by destruct (isExpiredActive (currentTimestamp env) a).
Qed.

Lemma handleJoinRoom_store env socket payload w :
  store (snd (handleJoinRoom env socket payload w)) = store w.
Proof.
  unfold handleJoinRoom. destruct payload as [pid|]; [|done].
  destruct (truthy pid) as [id|]; [|done].
  unfold bind at 1, socket_join, modify. unfold bind at 1, emit at 1, modify.
  unfold bind.
  match goal with
  | |- context [fetchCurrentAuctionBidInfo env id ?w2] =>
      destruct (fetchCurrentAuctionBidInfo_total env id w2) as [info ->]
  end.
  by destruct info.
Qed.

Lemma pricedInCents_prices a a' : prices a = prices a' -> pricedInCents a -> pricedInCents a'.
Proof. unfold prices, pricedInCents. by intros [= -> ->]. Qed.

Lemma Inv_samePrices s s' t : Inv s t -> samePrices s s' -> Inv s' t.
Proof.
  intros (Hinc & Hclock & Htop & Hpairs) Hsame.
  pose proof Hsame as [Hb _]. unfold Inv. rewrite Hb. split; [|split; [|split]].
  - intros id a' Ha'.
    destruct (samePrices_lookup _ _ _ _ Hsame Ha') as (a & Ha & Hp).
    apply (pricedInCents_prices a a' Hp). eauto.
  - done.
  - intros b a' Hin Hok Ha'.
    destruct (samePrices_lookup _ _ _ _ Hsame Ha') as (a & Ha & [= <- _]). eauto.
  - intros b1 b2 a' Hin1 Hin2 Hok1 Hok2 Hid Ha' Hlt.
    destruct (samePrices_lookup _ _ _ _ Hsame Ha') as (a & Ha & [= _ <-]). eauto.
Qed.

Lemma Inv_failed_attempt s t b :
  Inv s t -> wasBidSuccessful b = false ->
  Inv (mkStore (auctionItem s) (bid s ++ [b]) (user s)) t.
Proof.
  intros (Hinc & Hclock & Htop & Hpairs) Hb. unfold Inv. simpl.
  assert (forall b', b' ∈ (bid s ++ [b])%list -> wasBidSuccessful b' = true -> b' ∈ bid s)
    as Hold.
  { intros b' [?| ->%list_elem_of_singleton]%elem_of_app; [done|congruence]. }
  split; [|split; [|split]]; eauto 10.
Qed.

(** The commit of a bid that passed the amount check of step 4: [stored] is
    the amount as the columns store it. *)
Lemma Inv_commit env auctionItemId bidderUserId amount stored a s t :
  Inv s t ->
  (t <= bidPlacedAtTimestamp env)%Z ->
  auctionItem s !! auctionItemId = Some a ->
  (jsAdd (currentHighestBidInDollars a) (minimumBidIncrementInDollars a) <= amount)%Q ->
  DECIMAL_12_2 amount = Some stored ->
  Inv (committedStore env auctionItemId bidderUserId stored a s) (bidPlacedAtTimestamp env).
Proof.
  intros (Hinc & Hclock & Htop & Hpairs) Ht Ha Hamt Hstored.
  pose proof (Hinc _ _ Ha) as (Hcur_a & Hinc_a & Hpos_a).
  pose proof (stored_amount_reaches_sum _ _ _ _ Hcur_a Hinc_a Hamt Hstored) as Hsum.
  set (new := acceptedBidRow env auctionItemId bidderUserId stored).
  assert (forall b', b' ∈ (bid s ++ [new])%list -> b' ∈ bid s \/ b' = new) as Hsplit.
  { intros b' [?| ->%list_elem_of_singleton]%elem_of_app; auto. }
  assert (forall id a',
    <[auctionItemId := setHighestBid a stored (bidPlacedAtTimestamp env)]> (auctionItem s) !! id
    = Some a' ->
    minimumBidIncrementInDollars a' = minimumBidIncrementInDollars
                                        (default a' (auctionItem s !! id)) /\
    is_Some (auctionItem s !! id) /\
    (id = auctionItemId -> currentHighestBidInDollars a' = stored) /\
    (id <> auctionItemId -> auctionItem s !! id = Some a')) as Hrow.
  { intros id a'. rewrite lookup_insert.
    destruct (decide (auctionItemId = id)) as [<-|Hne].
    - intros [= <-]. rewrite Ha. simpl. done.
    - intros Ha'. rewrite Ha'. simpl. split; [done|]. split; [eauto|]. split; congruence. }
  unfold Inv, committedStore. simpl. fold new. split; [|split; [|split]].
  - intros id a'. rewrite lookup_insert.
    destruct (decide (auctionItemId = id)) as [<-|Hne]; [|by apply Hinc].
    intros [= <-]. unfold pricedInCents. simpl.
    split; [by eapply DECIMAL_12_2_column|done].
  - intros b [Hin| ->]%Hsplit Hok; [|simpl; lia].
    specialize (Hclock b Hin Hok). lia.
  - intros b a' [Hin| ->]%Hsplit Hok Ha'.
    + destruct (Hrow _ a' Ha') as (_ & _ & Heq & Hne).
      destruct (decide (bid_auctionItemId b = auctionItemId)) as [Hid|Hid].
      * rewrite (Heq Hid). rewrite Hid in *.
        pose proof (Htop b a Hin Hok) as Hb. rewrite Hid in Hb. specialize (Hb Ha). lra.
      * apply (Htop b a' Hin Hok). by apply Hne.
    + simpl in Ha'. destruct (Hrow _ a' Ha') as (_ & _ & Heq & _).
      rewrite (Heq eq_refl). simpl. apply Qle_refl.
  - intros b1 b2 a' [Hin1| ->]%Hsplit [Hin2| ->]%Hsplit Hok1 Hok2 Hid Ha' Hlt.
    + destruct (Hrow _ a' Ha') as (Hinc' & [a0 Ha0] & _). rewrite Hinc', Ha0. simpl.
      by apply (Hpairs b1 b2 a0).
    + simpl in *. rewrite Hid in Ha'.
      destruct (Hrow _ a' Ha') as (Hinc' & _). rewrite Hinc', Ha. simpl.
      pose proof (Htop b1 a Hin1 Hok1) as Hb. rewrite Hid in Hb. specialize (Hb Ha). lra.
    + simpl in Hlt. specialize (Hclock b2 Hin2 Hok2). lia.
    + lia.
Qed.

Lemma reachable_Inv w t : reachable w t -> Inv (store w) t.
Proof.
  induction 1 as [w t Hnone Hinc|w t env aid bidder amount _ IH Ht|w t env _ IH
                 |w t env aid bidder amount ms _ IH|w t env socket payload _ IH].
  - unfold Inv. rewrite Hnone. split; [done|]. split; [|split].
    + by intros b ?%elem_of_nil.
    + by intros b a ?%elem_of_nil.
    + by intros b1 b2 a ?%elem_of_nil.
  - destruct (processBidWithDistributedLock_cases env aid bidder amount w)
      as (r & w' & -> & Hcases & _). simpl.
    destruct Hcases as [(a & stored & _ & Hacc & _ & ->)|(_ & -> & _)].
    + destruct Hacc as (_ & Ha & Hrej & _ & Hstored & _). apply rejection_None in Hrej.
      apply (Inv_commit _ _ _ amount _ _ _ t); [done|done|done| |done].
      by destruct Hrej as (_ & _ & _ & ?).
    + destruct IH as (Hinc & Hclock & Htop & Hpairs). split; [|split; [|split]]; try done.
      intros b Hin Hok. specialize (Hclock b Hin Hok). lia.
  - eapply Inv_samePrices; [exact IH|apply markExpiredAuctionsAsEnded_samePrices].
  - destruct (recordFailedBidAttempt_cases env aid bidder amount ms w)
      as (w' & -> & Hauc & Hbid). simpl.
    destruct Hbid as [Hbid|(b & Hbid & Hb)].
    + eapply Inv_samePrices; [exact IH|]. split; [done|]. intros id. by rewrite Hauc.
    + eapply Inv_samePrices; [apply (Inv_failed_attempt _ _ b IH Hb)|].
      split; [done|]. intros id. simpl. by rewrite Hauc.
  - by rewrite handleJoinRoom_store.
Qed.

Example tiedWorld_successful_bids :
  auctionItem (store tiedWorld) !! "a1"
  = Some (setHighestBid (setHighestBid exampleAuction 120 7000) 120 1000) /\
  successfulBidsOn (store tiedWorld) "a1"
  = [acceptedBidRow (quietEnv "token-2" "bid-2" 7000 7000) "a1" "carol" 120;
     acceptedBidRow (quietEnv "token-1" "bid-1" 1000 1000) "a1" "bob" 120].
Proof. vm_compute. done. Qed.

Example dime_bid_below_the_exact_sum :
  exists r w',
    processBidWithDistributedLock exampleEnv "a1" "bob" 0.7999999999999999 dimeWorld
    = (inr r, w') /\
    res_wasBidSuccessful r = true /\
    auctionItem (store dimeWorld) !! "a1" = Some dimeAuction.
Proof. eexists _, _. vm_compute. done. Qed.

(** C6, as stated, fails on the code. In the first wording: when the lock of
    bob's bid expires before his transaction runs, carol's bid of $120,
    validated against the same $100, commits first and bob's $120, stamped
    earlier, commits after it: two successful bids of $120 under a $10
    increment. In the second wording: on an auction at $0.10 with a $0.70
    increment, a bid of 0.7999999999999999 is accepted, since that is what
    the two add up to in binary64. *)
Lemma successful_bids_rise_counterexample :
  ~ spec_successful_bids_rise tiedWorld /\
  ~ spec_accepted_bid_reaches_minimum exampleEnv "a1" "bob" 0.7999999999999999 dimeWorld.
Proof.
  split.
  - intros H. destruct tiedWorld_successful_bids as [Ha Hbids].
    specialize (H "a1" _
                  (acceptedBidRow (quietEnv "token-1" "bid-1" 1000 1000) "a1" "bob" 120)
                  (acceptedBidRow (quietEnv "token-2" "bid-2" 7000 7000) "a1" "carol" 120)
                  Ha).
    rewrite Hbids in H. revert H. cbn -[elem_of]. intros H.
    assert (120 + 10 <= 120)%Q as Habs; [|by apply Qle_bool_iff in Habs].
    apply H; [right; by left|by left|lia].
  - intros H.
    destruct dime_bid_below_the_exact_sum as (r & w' & Hrun & Hok & Ha).
    specialize (H r w' dimeAuction Hrun Hok Ha). clear Hrun.
    apply Qle_bool_iff in H. vm_compute in H. discriminate H.
Qed.

(** C6, amended. Let the bid transactions of an auction run one at a time, as
    the lock intends while it does not expire, and let the clock of the write
    step never go back; start from a store without bids whose prices are
    column values with positive increments. Then, for every auction and every
    two successful bids b1, b2 on it with b1 placed before b2, b2's stored
    amount is at least b1's stored amount plus the auction's minimum
    increment. Every accepted bid's submitted amount is at least the binary64
    sum of the current highest bid at validation and the minimum increment,
    the amount stored for it (rounded to two decimals) is at least their
    exact sum and becomes the new current highest bid, so that the current
    highest bid strictly increases across accepted bids. *)
Theorem serialised_successful_bids_rise_by_the_increment :
  forall w t,
    reachable w t ->
    (forall id a b1 b2,
       auctionItem (store w) !! id = Some a ->
       b1 ∈ successfulBidsOn (store w) id ->
       b2 ∈ successfulBidsOn (store w) id ->
       (placedAtTimestamp b1 < placedAtTimestamp b2)%Z ->
       (bid_bidAmountInDollars b1 + minimumBidIncrementInDollars a
        <= bid_bidAmountInDollars b2)%Q) /\
    (forall env id bidderUserId amount r w',
       processBidWithDistributedLock env id bidderUserId amount w = (inr r, w') ->
       res_wasBidSuccessful r = true ->
       exists a a' stored,
         auctionItem (store w) !! id = Some a /\
         auctionItem (store w') !! id = Some a' /\
         (jsAdd (currentHighestBidInDollars a) (minimumBidIncrementInDollars a) <= amount)%Q /\
         DECIMAL_12_2 amount = Some stored /\
         (currentHighestBidInDollars a + minimumBidIncrementInDollars a <= stored)%Q /\
         currentHighestBidInDollars a' = stored /\
         minimumBidIncrementInDollars a' = minimumBidIncrementInDollars a /\
         (currentHighestBidInDollars a < currentHighestBidInDollars a')%Q).
Proof.
  intros w t Hreach. split.
  - destruct (reachable_Inv w t Hreach) as (_ & _ & _ & Hpairs).
    intros id a b1 b2 Ha [[Hid1 Hok1] Hin1]%list_elem_of_filter
      [[Hid2 Hok2] Hin2]%list_elem_of_filter Hlt.
    apply (Hpairs b1 b2 a); try done; congruence.
  - destruct (reachable_Inv w t Hreach) as (Hinc & _).
    intros env id bidder amount r w' Hrun Hok.
    destruct (processBidWithDistributedLock_cases env id bidder amount w)
      as (r0 & w0 & Hrun0 & Hcases & _).
    rewrite Hrun in Hrun0. injection Hrun0 as <- <-.
    destruct Hcases as [(a & stored & _ & Hacc & _ & Hst)|(Hfail & _)]; [|congruence].
    destruct Hacc as (_ & Ha & Hrej & _ & Hstored & _). apply rejection_None in Hrej.
    destruct Hrej as (_ & _ & _ & Hamt).
    destruct (Hinc id a Ha) as (Hcur_a & Hinc_a & Hpos_a).
    pose proof (stored_amount_reaches_sum _ _ _ _ Hcur_a Hinc_a Hamt Hstored) as Hsum.
    exists a, (setHighestBid a stored (bidPlacedAtTimestamp env)), stored.
    rewrite Hst. simpl. rewrite lookup_insert_eq.
    repeat split; try done. lra.
Qed.

(** ** The theorems at work on the example auction *)

Lemma exampleWorld_initial :
  forall id a, auctionItem (store exampleWorld) !! id = Some a -> pricedInCents a.
Proof.
  intros id a. simpl. rewrite lookup_insert.
  destruct (decide ("a1" = id)); [|by rewrite lookup_empty].
  intros [= <-]. split; [|split]; [vm_compute; reflexivity..|done].
Qed.

Lemma worldAfterCarol120_reachable : reachable worldAfterCarol120 601.
Proof.
  apply (reachable_bid _ 501); [|simpl; lia].
  apply (reachable_bid exampleWorld 0 exampleEnv); [|simpl; lia].
  apply reachable_initial; [reflexivity|apply exampleWorld_initial].
Defined.

Lemma serialised_successful_bids_rise_by_the_increment_witness :
  reachable worldAfterCarol120 601 /\ (110 + 10 <= 120)%Q.
Proof.
  split; [exact worldAfterCarol120_reachable|].
  destruct (serialised_successful_bids_rise_by_the_increment worldAfterCarol120 601
              worldAfterCarol120_reachable) as [Hpairs _].
  assert (successfulBidsOn (store worldAfterCarol120) "a1"
          = [acceptedBidRow exampleEnv "a1" "bob" 110;
             acceptedBidRow (quietEnv "token-2" "bid-2" 600 601) "a1" "carol" 120]) as Hbids
    by (vm_compute; reflexivity).
  assert (auctionItem (store worldAfterCarol120) !! "a1"
          = Some (setHighestBid (setHighestBid exampleAuction 110 501) 120 601)) as Ha
    by (vm_compute; reflexivity).
  apply (Hpairs "a1" (setHighestBid (setHighestBid exampleAuction 110 501) 120 601)
           (acceptedBidRow exampleEnv "a1" "bob" 110)
           (acceptedBidRow (quietEnv "token-2" "bid-2" 600 601) "a1" "carol" 120)).
  - exact Ha.
  - rewrite Hbids. by left.
  - rewrite Hbids. right. by left.
  - simpl. lia.
Defined.

(** A guarded function that throws: the lock is taken and released. *)
Lemma executeWithDistributedLock_releases_on_every_exit_witness :
  let '(answer, w') :=
    executeWithDistributedLock exampleEnv "a1" (throw "boom" : M unit) 5000 exampleWorld in
  answer = inr (mkExecuteWithLockResult false None (Some "boom") true) /\
  redis w' !! generateBidProcessingLockKey "a1" <> Some (RString "token-1", 5000%Z).
Proof.
  pose proof (executeWithDistributedLock_releases_on_every_exit unit exampleEnv "a1"
                (throw "boom") 5000 exampleWorld) as H.
  destruct (executeWithDistributedLock exampleEnv "a1" (throw "boom") 5000 exampleWorld)
    as [answer w'].
  change (lockKeyFree exampleEnv "a1" exampleWorld) with true in H.
  cbv beta iota in H. unfold throw in H.
  destruct H as (Hanswer & _ & Hreleased).
  split; [exact Hanswer|]. apply Hreleased. reflexivity.
Defined.

(** The specification's under-bid: $115 against $110 with a $10 increment. *)
Lemma failed_bid_leaves_auction_unchanged_witness :
  exists r w',
    processBidWithDistributedLock (quietEnv "token-2" "bid-2" 600 601) "a1" "carol" 115
      worldAfterBob110 = (inr r, w') /\
    errorCode r = Some BID_ERROR_BID_TOO_LOW /\
    store w' = store worldAfterBob110.
Proof.
  set (outcome := processBidWithDistributedLock (quietEnv "token-2" "bid-2" 600 601) "a1" "carol" 115
                worldAfterBob110).
  assert (exists r, outcome = (inr r, snd outcome) /\ res_wasBidSuccessful r = false /\
                    errorCode r = Some BID_ERROR_BID_TOO_LOW) as (r & Hrun & Hfail & Hcode).
  { eexists. vm_compute. split; [reflexivity|]. split; reflexivity. }
  exists r, (snd outcome). split; [exact Hrun|]. split; [exact Hcode|].
  exact (proj1 (failed_bid_leaves_auction_unchanged _ _ _ _ _ r (snd outcome) Hrun Hfail)).
Defined.

(** A bid of 110.005: the rows hold 110.01, the bidder and the room are told
    110.005. *)
Lemma accepted_amount_is_stored_to_the_cent_witness :
  exists w1,
    currentHighestBidInDollars <$> auctionItem (store w1) !! "a1" = Some 110.01%Q /\
    exists count,
      handlePlaceBid exampleEnv bobSocket (placeBidPayload 110.005) exampleWorld =
      (inr tt,
       with_emitted w1
         (emitted w1 ++
          acceptedEmissions exampleEnv bobSocket
            (mkAuthenticatedSocketData "bob" "bob@example.com" "Bob" "bob" "jwt-bob")
            "a1" 110.005 count (ioServer w1))).
Proof.
  set (outcome := processBidWithDistributedLock exampleEnv "a1" "bob" 110.005 exampleWorld).
  assert (exists r, outcome = (inr r, snd outcome) /\ res_wasBidSuccessful r = true)
    as (r & Hrun & Hok).
  { eexists. vm_compute. split; reflexivity. }
  destruct (accepted_amount_is_stored_to_the_cent exampleEnv bobSocket
              (placeBidPayload 110.005) _ "a1" 110.005%Q exampleWorld r (snd outcome)
              eq_refl eq_refl eq_refl eq_refl Hrun Hok)
    as (stored & Hstored & Hrow & _ & _ & _ & _ & Hemit).
  exists (snd outcome). split; [|exact Hemit].
  rewrite Hrow. vm_compute in Hstored. injection Hstored as <-. reflexivity.
Defined.

Lemma join_snapshot_is_read_from_store_witness :
  exists p,
    emitted (snd (handleJoinRoom exampleEnv bobSocket (mkJoinAuctionRoomPayload (Some "a1"))
                    worldAfterBob110))
    = [ToSocket "socket-bob" (JOINED_AUCTION_ROOM "a1");
       ToSocket "socket-bob" (AUCTION_STATE_SYNC p)] /\
    sync_currentHighestBidInDollars p = 110%Q /\
    sync_highestBidderUsername p = Some "bob".
Proof.
  destruct (join_snapshot_is_read_from_store exampleEnv bobSocket "a1" worldAfterBob110
              (setHighestBid exampleAuction 110 501) eq_refl eq_refl)
    as [(p & Hemit & _ & Hcur & _ & Hname & _) _].
  - vm_compute. reflexivity.
  - intros b Hb. vm_compute in Hb. injection Hb as <-. vm_compute. eauto.
  - exists p. split; [exact Hemit|]. split; [exact Hcur|].
    rewrite Hname. vm_compute. reflexivity.
Defined.

(** * Further properties *)

(** ** The lock manager *)

Lemma generateBidProcessingLockKey_inj a b :
  generateBidProcessingLockKey a = generateBidProcessingLockKey b -> a = b.
Proof. cbv. by intros [= ->]. Qed.

Lemma lockKey_ne_currentBidKey a b :
  generateBidProcessingLockKey a <> generateCurrentBidCacheKey b.
Proof. cbv. done. Qed.

Lemma lockKey_ne_highestBidderKey a b :
  generateBidProcessingLockKey a <> generateHighestBidderCacheKey b.
Proof. cbv. done. Qed.

Ltac keys_ne :=
  first [ apply lockKey_ne_currentBidKey | apply lockKey_ne_highestBidderKey
        | apply not_eq_sym; apply lockKey_ne_currentBidKey
        | apply not_eq_sym; apply lockKey_ne_highestBidderKey ].

(** X1. While the lock key of an auction is present, every acquisition for
    that auction fails, whatever token and time-to-live it brings, leaves the
    world as it is and never runs the guarded function; after a successful
    acquisition the key is present with the holder's token and time-to-live,
    so a second acquisition fails until the key goes away. *)
Theorem held_lock_excludes_every_other_acquisition :
  forall env auctionItemId ttl w,
    lockKeyFree env auctionItemId w = true ->
    let w1 := lockedWorld env auctionItemId ttl w in
    acquireDistributedLockForBidProcessing env auctionItemId ttl w
    = (inr (mkLockAcquisitionResult true (Some (generateUuidV4 env)) None), w1) /\
    redis w1 !! generateBidProcessingLockKey auctionItemId
    = Some (RString (generateUuidV4 env), ttl) /\
    checkIfLockIsCurrentlyHeld false auctionItemId w1 = (inr true, w1) /\
    forall env' ttl' (w2 : World),
      is_Some (redis w2 !! generateBidProcessingLockKey auctionItemId) ->
      acquireDistributedLockForBidProcessing env' auctionItemId ttl' w2
      = (inr (mkLockAcquisitionResult false None (Some (lockUnavailableMessage env'))), w2) /\
      forall (T : Type) (callback : M T),
        executeWithDistributedLock env' auctionItemId callback ttl' w2
        = (inr (mkExecuteWithLockResult false None (Some (lockUnavailableMessage env')) false),
           w2).
Proof.
  intros env aid ttl w Hfree w1. subst w1.
  rewrite acquire_unfold, Hfree. split; [done|].
  split; [unfold lockedWorld; simpl; by rewrite lookup_insert_eq|].
  split.
  { unfold checkIfLockIsCurrentlyHeld, try_catch, bind, redis_get, ret, lockedWorld. simpl.
    by rewrite lookup_insert_eq. }
  intros env' ttl' w2 [v Hv].
  assert (lockKeyFree env' aid w2 = false) as Hheld.
  { unfold lockKeyFree. rewrite Hv. by destruct (redisSetFails env'). }
  split.
  - by rewrite acquire_unfold, Hheld.
  - intros T callback. by rewrite executeWithDistributedLock_unfold, Hheld.
Qed.

Lemma held_lock_excludes_every_other_acquisition_witness :
  fst (acquireDistributedLockForBidProcessing (quietEnv "token-2" "bid-2" 600 601) "a1" 5000
         (lockedWorld exampleEnv "a1" 5000 exampleWorld))
  = inr (mkLockAcquisitionResult false None (Some "Lock is currently held by another process")).
Proof.
  destruct (held_lock_excludes_every_other_acquisition exampleEnv "a1" 5000 exampleWorld
              eq_refl) as (_ & Hkey & _ & Hexcl).
  destruct (Hexcl (quietEnv "token-2" "bid-2" 600 601) 5000
              (lockedWorld exampleEnv "a1" 5000 exampleWorld)) as [-> _].
  - rewrite Hkey. eauto.
  - reflexivity.
Defined.

(** X2. Acquire then release is a round trip: releasing with the token that
    the acquisition returned, when the coordinator answers the script, gives
    back exactly the world from before the acquisition and reports success. *)
Theorem release_undoes_acquire :
  forall env auctionItemId ttl w,
    lockKeyFree env auctionItemId w = true ->
    redisEvalFails env = false ->
    releaseDistributedLockForBidProcessing env auctionItemId (generateUuidV4 env)
      (lockedWorld env auctionItemId ttl w)
    = (inr (mkLockReleaseResult true None), w).
Proof.
  intros env aid ttl w Hfree Hok.
  unfold releaseDistributedLockForBidProcessing, try_catch, bind,
    redis_eval_safe_lock_release, ret. rewrite Hok.
  unfold lockedWorld at 1. simpl. rewrite lookup_insert_eq. simpl.
  rewrite String.eqb_refl. simpl. f_equal.
  unfold lockedWorld, with_redis. simpl. rewrite delete_insert_eq.
  unfold lockKeyFree in Hfree. apply andb_true_iff in Hfree as [_ Hnone].
  destruct (redis w !! generateBidProcessingLockKey aid) eqn:Hk; [done|].
  rewrite delete_id by done. by destruct w.
Qed.

Lemma release_undoes_acquire_witness :
  snd (releaseDistributedLockForBidProcessing exampleEnv "a1" "token-1"
         (lockedWorld exampleEnv "a1" 5000 exampleWorld)) = exampleWorld.
Proof.
  exact (f_equal snd (release_undoes_acquire exampleEnv "a1" 5000 exampleWorld eq_refl eq_refl)).
Defined.

(** X3. Releasing with a token other than the one the key holds (the lock
    expired and went to another holder), or when the key is absent, changes
    nothing and reports that the lock was not released. *)
Theorem release_by_non_owner_is_a_no_op :
  forall env auctionItemId token w,
    (forall ttl, redis w !! generateBidProcessingLockKey auctionItemId
                 <> Some (RString token, ttl)) ->
    exists message,
      releaseDistributedLockForBidProcessing env auctionItemId token w
      = (inr (mkLockReleaseResult false (Some message)), w).
Proof.
  intros env aid token w Hother.
  unfold releaseDistributedLockForBidProcessing, try_catch, bind,
    redis_eval_safe_lock_release, ret.
  destruct (redisEvalFails env); [by eexists|].
  destruct (redis w !! generateBidProcessingLockKey aid) as [[v t]|] eqn:Hk;
    [|by eexists].
  destruct v as [s|q]; simpl; [|by eexists].
  destruct (String.eqb_spec s token) as [->|Hne]; [|by eexists].
  by destruct (Hother t).
Qed.

Lemma release_by_non_owner_is_a_no_op_witness :
  snd (releaseDistributedLockForBidProcessing exampleEnv "a1" "token-9"
         (lockedWorld exampleEnv "a1" 5000 exampleWorld))
  = lockedWorld exampleEnv "a1" 5000 exampleWorld.
Proof.
  destruct (release_by_non_owner_is_a_no_op exampleEnv "a1" "token-9"
              (lockedWorld exampleEnv "a1" 5000 exampleWorld)) as [message ->].
  - intros ttl. vm_compute. discriminate.
  - reflexivity.
Defined.

(** X4. Locks are per auction: holding or releasing the lock of one auction
    neither blocks nor frees the lock of another. *)
Theorem locks_of_different_auctions_are_independent :
  forall env env' a b ttl token w,
    a <> b ->
    lockKeyFree env' b (lockedWorld env a ttl w) = lockKeyFree env' b w /\
    lockKeyFree env' b (snd (releaseDistributedLockForBidProcessing env a token w))
    = lockKeyFree env' b w.
Proof.
  intros env env' a b ttl token w Hne.
  assert (generateBidProcessingLockKey a <> generateBidProcessingLockKey b) as Hkeys
    by (by intros ?%generateBidProcessingLockKey_inj).
  split.
  - unfold lockKeyFree, lockedWorld. simpl. by rewrite lookup_insert_ne.
  - rewrite release_world. unfold lockKeyFree, releasedRedis. simpl.
    destruct (redisEvalFails env); [done|].
    destruct (redis w !! generateBidProcessingLockKey a) as [[v t]|]; [|done].
    destruct (RedisValue_eqb v (RString token)); [|done].
    by rewrite lookup_delete_ne.
Qed.

Lemma locks_of_different_auctions_are_independent_witness :
  lockKeyFree exampleEnv "a2" (lockedWorld exampleEnv "a1" 5000 exampleWorld) = true.
Proof.
  destruct (locks_of_different_auctions_are_independent exampleEnv exampleEnv "a1" "a2" 5000
              "token-1" exampleWorld) as [-> _]; [discriminate|reflexivity].
Defined.

(** ** The bid pipeline *)

Lemma setexIfAnswered_lookup env key value r :
  setexIfAnswered env key value r !! key
  = if redisSetexFails env key then r !! key
    else Some (value, CACHE_TTL_FOR_AUCTION_STATE_IN_SECONDS * 1000).
Proof.
  unfold setexIfAnswered. destruct (redisSetexFails env key); [done|].
  by rewrite lookup_insert_eq.
Qed.

Lemma setexIfAnswered_lookup_ne env key value r key' :
  key' <> key -> setexIfAnswered env key value r !! key' = r !! key'.
Proof.
  intros Hne. unfold setexIfAnswered. destruct (redisSetexFails env key); [done|].
  by rewrite lookup_insert_ne.
Qed.

Lemma setexIfAnswered_delete env key value r key' :
  key' <> key ->
  delete key' (setexIfAnswered env key value r) = setexIfAnswered env key value (delete key' r).
Proof.
  intros Hne. unfold setexIfAnswered. destruct (redisSetexFails env key); [done|].
  by rewrite delete_insert_ne.
Qed.

Lemma currentBidKey_ne_highestBidderKey a b :
  generateCurrentBidCacheKey a <> generateHighestBidderCacheKey b.
Proof. cbv. done. Qed.

(** Every key but the two cache entries of the auction is left alone by the
    cache refresh. *)
Lemma refreshedCache_lookup_ne env auctionItemId bidderUserId amount r key :
  key <> generateCurrentBidCacheKey auctionItemId ->
  key <> generateHighestBidderCacheKey auctionItemId ->
  refreshedCache env auctionItemId bidderUserId amount r !! key = r !! key.
Proof.
  intros Hcb Hhb. unfold refreshedCache.
  by rewrite !setexIfAnswered_lookup_ne.
Qed.

(** What a bid leaves in the coordinator when the lock was free and the
    release script is answered: the refreshed cache if the bid is accepted,
    and what was there before otherwise; the lock key is gone again. *)
Lemma redis_after_pipeline env auctionItemId bidderUserId amount w r w' :
  lockKeyFree env auctionItemId w = true ->
  redisEvalFails env = false ->
  processBidWithDistributedLock env auctionItemId bidderUserId amount w = (inr r, w') ->
  redis w' = if res_wasBidSuccessful r
             then refreshedCache env auctionItemId bidderUserId amount (redis w)
             else redis w.
Proof.
  intros Hfree Hok. unfold processBidWithDistributedLock, bind.
  rewrite executeWithDistributedLock_unfold, Hfree. simpl.
  set (ttl := LOCK_TTL_FOR_BID_PROCESSING_IN_MILLISECONDS).
  set (w1 := lockedWorld env auctionItemId ttl w).
  assert (redis w !! generateBidProcessingLockKey auctionItemId = None) as Hnone.
  { unfold lockKeyFree in Hfree. apply andb_true_iff in Hfree as [_ Hfree].
    by destruct (redis w !! generateBidProcessingLockKey auctionItemId). }
  assert (forall m : gmap string (RedisValue * Z),
    m !! generateBidProcessingLockKey auctionItemId = Some (RString (generateUuidV4 env), ttl) ->
    releasedRedis env auctionItemId (generateUuidV4 env) m
    = delete (generateBidProcessingLockKey auctionItemId) m) as Hrel.
  { intros m Hm. unfold releasedRedis. rewrite Hok, Hm. simpl. by rewrite String.eqb_refl. }
  assert (forall v : RedisValue * Z,
    delete (generateBidProcessingLockKey auctionItemId)
      (<[generateBidProcessingLockKey auctionItemId := v]> (redis w)) = redis w) as Hback.
  { intros v. rewrite delete_insert_eq. by apply delete_id. }
  destruct (processBidTransaction_cases env auctionItemId bidderUserId amount w1)
    as [(a & stored & Hacc & ->)|(outcome & -> & Hout)]; simpl; rewrite release_world.
  - intros [= <- <-]. simpl. rewrite Hrel.
    + unfold refreshedCache. rewrite !setexIfAnswered_delete by keys_ne.
      unfold w1, lockedWorld. simpl. by rewrite Hback.
    + rewrite refreshedCache_lookup_ne by keys_ne.
      unfold w1, lockedWorld. simpl. by rewrite lookup_insert_eq.
  - assert (releasedRedis env auctionItemId (generateUuidV4 env) (redis w1) = redis w) as Hw1.
    { rewrite Hrel; [apply Hback|]. unfold w1, lockedWorld. simpl. by rewrite lookup_insert_eq. }
    destruct outcome as [e|r0]; simpl; intros [= <- <-]; simpl.
    + done.
    + destruct Hout as (-> & _). done.
Qed.

(** X5. A bid never leaves the lock behind: when the lock of the auction was
    free and the coordinator answers the release script, then after the
    pipeline, whatever its outcome (accepted, refused, lock-protected function
    thrown), the lock key is absent, the lock reads as not held, the next bid
    on the auction can acquire it, and every coordinator key other than the
    auction's two cache entries holds what it held before. *)
Theorem pipeline_leaves_the_lock_free :
  forall env auctionItemId bidderUserId amount w,
    lockKeyFree env auctionItemId w = true ->
    redisEvalFails env = false ->
    let w' := snd (processBidWithDistributedLock env auctionItemId bidderUserId amount w) in
    redis w' !! generateBidProcessingLockKey auctionItemId = None /\
    checkIfLockIsCurrentlyHeld false auctionItemId w' = (inr false, w') /\
    (forall env', redisSetFails env' = false -> lockKeyFree env' auctionItemId w' = true) /\
    (forall key,
       key <> generateCurrentBidCacheKey auctionItemId ->
       key <> generateHighestBidderCacheKey auctionItemId ->
       redis w' !! key = redis w !! key).
Proof.
  intros env aid bidder amount w Hfree Hok w'.
  destruct (processBidWithDistributedLock_cases env aid bidder amount w)
    as (r & w0 & Hrun & _).
  assert (w' = w0) as -> by (subst w'; by rewrite Hrun).
  pose proof (redis_after_pipeline _ _ _ _ _ _ _ Hfree Hok Hrun) as Hredis.
  assert (redis w !! generateBidProcessingLockKey aid = None) as Hnone.
  { unfold lockKeyFree in Hfree. apply andb_true_iff in Hfree as [_ Hfree].
    by destruct (redis w !! generateBidProcessingLockKey aid). }
  assert (forall key,
    key <> generateCurrentBidCacheKey aid -> key <> generateHighestBidderCacheKey aid ->
    redis w0 !! key = redis w !! key) as Hframe.
  { intros key Hcb Hhb. rewrite Hredis. destruct (res_wasBidSuccessful r); [|done].
    by apply refreshedCache_lookup_ne. }
  assert (redis w0 !! generateBidProcessingLockKey aid = None) as Hgone.
  { rewrite Hframe; [done|apply lockKey_ne_currentBidKey|apply lockKey_ne_highestBidderKey]. }
  split; [done|]. split; [|split; [|done]].
  - unfold checkIfLockIsCurrentlyHeld, try_catch, bind, redis_get, ret. simpl.
    by rewrite Hgone.
  - intros env' Hset. unfold lockKeyFree. by rewrite Hset, Hgone.
Qed.

Lemma pipeline_leaves_the_lock_free_witness :
  lockKeyFree (quietEnv "token-2" "bid-2" 600 601) "a1" worldAfterBob110 = true.
Proof.
  destruct (pipeline_leaves_the_lock_free exampleEnv "a1" "bob" 110 exampleWorld
              eq_refl eq_refl) as (_ & _ & Hnext & _).
  apply Hnext. reflexivity.
Defined.

(** X6. The cache follows an accepted bid, entry by entry. When the lock was
    free and the coordinator answers the release script, a bid that is not
    accepted leaves the coordinator as it was. After an accepted bid, each of
    the auction's two cache entries whose SETEX is answered holds the new
    value (the submitted amount as the number prints; the bidder) with a
    time-to-live of sixty seconds, and an entry whose SETEX fails keeps what
    it had: the two requests are independent, so one entry can be new and the
    other old, and the bid is accepted all the same. No other key changes.
    The auction row holds the submitted amount rounded to two decimals, so
    that the cached amount equals the row's when the submitted amount has at
    most two fractional digits. *)
Theorem cache_follows_accepted_bid :
  forall env auctionItemId bidderUserId amount w r w',
    lockKeyFree env auctionItemId w = true ->
    redisEvalFails env = false ->
    processBidWithDistributedLock env auctionItemId bidderUserId amount w = (inr r, w') ->
    (res_wasBidSuccessful r = false -> redis w' = redis w) /\
    (res_wasBidSuccessful r = true ->
     let currentBidKey := generateCurrentBidCacheKey auctionItemId in
     let highestBidderKey := generateHighestBidderCacheKey auctionItemId in
     redis w' !! currentBidKey
     = (if redisSetexFails env currentBidKey then redis w !! currentBidKey
        else Some (RNumber amount, 60000)) /\
     redis w' !! highestBidderKey
     = (if redisSetexFails env highestBidderKey then redis w !! highestBidderKey
        else Some (RString bidderUserId, 60000)) /\
     (forall key, key <> currentBidKey -> key <> highestBidderKey ->
                  redis w' !! key = redis w !! key) /\
     exists stored,
       DECIMAL_12_2 amount = Some stored /\
       currentHighestBidInDollars <$> auctionItem (store w') !! auctionItemId = Some stored /\
       (forall cents, (amount * 100 == inject_Z cents)%Q -> (stored == amount)%Q)).
Proof.
  intros env aid bidder amount w r w' Hfree Hok Hrun.
  pose proof (redis_after_pipeline _ _ _ _ _ _ _ Hfree Hok Hrun) as Hredis.
  split; [by intros Hf; rewrite Hf in Hredis|].
  intros Hs currentBidKey highestBidderKey. subst currentBidKey highestBidderKey.
  rewrite Hs in Hredis. rewrite Hredis.
  split; [|split; [|split]].
  - unfold refreshedCache.
    rewrite setexIfAnswered_lookup_ne by apply currentBidKey_ne_highestBidderKey.
    apply setexIfAnswered_lookup.
  - unfold refreshedCache. rewrite setexIfAnswered_lookup.
    destruct (redisSetexFails env (generateHighestBidderCacheKey aid)); [|reflexivity].
    apply setexIfAnswered_lookup_ne, not_eq_sym, currentBidKey_ne_highestBidderKey.
  - intros key Hcb Hhb. by apply refreshedCache_lookup_ne.
  - destruct (processBidWithDistributedLock_cases env aid bidder amount w)
      as (r0 & w0 & Hrun0 & Hcases & _).
    rewrite Hrun in Hrun0. injection Hrun0 as <- <-.
    destruct Hcases as [(a & stored & _ & Hacc & _ & ->)|(Hfail & _)]; [|congruence].
    destruct Hacc as (_ & _ & _ & _ & Hstored & _).
    exists stored. split; [done|]. split.
    + simpl. by rewrite lookup_insert_eq.
    + intros cents. by apply DECIMAL_12_2_exact.
Qed.

(** Carol's accepted $120 when the SETEX of the current bid fails and that of
    the bidder is answered: the cache says $110 by carol. *)
Lemma cache_follows_accepted_bid_witness :
  let env := mkEnv "token-2" "bid-2" 600 601 600 601 601 601 (fun _ => 601)
               false false (fun key => String.eqb key (generateCurrentBidCacheKey "a1"))
               false false false false false false (fun _ => false) in
  let w' := snd (processBidWithDistributedLock env "a1" "carol" 120 worldAfterBob110) in
  redis w' !! generateCurrentBidCacheKey "a1" = Some (RNumber 110, 60000) /\
  redis w' !! generateHighestBidderCacheKey "a1" = Some (RString "carol", 60000).
Proof.
  intros env w'.
  set (outcome := processBidWithDistributedLock env "a1" "carol" 120 worldAfterBob110).
  assert (exists r, outcome = (inr r, w') /\ res_wasBidSuccessful r = true)
    as (r & Hrun & Hs).
  { eexists. vm_compute. split; reflexivity. }
  assert (lockKeyFree env "a1" worldAfterBob110 = true) as Hfree by (vm_compute; reflexivity).
  destruct (cache_follows_accepted_bid env "a1" "carol" 120 worldAfterBob110 r
              w' Hfree eq_refl Hrun) as (_ & Hcache).
  destruct (Hcache Hs) as (Hcb & Hhb & _).
  split.
  - rewrite Hcb. vm_compute. reflexivity.
  - rewrite Hhb. vm_compute. reflexivity.
Defined.

(** X7. A bid is accepted exactly when it should be. Whatever the
    environment, an accepted bid was placed on an existing auction that was
    ACTIVE, started and not yet past its end at the validation clock, by a
    user other than its creator, for an amount that is not below the sum of
    the current highest bid and the minimum increment as JS adds the two
    numbers (in binary64) and that fits the amount column. Conversely, when
    nothing fails (lock free, store answering, fresh bid id), every such bid
    is accepted. On an auction at $50.10 with a $0.20 increment the sum is
    50.300000000000004: a bid of $50.30 is refused. *)
Theorem bid_is_accepted_iff_valid :
  forall env auctionItemId bidderUserId amount w r w',
    processBidWithDistributedLock env auctionItemId bidderUserId amount w = (inr r, w') ->
    let valid :=
      exists a,
        auctionItem (store w) !! auctionItemId = Some a /\
        currentStatus a = ACTIVE /\
        (auctionStartTimeTimestamp a <= currentTimestamp env < auctionEndTimeTimestamp a)%Z /\
        creatorUserId a <> bidderUserId /\
        (jsAdd (currentHighestBidInDollars a) (minimumBidIncrementInDollars a) <= amount)%Q /\
        is_Some (DECIMAL_12_2 amount) /\
        is_Some (user (store w) !! bidderUserId) in
    (res_wasBidSuccessful r = true -> valid) /\
    (lockKeyFree env auctionItemId w = true ->
     findUniqueFails env = false -> transactionFails env = false ->
     bidIdTaken env (store w) = false ->
     valid -> res_wasBidSuccessful r = true).
Proof.
  intros env aid bidder amount w r w' Hrun valid. subst valid. split.
  - intros Hok.
    destruct (processBidWithDistributedLock_cases env aid bidder amount w)
      as (r0 & w0 & Hrun0 & Hcases & _).
    rewrite Hrun in Hrun0. injection Hrun0 as <- <-.
    destruct Hcases as [(a & stored & _ & Hacc & _)|(Hfail & _)]; [|congruence].
    destruct Hacc as (_ & Ha & Hrej & _ & Hstored & _ & Hu). exists a. split; [done|].
    apply rejection_None in Hrej as (? & ? & ? & ?). by rewrite Hstored.
  - intros Hfree Hfind Htx Hid (a & Ha & Hst & Htime & Hcreator & Hamt & [stored Hstored] & [u Hu]).
    assert (rejection env bidder amount a = None) as Hvalid by (by apply rejection_None).
    revert Hrun. unfold processBidWithDistributedLock, bind.
    rewrite executeWithDistributedLock_unfold, Hfree.
    rewrite processBidTransaction_unfold, Hfind.
    change (store (lockedWorld env aid LOCK_TTL_FOR_BID_PROCESSING_IN_MILLISECONDS w))
      with (store w).
    rewrite Ha, Hvalid, executeBidWrites_unfold, Htx.
    change (store (lockedWorld env aid LOCK_TTL_FOR_BID_PROCESSING_IN_MILLISECONDS w))
      with (store w).
    rewrite Ha, Hstored, Hid, Hu. simpl. by intros [= <- _].
Qed.

(** An auction at $50.10 with an increment of $0.20. *)
Lemma bid_is_accepted_iff_valid_witness :
  let w := mkWorld (mkStore (<["a1" := mkAuctionItem 50.1 50.1 0.2 0 60000 ACTIVE 0 "alice" None]> ∅)
                      [] exampleUsers) ∅ ∅ true [] in
  (exists r, fst (processBidWithDistributedLock exampleEnv "a1" "bob" 50.31 w) = inr r /\
             res_wasBidSuccessful r = true) /\
  (exists r, fst (processBidWithDistributedLock exampleEnv "a1" "bob" 50.3 w) = inr r /\
             res_wasBidSuccessful r = false).
Proof.
  intros w.
  set (a := mkAuctionItem 50.1 50.1 0.2 0 60000 ACTIVE 0 "alice" None).
  assert (lockKeyFree exampleEnv "a1" w = true) as Hfree by (vm_compute; reflexivity).
  assert (bidIdTaken exampleEnv (store w) = false) as Hid by (vm_compute; reflexivity).
  assert (auctionItem (store w) !! "a1" = Some a) as Ha by (vm_compute; reflexivity).
  assert (is_Some (user (store w) !! "bob")) as Hu by (vm_compute; eauto).
  split.
  - set (outcome := processBidWithDistributedLock exampleEnv "a1" "bob" 50.31 w).
    assert (exists r, outcome = (inr r, snd outcome)) as [r Hrun].
    { eexists. vm_compute. reflexivity. }
    exists r. split; [by rewrite Hrun|].
    apply (proj2 (bid_is_accepted_iff_valid exampleEnv "a1" "bob" 50.31 w r _ Hrun));
      [exact Hfree|reflexivity|reflexivity|exact Hid|].
    exists a. split; [exact Ha|]. split; [reflexivity|].
    split; [simpl; lia|]. split; [discriminate|].
    split; [apply Qle_bool_iff; vm_compute; reflexivity|].
    split; [vm_compute; eauto|exact Hu].
  - set (outcome := processBidWithDistributedLock exampleEnv "a1" "bob" 50.3 w).
    assert (exists r, outcome = (inr r, snd outcome)) as [r Hrun].
    { eexists. vm_compute. reflexivity. }
    exists r. split; [by rewrite Hrun|].
    destruct (res_wasBidSuccessful r) eqn:Hok; [exfalso|reflexivity].
    destruct (proj1 (bid_is_accepted_iff_valid exampleEnv "a1" "bob" 50.3 w r _ Hrun) Hok)
      as (a' & Ha' & _ & _ & _ & Hamt & _).
    rewrite Ha in Ha'. injection Ha' as <-.
    apply Qle_bool_iff in Hamt. vm_compute in Hamt. discriminate Hamt.
Defined.

(** X8. Ended is final for bidders: once a run of the reaper has ended an
    auction (it was ACTIVE with its end time reached), every later bid on it,
    by anyone, for any amount, at any clock reading, is refused and changes
    nothing in the store; when the lock is free and the store answers, the
    refusal carries the code [BID_ERROR_AUCTION_ENDED]. *)
Theorem bid_after_reaper_ended_is_refused :
  forall env w n w1 auctionItemId a,
    endExpiredAuctions env w = (inr n, w1) ->
    auctionItem (store w) !! auctionItemId = Some a ->
    isExpiredActive (currentTimestamp env) a = true ->
    forall env' bidderUserId amount,
      exists r w2,
        processBidWithDistributedLock env' auctionItemId bidderUserId amount w1 = (inr r, w2) /\
        res_wasBidSuccessful r = false /\
        store w2 = store w1 /\
        (lockKeyFree env' auctionItemId w1 = true -> findUniqueFails env' = false ->
         errorCode r = Some BID_ERROR_AUCTION_ENDED).
Proof.
  intros env w n w1 aid a Hrun Ha Hexp env' bidder amount.
  destruct (endExpiredAuctions_ok env w n w1 Hrun) as (_ & _ & _ & _ & _ & Hrows).
  assert (exists a1, auctionItem (store w1) !! aid = Some a1 /\ currentStatus a1 = ENDED)
    as (a1 & Ha1 & Hst).
  { rewrite Hrows, Ha. simpl. eexists. split; [done|].
    unfold reapedRow, endRow. rewrite Hexp.
    destruct (isEndedWithoutWinner _); [|done].
    unfold withWinner. by destruct (bid_findFirst_highest (store w) aid). }
  assert (rejection env' bidder amount a1 = Some (createErrorResult BID_ERROR_AUCTION_ENDED))
    as Hrej.
  { unfold rejection. by rewrite Hst. }
  destruct (processBidWithDistributedLock_cases env' aid bidder amount w1)
    as (r & w2 & Hbid & Hcases & _).
  exists r, w2. split; [done|].
  destruct Hcases as [(a2 & stored & _ & Hacc & _)|(Hfail & Hstore & _)].
  { destruct Hacc as (_ & Ha2 & Hnone & _). congruence. }
  split; [done|]. split; [done|].
  intros Hfree Hfind. revert Hbid. unfold processBidWithDistributedLock, bind.
  rewrite executeWithDistributedLock_unfold, Hfree.
  rewrite processBidTransaction_unfold, Hfind.
  change (store (lockedWorld env' aid LOCK_TTL_FOR_BID_PROCESSING_IN_MILLISECONDS w1))
    with (store w1).
  rewrite Ha1, Hrej. simpl. by intros [= <- _].
Qed.

Lemma bid_after_reaper_ended_is_refused_witness :
  exists r,
    fst (processBidWithDistributedLock (quietEnv "token-3" "bid-3" 59000 59000) "a1" "carol" 500
           endedWorld) = inr r /\
    errorCode r = Some BID_ERROR_AUCTION_ENDED.
Proof.
  assert (endExpiredAuctions reaperEnv worldAfterBob110 = (inr 1%Z, endedWorld)) as Hrun
    by (vm_compute; reflexivity).
  destruct (bid_after_reaper_ended_is_refused reaperEnv worldAfterBob110 1%Z endedWorld "a1"
              (setHighestBid exampleAuction 110 501) Hrun)
    with (env' := quietEnv "token-3" "bid-3" 59000 59000) (bidderUserId := "carol")
         (amount := 500%Q)
    as (r & w2 & Hbid & _ & _ & Hcode).
  - vm_compute. reflexivity.
  - reflexivity.
  - exists r. rewrite Hbid. split; [reflexivity|]. apply Hcode; reflexivity.
Defined.

(** ** The socket handlers *)

(** X9. A bid is always attributed to the authenticated user of the socket
    it came from: a [PLACE_BID] message either leaves the bid table as it is
    (always so for a socket without user data, and for a message without
    payload) or appends exactly one row, successful, for the auction and the
    positive amount of the message, as the amount column stores it, whose
    bidder is the user id bound to the socket at the handshake. *)
Theorem bid_row_belongs_to_the_socket_user :
  forall env socket payload w,
    let w' := snd (handlePlaceBid env socket payload w) in
    bid (store w') = bid (store w) \/
    exists userData auctionItemId amount stored b,
      getUserDataFromSocket socket = Some userData /\
      truthy (pb_auctionItemId payload) = Some auctionItemId /\
      pb_bidAmountInDollars payload = Some amount /\
      (0 < amount)%Q /\
      DECIMAL_12_2 amount = Some stored /\
      bid (store w') = (bid (store w) ++ [b])%list /\
      b = acceptedBidRow env auctionItemId (userId userData) stored.
Proof.
  intros env socket payload w w'. subst w'.
  destruct payload as [pid pamount|]; [|by left].
  set (payload := mkPlaceBidPayload pid pamount).
  destruct (handlePlaceBid env socket payload w) as [o wf] eqn:Hh.
  revert Hh. unfold handlePlaceBid, payload. fold payload.
  destruct (getUserDataFromSocket socket) as [ud|]; [|intros [= <- <-]; by left].
  destruct (truthy (pb_auctionItemId payload)) as [aid|];
    [|destruct (pb_bidAmountInDollars payload); intros [= <- <-]; by left].
  destruct (pb_bidAmountInDollars payload) as [amount|]; [|intros [= <- <-]; by left].
  destruct (Qleb amount 0) eqn:Hpos; [intros [= <- <-]; by left|].
  assert (0 < amount)%Q as Hamount.
  { apply Qnot_le_lt. intros Hle. apply Qleb_le in Hle. congruence. }
  destruct (processBidWithDistributedLock_cases env aid (userId ud) amount w)
    as (r & w1 & Hrun & Hcases & _).
  unfold try_catch, bind at 1. rewrite Hrun.
  destruct Hcases as [(a & stored & _ & Hacc & Hr & Hst)|(Hfail & Hst & _)].
  - rewrite Hr. simpl.
    unfold bind at 1, emit at 1, modify. unfold bind at 1.
    match goal with
    | |- context [fetchCurrentAuctionBidInfo env aid ?w2] =>
        destruct (fetchCurrentAuctionBidInfo_total env aid w2) as [info ->]
    end.
    unfold bind, get_world, emit, modify, ret. simpl.
    destruct Hacc as (_ & _ & _ & _ & Hstored & _).
    intros Hh. right.
    exists ud, aid, amount, stored, (acceptedBidRow env aid (userId ud) stored).
    do 5 (split; [done|]). split; [|done].
    assert (store wf = store w1) as ->.
    { revert Hh. destruct (ioServer w1); by intros [= _ <-]. }
    by rewrite Hst.
  - rewrite Hfail. unfold emit, modify. simpl.
    intros [= _ <-]. left. simpl. by rewrite Hst.
Qed.

Lemma bid_row_belongs_to_the_socket_user_witness :
  exists b,
    bid (store (snd (handlePlaceBid exampleEnv bobSocket (placeBidPayload 110) exampleWorld)))
    = [b] /\ bidderUserId b = "bob".
Proof.
  destruct (bid_row_belongs_to_the_socket_user exampleEnv bobSocket (placeBidPayload 110)
              exampleWorld)
    as [Hsame|(ud & aid & amount & stored & b & Hud & _ & _ & _ & _ & Hb & ->)].
  - vm_compute in Hsame. discriminate Hsame.
  - injection Hud as <-. eexists. split; [exact Hb|reflexivity].
Defined.

Lemma generateAuctionRoomNameFromId_inj a b :
  generateAuctionRoomNameFromId a = generateAuctionRoomNameFromId b -> a = b.
Proof. cbv. by intros [= ->]. Qed.

Lemma truthy_Some id : id <> "" -> truthy (Some id) = Some id.
Proof. intros Hne. simpl. by destruct (String.eqb_spec id ""). Qed.

Lemma handleJoinRoom_world env socket auctionItemId w :
  auctionItemId <> "" ->
  exists info,
    fetchCurrentAuctionBidInfo env auctionItemId w = (inr info, w) /\
    handleJoinRoom env socket (mkJoinAuctionRoomPayload (Some auctionItemId)) w =
    (inr tt,
     mkWorld (store w) (redis w)
       (<[generateAuctionRoomNameFromId auctionItemId :=
            {[socket_id socket]} ∪
            default ∅ (rooms w !! generateAuctionRoomNameFromId auctionItemId)]> (rooms w))
       (ioServer w)
       (emitted w ++
        ToSocket (socket_id socket) (JOINED_AUCTION_ROOM auctionItemId) ::
        match info with
        | Some bidInfo =>
            [ToSocket (socket_id socket)
               (AUCTION_STATE_SYNC
                  (mkAuctionStateSyncPayload
                     (info_auctionItemId bidInfo)
                     (info_currentHighestBidInDollars bidInfo)
                     (info_highestBidderUserId bidInfo)
                     (info_highestBidderUsername bidInfo)
                     (info_auctionEndTimeTimestamp bidInfo)
                     "ACTIVE"
                     (info_totalNumberOfBids bidInfo)))]
        | None => []
        end)).
Proof.
  intros Hne. unfold handleJoinRoom. rewrite truthy_Some by done.
  unfold bind at 1, socket_join, modify. unfold bind at 1, emit at 1, modify.
  unfold bind.
  assert (forall w2, store w2 = store w ->
            exists info, fetchCurrentAuctionBidInfo env auctionItemId w = (inr info, w) /\
                         fetchCurrentAuctionBidInfo env auctionItemId w2 = (inr info, w2))
    as Hsame.
  { intros w2 Hst. unfold fetchCurrentAuctionBidInfo, try_catch, bind, get_world, throw, ret.
    rewrite Hst.
    destruct (bidInfoFails env); [by eexists|].
    destruct (auctionItem (store w) !! auctionItemId) as [a|]; [|by eexists].
    destruct (bid_findFirst_highest (store w) auctionItemId) as [b|]; [|by eexists].
    destruct (user (store w) !! bidderUserId b); by eexists. }
  destruct (Hsame w eq_refl) as (info & Hinfo & _).
  exists info. split; [done|].
  match goal with
  | |- context [fetchCurrentAuctionBidInfo env auctionItemId ?w2] =>
      destruct (Hsame w2 eq_refl) as (info' & Hinfo' & ->)
  end.
  assert (info' = info) as -> by congruence.
  destruct info as [bidInfo|]; unfold emit, modify, ret, with_emitted, with_rooms; simpl.
  - by rewrite <- app_assoc.
  - done.
Qed.

(** X10. Joining and leaving an auction's room. After [JOIN_AUCTION_ROOM] the
    socket is a member of the room of that auction, whether or not the
    auction exists, and the first thing it is sent is the [JOINED_AUCTION_ROOM]
    confirmation; after [LEAVE_AUCTION_ROOM] it is no longer a member, the
    other members of the room are those there were before, the rooms of the
    other auctions are untouched, and neither message changes the store. *)
Theorem join_then_leave_restores_the_room :
  forall env socket auctionItemId w,
    auctionItemId <> "" ->
    let payload := mkJoinAuctionRoomPayload (Some auctionItemId) in
    let roomName := generateAuctionRoomNameFromId auctionItemId in
    let w1 := snd (handleJoinRoom env socket payload w) in
    let w2 := snd (handleLeaveRoom socket payload w1) in
    socket_id socket ∈ default ∅ (rooms w1 !! roomName) /\
    (exists rest,
       emitted w1 =
       (emitted w ++
        (ToSocket (socket_id socket) (JOINED_AUCTION_ROOM auctionItemId) :: rest))%list) /\
    ~ socket_id socket ∈ default ∅ (rooms w2 !! roomName) /\
    (forall other, other <> socket_id socket ->
       other ∈ default ∅ (rooms w2 !! roomName) <-> other ∈ default ∅ (rooms w !! roomName)) /\
    (forall otherAuction, otherAuction <> auctionItemId ->
       rooms w2 !! generateAuctionRoomNameFromId otherAuction =
       rooms w !! generateAuctionRoomNameFromId otherAuction) /\
    store w2 = store w.
Proof.
  intros env socket aid w Hne payload roomName w1 w2.
  destruct (handleJoinRoom_world env socket aid w Hne) as (info & _ & Hjoin).
  subst w2 w1 payload. rewrite Hjoin. clear Hjoin. fold roomName.
  unfold handleLeaveRoom. rewrite truthy_Some by done.
  fold roomName. unfold bind, socket_leave, emit, modify. simpl.
  rewrite !lookup_insert_eq. simpl.
  split; [apply elem_of_union_l; by apply elem_of_singleton|].
  split; [by eexists|].
  split; [rewrite elem_of_difference, elem_of_singleton; tauto|].
  split.
  { intros other Hother.
    rewrite elem_of_difference, elem_of_union, !elem_of_singleton. tauto. }
  split; [|done].
  intros other Hother.
  assert (roomName <> generateAuctionRoomNameFromId other) as Hroom.
  { intros Heq. apply generateAuctionRoomNameFromId_inj in Heq. congruence. }
  by rewrite !lookup_insert_ne.
Qed.

Lemma join_then_leave_restores_the_room_witness :
  let joined :=
    snd (handleJoinRoom exampleEnv bobSocket (mkJoinAuctionRoomPayload (Some "a1"))
           exampleWorld) in
  let left := snd (handleLeaveRoom bobSocket (mkJoinAuctionRoomPayload (Some "a1")) joined) in
  "socket-bob" ∈ default (∅ : gset string) (rooms joined !! generateAuctionRoomNameFromId "a1") /\
  ~ "socket-bob" ∈ default (∅ : gset string) (rooms left !! generateAuctionRoomNameFromId "a1").
Proof.
  assert ("a1" <> "") as Hne by discriminate.
  destruct (join_then_leave_restores_the_room exampleEnv bobSocket "a1" exampleWorld Hne)
    as (Hin & _ & Hout & _).
  split; [exact Hin|exact Hout].
Defined.

Lemma fetchCurrentAuctionBidInfo_count env auctionItemId w :
  exists info,
    fetchCurrentAuctionBidInfo env auctionItemId w = (inr info, w) /\
    (forall bidInfo, info = Some bidInfo ->
       info_totalNumberOfBids bidInfo = count_allBidsOnItem (store w) auctionItemId) /\
    (bidInfoFails env = false ->
     is_Some (auctionItem (store w) !! auctionItemId) ->
     (forall b, b ∈ bid (store w) -> is_Some (user (store w) !! bidderUserId b)) ->
     is_Some info).
Proof.
  unfold fetchCurrentAuctionBidInfo, try_catch, bind, get_world, throw, ret.
  destruct (bidInfoFails env); [by eexists|].
  destruct (auctionItem (store w) !! auctionItemId) as [a|].
  2: { eexists. split; [done|]. split; [done|]. by intros _ [? ?]. }
  destruct (bid_findFirst_highest (store w) auctionItemId) as [b|] eqn:Hb.
  2: { eexists. split; [done|]. split; [by intros ? [= <-]|]. by eexists. }
  destruct (user (store w) !! bidderUserId b) eqn:Hu.
  - eexists. split; [done|]. split; [by intros ? [= <-]|]. by eexists.
  - eexists. split; [done|]. split; [done|]. intros _ _ Hfk.
    apply firstByAmountDesc_highest in Hb as [Hin _].
    apply list_elem_of_filter in Hin as [_ Hin].
    destruct (Hfk b Hin) as [u Hu']. congruence.
Qed.

Lemma count_allBidsOnItem_committed env auctionItemId bidderUserId amount a s :
  count_allBidsOnItem (committedStore env auctionItemId bidderUserId amount a s) auctionItemId
  = S (count_allBidsOnItem s auctionItemId).
Proof.
  unfold count_allBidsOnItem, committedStore. simpl.
  rewrite filter_app, length_app. simpl.
  rewrite filter_cons_True by done. simpl. lia.
Qed.

(** X11. An accepted bid is announced to the auction's room. When the server
    instance is set, a [PLACE_BID] that the pipeline accepts sends exactly two
    events and nothing else: [BID_PLACED_SUCCESS] to the bidder's socket, then
    [BID_UPDATE_BROADCAST] to the room of that auction, carrying the amount,
    the bidder's id and username and the write timestamp. The bid count it
    carries is the number of bid rows the auction had before, failed attempts
    included, plus one; it falls back to 1 only when the bid information
    cannot be read. Room membership is not changed, so whoever had joined the
    room is among the addressees. *)
Theorem accepted_bid_is_broadcast_to_the_room :
  forall env socket userData auctionItemId amount w r w1,
    getUserDataFromSocket socket = Some userData ->
    auctionItemId <> "" -> (0 < amount)%Q ->
    ioServer w = true ->
    processBidWithDistributedLock env auctionItemId (userId userData) amount w = (inr r, w1) ->
    res_wasBidSuccessful r = true ->
    let wf :=
      snd (handlePlaceBid env socket (mkPlaceBidPayload (Some auctionItemId) (Some amount)) w) in
    exists count,
      emitted wf =
      (emitted w ++
       [ToSocket (socket_id socket)
          (BID_PLACED_SUCCESS
             (mkBidPlacedSuccessPayload auctionItemId amount (generatedBidId env)
                (bidPlacedAtTimestamp env)));
        ToRoom (generateAuctionRoomNameFromId auctionItemId)
          (BID_UPDATE_BROADCAST
             (mkBidUpdateBroadcastPayload auctionItemId amount
                (userId userData) (sd_username userData)
                (bidPlacedAtTimestamp env) count))])%list /\
      rooms wf = rooms w /\
      (count = S (count_allBidsOnItem (store w) auctionItemId) \/ count = 1%nat) /\
      (bidInfoFails env = false ->
       (forall b, b ∈ bid (store w) -> is_Some (user (store w) !! bidderUserId b)) ->
       is_Some (user (store w) !! userId userData) ->
       count = S (count_allBidsOnItem (store w) auctionItemId)).
Proof.
  intros env socket ud aid amount w r w1 Hud Hne Hpos Hio Hrun Hok wf. subst wf.
  destruct (handlePlaceBid env socket _ w) as [o wf] eqn:Hh.
  revert Hh. unfold handlePlaceBid. rewrite Hud. cbn [pb_auctionItemId pb_bidAmountInDollars].
  rewrite truthy_Some by done.
  assert (Qleb amount 0 = false) as ->.
  { destruct (Qleb amount 0) eqn:Hle; [|done]. apply Qleb_le in Hle. lra. }
  destruct (processBidWithDistributedLock_cases env aid (userId ud) amount w)
    as (r0 & w0 & Hrun0 & Hcases & Hemit & Hio0 & Hrooms).
  rewrite Hrun in Hrun0. injection Hrun0 as <- <-.
  destruct Hcases as [(a & stored & _ & _ & Hr & Hst)|(Hfail & _)]; [|congruence].
  unfold try_catch, bind at 1. rewrite Hrun, Hr. simpl.
  unfold bind at 1, emit at 1, modify. unfold bind at 1.
  match goal with
  | |- context [fetchCurrentAuctionBidInfo env aid ?w2] =>
      destruct (fetchCurrentAuctionBidInfo_count env aid w2) as (info & -> & Hcount & Hsome)
  end.
  unfold bind, get_world, emit, modify, ret. simpl in *.
  rewrite Hio0, Hio, Hemit. intros [= _ <-]. simpl.
  rewrite Hst, count_allBidsOnItem_committed in Hcount.
  eexists. split; [by rewrite <- app_assoc|]. split; [done|]. split.
  - destruct info as [bidInfo|]; simpl; [|by right].
    rewrite (Hcount bidInfo eq_refl). by left.
  - intros Hinfo Hfk Hbidder.
    destruct Hsome as [bidInfo ->]; [done| | |].
    + rewrite Hst. simpl. rewrite lookup_insert_eq. by eexists.
    + rewrite Hst. simpl. intros b [Hb|Hb]%elem_of_app; [by apply Hfk|].
      apply list_elem_of_singleton in Hb as ->. done.
    + simpl. by rewrite (Hcount bidInfo eq_refl).
Qed.

Lemma accepted_bid_is_broadcast_to_the_room_witness :
  exists count,
    emitted (snd (handlePlaceBid exampleEnv bobSocket (placeBidPayload 110) exampleWorld)) =
    [ToSocket "socket-bob"
       (BID_PLACED_SUCCESS (mkBidPlacedSuccessPayload "a1" 110 "bid-1" 501));
     ToRoom (generateAuctionRoomNameFromId "a1")
       (BID_UPDATE_BROADCAST (mkBidUpdateBroadcastPayload "a1" 110 "bob" "bob" 501 count))] /\
    count = 1%nat.
Proof.
  set (outcome := processBidWithDistributedLock exampleEnv "a1" "bob" 110 exampleWorld).
  assert (exists r, outcome = (inr r, snd outcome) /\ res_wasBidSuccessful r = true)
    as (r & Hrun & Hok).
  { eexists. vm_compute. split; reflexivity. }
  assert ("a1" <> "") as Hne by discriminate.
  assert (0 < 110)%Q as Hpos by reflexivity.
  destruct (accepted_bid_is_broadcast_to_the_room exampleEnv bobSocket _ "a1" 110 exampleWorld
              r _ eq_refl Hne Hpos eq_refl Hrun Hok) as (count & Hemitted & _ & _ & Hcount).
  exists count. split; [exact Hemitted|].
  apply Hcount.
  - reflexivity.
  - intros b Hb. vm_compute in Hb. apply elem_of_nil in Hb. destruct Hb.
  - exists (mkUser "bob" "Bob"). reflexivity.
Defined.

(** ** The expiry reaper *)

Lemma assignWinner_fails env row w e w' :
  assignWinner env row w = (inl e, w') -> w' = w.
Proof.
  unfold assignWinner, bind, get_world, throw, ret, auctionItem_update_winner.
  destruct (winnerWriteFails env row.1); [by intros [= _ <-]|].
  destruct (bid_findFirst_highest (store w) row.1); [|done].
  destruct (auctionItem (store w) !! row.1); [done|by intros [= _ <-]].
Qed.

(** A loop that stops at a failing row has dealt with the rows before it. *)
Lemma for_each_assignWinner_partial env s0 l : forall w o w',
  bid (store w) = bid s0 ->
  (forall row, row ∈ l -> is_Some (auctionItem (store w) !! row.1)) ->
  for_each l (assignWinner env) w = (o, w') ->
  exists l', l' ⊆ l /\
    w' = with_store w
           (mkStore (foldl (winnerStep env s0) (auctionItem (store w)) l')
                    (bid (store w)) (user (store w))).
Proof.
  induction l as [|row l IH]; intros w o w' Hbids Hdom; simpl.
  - intros [= _ <-]. exists []. split; [done|]. by destruct w as [[? ? ?] ? ? ? ?].
  - unfold bind at 1.
    destruct (assignWinner env row w) as [[e|[]] w1] eqn:Hrow.
    + intros [= _ <-]. apply assignWinner_fails in Hrow as ->.
      exists []. split; [apply list_subseteq_nil|]. by destruct w as [[? ? ?] ? ? ? ?].
    + apply (assignWinner_ok _ _ _ _ s0) in Hrow; [|done|apply Hdom; by left].
      intros Hrest. apply IH in Hrest as (l' & Hsub & ->).
      * exists (row :: l'). split.
        { intros x [->|Hx]%elem_of_cons; [by left|right; by apply Hsub]. }
        by rewrite Hrow.
      * by rewrite Hrow.
      * intros row' Hin. rewrite Hrow. simpl. apply winnerStep_dom, Hdom. by right.
Qed.

(** Every run of the reaper, failing or not, answers a number and leaves each
    auction row as it was, or ended, or ended with its winner. *)
Lemma markExpiredAuctionsAsEnded_rows env w :
  exists n w',
    markExpiredAuctionsAsEnded env w = (inr n, w') /\
    (n = 0 \/
     n = Z.of_nat (size (filter (fun kv => isExpiredActive (currentTimestamp env) kv.2 = true)
                           (auctionItem (store w))))) /\
    bid (store w') = bid (store w) /\ user (store w') = user (store w) /\
    redis w' = redis w /\ rooms w' = rooms w /\ ioServer w' = ioServer w /\
    emitted w' = emitted w /\
    forall id,
      auctionItem (store w') !! id = auctionItem (store w) !! id \/
      auctionItem (store w') !! id = endRow env <$> auctionItem (store w) !! id \/
      auctionItem (store w') !! id = reapedRow env (store w) id <$> auctionItem (store w) !! id.
Proof.
  unfold markExpiredAuctionsAsEnded, try_catch, endExpiredAuctions, bind at 1,
    auctionItem_updateMany_expired.
  destruct (updateManyFails env).
  { eexists _, w. split; [done|]. split; [by left|]. repeat (split; [done|]). by left. }
  unfold bind at 1, auctionItem_findMany_ended_without_winner.
  destruct (findManyFails env); simpl.
  { eexists _, _. split; [done|]. split; [by left|]. repeat (split; [done|]).
    intros id. right. left. simpl. by rewrite lookup_fmap. }
  unfold bind at 1.
  match goal with
  | |- context [for_each ?l _ ?w1] =>
      destruct (for_each l (assignWinner env) w1) as [o w2] eqn:Hloop;
      apply (for_each_assignWinner_partial env (store w)) in Hloop as (l' & Hsub & ->)
  end.
  2: done.
  2: { intros [id a] [_ Hin]%list_elem_of_filter.
       apply elem_of_map_to_list in Hin. simpl in *. by rewrite Hin. }
  fold (endRow env) in *.
  assert (forall id,
            foldl (winnerStep env (store w)) (endRow env <$> auctionItem (store w)) l' !! id =
            endRow env <$> auctionItem (store w) !! id \/
            foldl (winnerStep env (store w)) (endRow env <$> auctionItem (store w)) l' !! id =
            reapedRow env (store w) id <$> auctionItem (store w) !! id) as Hrows.
  { intros id. rewrite lookup_foldl_winnerStep, lookup_fmap.
    destruct (decide (id ∈ l'.*1)) as [Hin|]; [|by left]. right.
    destruct (auctionItem (store w) !! id) as [a|] eqn:Ha; simpl; [|done].
    apply list_elem_of_fmap in Hin as ([id' a'] & Heq & Hin). simpl in Heq. subst id'.
    apply Hsub, list_elem_of_filter in Hin as [Hended Hin]. simpl in Hended.
    apply elem_of_map_to_list in Hin. rewrite lookup_fmap, Ha in Hin.
    simpl in Hin. injection Hin as <-.
    unfold reapedRow. by rewrite Hended. }
  destruct o as [e|[]]; simpl.
  - eexists _, _. split; [done|]. split; [by left|]. repeat (split; [done|]).
    intros id. simpl. right. apply Hrows.
  - eexists _, _. split; [done|]. split; [by right|]. repeat (split; [done|]).
    intros id. simpl. right. apply Hrows.
Qed.

Lemma endRow_terms env a : auctionTerms (endRow env a) = auctionTerms a.
Proof. unfold endRow. by destruct (isExpiredActive (currentTimestamp env) a). Qed.

Lemma withWinner_terms env s id a : auctionTerms (withWinner env s id a) = auctionTerms a.
Proof. unfold withWinner. by destruct (bid_findFirst_highest s id). Qed.

(** X12. The reaper only moves auctions forward. Whatever fails during a run
    of [markExpiredAuctionsAsEnded], it answers a number, creates and deletes
    no auction, and leaves the bid and user tables, the coordinator, the rooms
    and the events alone. On every auction row it keeps the terms (prices,
    increment, times, creator) and the current highest bid; the status either
    stays or goes from ACTIVE to ENDED, the latter only when the end time has
    been reached; the winner either stays or goes from null to the bidder of
    a highest successful bid of that auction, the latter only on a row that
    is ENDED. So an ENDED auction is never reopened and a winner once set is
    never replaced. *)
Theorem reaper_only_moves_auctions_forward :
  forall env w,
    let w' := snd (markExpiredAuctionsAsEnded env w) in
    (exists n, fst (markExpiredAuctionsAsEnded env w) = inr n) /\
    bid (store w') = bid (store w) /\ user (store w') = user (store w) /\
    redis w' = redis w /\ rooms w' = rooms w /\ emitted w' = emitted w /\
    forall id,
      match auctionItem (store w) !! id, auctionItem (store w') !! id with
      | None, None => True
      | Some a, Some a' =>
          auctionTerms a' = auctionTerms a /\
          currentHighestBidInDollars a' = currentHighestBidInDollars a /\
          (currentStatus a' = currentStatus a \/
           (currentStatus a = ACTIVE /\
            (auctionEndTimeTimestamp a <= currentTimestamp env)%Z /\
            currentStatus a' = ENDED)) /\
          (winnerUserId a' = winnerUserId a \/
           (winnerUserId a = None /\ currentStatus a' = ENDED /\
            exists b, bid_findFirst_highest (store w) id = Some b /\
                      winnerUserId a' = Some (bidderUserId b)))
      | _, _ => False
      end.
Proof.
  intros env w w'. subst w'.
  destruct (markExpiredAuctionsAsEnded_rows env w)
    as (n & w' & -> & _ & Hb & Hu & Hr & Hrooms & _ & He & Hrows).
  simpl. split; [by eexists|]. repeat (split; [done|]).
  intros id.
  assert (forall a,
            currentStatus (endRow env a) = currentStatus a \/
            (currentStatus a = ACTIVE /\ (auctionEndTimeTimestamp a <= currentTimestamp env)%Z /\
             currentStatus (endRow env a) = ENDED)) as Hstatus.
  { intros a. unfold endRow, isExpiredActive.
    destruct (bool_decide (currentStatus a = ACTIVE)) eqn:Hact; simpl; [|by left].
    apply bool_decide_eq_true in Hact.
    destruct (auctionEndTimeTimestamp a <=? currentTimestamp env)%Z eqn:Hend; [|by left].
    right. split; [done|]. split; [lia|done]. }
  assert (forall a, winnerUserId (endRow env a) = winnerUserId a) as Hwin.
  { intros a. unfold endRow. by destruct (isExpiredActive (currentTimestamp env) a). }
  assert (forall a, currentHighestBidInDollars (endRow env a) = currentHighestBidInDollars a)
    as Hcur.
  { intros a. unfold endRow. by destruct (isExpiredActive (currentTimestamp env) a). }
  destruct (Hrows id) as [->|[->| ->]];
    destruct (auctionItem (store w) !! id) as [a|]; simpl; try done.
  - repeat split; by left.
  - split; [apply endRow_terms|]. split; [apply Hcur|]. split; [apply Hstatus|].
    left. apply Hwin.
  - unfold reapedRow.
    destruct (isEndedWithoutWinner (endRow env a)) eqn:Hended.
    2: { split; [apply endRow_terms|]. split; [apply Hcur|]. split; [apply Hstatus|].
         left. apply Hwin. }
    apply andb_true_iff in Hended as [Hst Hnone].
    apply bool_decide_eq_true in Hst. apply bool_decide_eq_true in Hnone.
    rewrite withWinner_terms, endRow_terms. unfold withWinner.
    destruct (bid_findFirst_highest (store w) id) as [b|] eqn:Hb'; simpl.
    + split; [done|]. split; [apply Hcur|]. split; [apply Hstatus|].
      right. rewrite <- Hwin. split; [done|]. split; [done|]. by exists b.
    + split; [done|]. split; [apply Hcur|]. split; [apply Hstatus|]. left. apply Hwin.
Qed.

Lemma withWinner_status env s id a :
  currentStatus (withWinner env s id a) = currentStatus a.
Proof. unfold withWinner. by destruct (bid_findFirst_highest s id). Qed.

Lemma withWinner_end env s id a :
  auctionEndTimeTimestamp (withWinner env s id a) = auctionEndTimeTimestamp a.
Proof. unfold withWinner. by destruct (bid_findFirst_highest s id). Qed.

(** A row the reaper has dealt with is not due at any earlier clock reading. *)
Lemma reapedRow_not_expired env s now' id a :
  (now' <= currentTimestamp env)%Z -> isExpiredActive now' (reapedRow env s id a) = false.
Proof.
  intros Hclock.
  assert (isExpiredActive now' (endRow env a) = false) as Hend.
  { unfold endRow. destruct (isExpiredActive (currentTimestamp env) a) eqn:Hexp; [done|].
    unfold isExpiredActive in *.
    destruct (bool_decide (currentStatus a = ACTIVE)); [|done]. simpl in *. lia. }
  unfold reapedRow. destruct (isEndedWithoutWinner (endRow env a)); [|done].
  unfold isExpiredActive in *. by rewrite withWinner_status, withWinner_end.
Qed.

(** X13. A second run of the reaper finds nothing to do. After a run that
    completed, a further run at a clock reading that is not later, whatever
    fails in it, answers 0 and leaves the world exactly as it was: no status
    and no winner changes. *)
Theorem reaper_is_idempotent :
  forall env w n w1,
    endExpiredAuctions env w = (inr n, w1) ->
    forall env', (currentTimestamp env' <= currentTimestamp env)%Z ->
      markExpiredAuctionsAsEnded env' w1 = (inr 0%Z, w1).
Proof.
  intros env w n w1 Hrun env' Hclock.
  destruct (endExpiredAuctions_ok env w n w1 Hrun) as (Hbids & _ & _ & _ & _ & Hrows).
  assert (forall id a1, auctionItem (store w1) !! id = Some a1 ->
            isExpiredActive (currentTimestamp env') a1 = false /\
            (isEndedWithoutWinner a1 = true -> bid_findFirst_highest (store w1) id = None))
    as Hdone.
  { intros id a1. rewrite Hrows.
    destruct (auctionItem (store w) !! id) as [a|]; [|done]. simpl. intros [= <-]. split.
    - by apply reapedRow_not_expired.
    - intros Hended.
      rewrite (bid_findFirst_highest_ext (store w1) (store w)) by done.
      apply andb_true_iff in Hended as [Hst Hnone].
      apply bool_decide_eq_true in Hst. apply bool_decide_eq_true in Hnone.
      apply firstByAmountDesc_None.
      by apply (reapedRow_ended_without_winner env (store w) id a). }
  destruct (markExpiredAuctionsAsEnded_rows env' w1)
    as (n' & w2 & -> & Hn & Hb & Hu & Hr & Hrooms & Hio & He & Hrows').
  f_equal.
  - f_equal. destruct Hn as [->| ->]; [done|].
    rewrite map_empty_filter_2; [done|].
    intros id a1 Ha1 Hexp. simpl in Hexp. destruct (Hdone id a1 Ha1) as [Hno _].
    congruence.
  - assert (auctionItem (store w2) = auctionItem (store w1)) as Hitems.
    { apply map_eq. intros id. destruct (Hrows' id) as [->|[->| ->]]; [done| |].
      - destruct (auctionItem (store w1) !! id) as [a1|] eqn:Ha1; [|done]. simpl.
        unfold endRow. by destruct (Hdone id a1 Ha1) as [-> _].
      - destruct (auctionItem (store w1) !! id) as [a1|] eqn:Ha1; [|done]. simpl.
        destruct (Hdone id a1 Ha1) as [Hexp Hnone].
        unfold reapedRow, endRow. rewrite Hexp.
        destruct (isEndedWithoutWinner a1); [|done].
        unfold withWinner. by rewrite Hnone. }
    destruct w2 as [[m2 b2 u2] ? ? ? ?], w1 as [[m1 b1 u1] ? ? ? ?]. simpl in *.
    congruence.
Qed.

Lemma reaper_is_idempotent_witness :
  markExpiredAuctionsAsEnded (quietEnv "" "" 64000 64000) endedWorld = (inr 0%Z, endedWorld).
Proof.
  assert (endExpiredAuctions reaperEnv worldAfterBob110 = (inr 1%Z, endedWorld)) as Hrun
    by (vm_compute; reflexivity).
  apply (reaper_is_idempotent reaperEnv worldAfterBob110 1%Z endedWorld Hrun).
  simpl. lia.
Defined.

(** ** Every world the server reaches *)

Lemma risesBy_lt inc b1 b2 :
  (0 < inc)%Q -> risesBy inc b1 b2 ->
  Qltb (bid_bidAmountInDollars b1) (bid_bidAmountInDollars b2) = true.
Proof. intros Hinc Hrise. apply Qltb_lt. unfold risesBy in Hrise. lra. Qed.

(** Among bids of rising amounts the highest is the last. *)
Lemma firstByAmountDesc_rising inc rows :
  (0 < inc)%Q -> StronglySorted (risesBy inc) rows -> firstByAmountDesc rows = last rows.
Proof.
  intros Hinc. induction rows as [|b rest IH]; [done|].
  intros [Hall Hrest]%StronglySorted_cons. simpl firstByAmountDesc. rewrite IH by done.
  destruct rest as [|b' rest']; [done|]. rewrite last_cons_cons.
  destruct (last (b' :: rest')) as [bl|] eqn:Hlast; [|by apply last_None in Hlast].
  rewrite Forall_forall in Hall.
  rewrite (risesBy_lt inc); [done|done|]. apply Hall. by apply last_Some_elem_of.
Qed.

Lemma spec_winningBid_rising inc rows :
  (0 < inc)%Q -> StronglySorted (risesBy inc) rows -> spec_winningBid rows = last rows.
Proof.
  intros Hinc. induction rows as [|b rest IH]; [done|].
  intros [Hall Hrest]%StronglySorted_cons. simpl spec_winningBid. rewrite IH by done.
  destruct rest as [|b' rest']; [done|]. rewrite last_cons_cons.
  destruct (last (b' :: rest')) as [bl|] eqn:Hlast; [|by apply last_None in Hlast].
  rewrite Forall_forall in Hall. unfold spec_preferred.
  rewrite (risesBy_lt inc); [done|done|]. apply Hall. by apply last_Some_elem_of.
Qed.

Lemma rising_le_last inc rows b bl :
  (0 < inc)%Q -> StronglySorted (risesBy inc) rows -> b ∈ rows -> last rows = Some bl ->
  (bid_bidAmountInDollars b <= bid_bidAmountInDollars bl)%Q.
Proof.
  intros Hinc Hsorted Hin [rows' ->]%last_Some.
  apply elem_of_app in Hin as [Hin| ->%list_elem_of_singleton]; [|lra].
  assert (risesBy inc b bl) as Hrise.
  { eapply StronglySorted_app_1_elem_of; [done|done|by left]. }
  unfold risesBy in Hrise. lra.
Qed.

Lemma successfulBidsOn_ext s s' id :
  bid s' = bid s -> successfulBidsOn s' id = successfulBidsOn s id.
Proof. unfold successfulBidsOn. by intros ->. Qed.

Lemma successfulBidsOn_snoc s s' b id :
  bid s' = (bid s ++ [b])%list ->
  successfulBidsOn s' id =
  (successfulBidsOn s id ++
   if decide (bid_auctionItemId b = id /\ wasBidSuccessful b = true) then [b] else [])%list.
Proof.
  unfold successfulBidsOn. intros ->. by rewrite filter_app.
Qed.

Lemma Settled_tables s s' :
  auctionItem s' = auctionItem s -> bid s' = bid s -> Settled s -> Settled s'.
Proof.
  intros Hitems Hbids [Hrefs Hrows]. split.
  - rewrite Hitems, Hbids. done.
  - intros id a. rewrite Hitems, (successfulBidsOn_ext s s') by done. apply Hrows.
Qed.

Lemma Settled_failed_attempt s s' b :
  auctionItem s' = auctionItem s -> bid s' = (bid s ++ [b])%list ->
  wasBidSuccessful b = false -> Settled s -> Settled s'.
Proof.
  intros Hitems Hbids Hfailed [Hrefs Hrows]. split.
  - rewrite Hitems, Hbids.
    intros b' [Hb'| ->%list_elem_of_singleton]%elem_of_app Hok; [by apply Hrefs|congruence].
  - intros id a. rewrite Hitems, (successfulBidsOn_snoc s s' b) by done.
    rewrite decide_False by (intros [_ ?]; congruence). rewrite app_nil_r. apply Hrows.
Qed.

Lemma SettledRow_starting_le a bids :
  SettledRow a bids -> (startingPriceInDollars a <= currentHighestBidInDollars a)%Q.
Proof.
  intros (_ & _ & Hinc & _ & _ & -> & _ & Hfloor & _).
  destruct (last bids) as [bl|] eqn:Hlast; simpl; [|lra].
  apply last_Some_elem_of, Hfloor in Hlast as [? _]. lra.
Qed.

Lemma SettledRow_le_current a bids b :
  SettledRow a bids -> b ∈ bids ->
  (bid_bidAmountInDollars b <= currentHighestBidInDollars a)%Q.
Proof.
  intros (_ & _ & Hinc & _ & _ & -> & Hsorted & _) Hin.
  destruct (last bids) as [bl|] eqn:Hlast; simpl.
  - eapply (rising_le_last (minimumBidIncrementInDollars a)); [lra|done..].
  - apply last_None in Hlast as ->. by apply elem_of_nil in Hin.
Qed.

(** The commit of a bid that passed the amount check of step 4; [stored] is
    the amount as the columns store it. *)
Lemma Settled_commit env auctionItemId bidderUserId amount stored a s :
  Settled s ->
  auctionItem s !! auctionItemId = Some a ->
  currentStatus a = ACTIVE ->
  creatorUserId a <> bidderUserId ->
  (jsAdd (currentHighestBidInDollars a) (minimumBidIncrementInDollars a) <= amount)%Q ->
  DECIMAL_12_2 amount = Some stored ->
  Settled (committedStore env auctionItemId bidderUserId stored a s).
Proof.
  intros [Hrefs Hrows] Ha Hactive Hcreator Hamount Hstored.
  set (new := acceptedBidRow env auctionItemId bidderUserId stored).
  set (s' := committedStore env auctionItemId bidderUserId stored a s).
  assert (bid s' = (bid s ++ [new])%list) as Hbids by done.
  split.
  - intros b [Hb| ->%list_elem_of_singleton]%elem_of_app Hok; simpl.
    + destruct (Hrefs b Hb Hok) as [a0 Ha0]. rewrite lookup_insert.
      case_decide; by eexists.
    + rewrite lookup_insert_eq. by eexists.
  - intros id a'. rewrite (successfulBidsOn_snoc s s' new) by done. simpl.
    rewrite lookup_insert. destruct (decide (auctionItemId = id)) as [<-|Hne].
    + intros [= <-]. rewrite decide_True by done.
      pose proof (Hrows _ _ Ha) as Hrow.
      pose proof (SettledRow_starting_le _ _ Hrow) as Hstart.
      destruct Hrow as ((Hcsp & Hccur & Hcinc) & Hsp & Hinc & Htimes & Hst & Hcur & Hsorted
                        & Hfloor & Hwin).
      pose proof (stored_amount_reaches_sum _ _ _ _ Hccur Hcinc Hamount Hstored) as Hsum.
      unfold SettledRow. simpl. rewrite last_snoc. simpl.
      split; [by split; [|split; [eapply DECIMAL_12_2_column|]]|].
      do 5 (split; [done|]). split; [|split].
      * apply StronglySorted_app_2; [|done|repeat constructor].
        intros b1 b2 Hb1 ->%list_elem_of_singleton. unfold risesBy. simpl.
        pose proof (SettledRow_le_current a _ b1 (Hrows _ _ Ha) Hb1). lra.
      * intros b [Hb| ->%list_elem_of_singleton]%elem_of_app; [by apply Hfloor|].
        simpl. split; [lra|done].
      * intros u Hu. destruct (Hwin u Hu) as [Hended _]. congruence.
    + intros Ha'. rewrite decide_False by (intros [? _]; done).
      rewrite app_nil_r. by apply Hrows.
Qed.

Lemma SettledRow_endRow env a bids : SettledRow a bids -> SettledRow (endRow env a) bids.
Proof.
  intros Hrow. unfold endRow, isExpiredActive.
  case_bool_decide as Hactive; simpl; [|done].
  destruct (auctionEndTimeTimestamp a <=? currentTimestamp env)%Z; [|done].
  destruct Hrow as (Hcols & Hsp & Hinc & Htimes & Hst & Hcur & Hsorted & Hfloor & Hwin).
  unfold SettledRow. simpl. do 8 (split; [done|]).
  intros u Hu. destruct (Hwin u Hu) as [Hended _]. congruence.
Qed.

Lemma SettledRow_reapedRow env s id a :
  SettledRow a (successfulBidsOn s id) ->
  SettledRow (reapedRow env s id a) (successfulBidsOn s id).
Proof.
  intros Hrow%(SettledRow_endRow env). unfold reapedRow.
  destruct (isEndedWithoutWinner (endRow env a)) eqn:Hended; [|done].
  apply andb_true_iff in Hended as [Hst Hnone].
  apply bool_decide_eq_true in Hst. apply bool_decide_eq_true in Hnone.
  unfold withWinner, bid_findFirst_highest. pose proof Hrow as Hkeep.
  destruct Hrow as (Hcols & Hsp & Hinc & Htimes & Hst' & Hcur & Hsorted & Hfloor & Hwin).
  rewrite (firstByAmountDesc_rising (minimumBidIncrementInDollars (endRow env a)));
    [|lra|done].
  destruct (last (successfulBidsOn s id)) as [bl|] eqn:Hlast; [|done].
  clear Hkeep.
  unfold SettledRow. simpl. rewrite Hlast. simpl in *.
  do 8 (split; [done|]). by intros u [= <-].
Qed.

Lemma Settled_reaper env s s' :
  bid s' = bid s ->
  (forall id,
     auctionItem s' !! id = auctionItem s !! id \/
     auctionItem s' !! id = endRow env <$> auctionItem s !! id \/
     auctionItem s' !! id = reapedRow env s id <$> auctionItem s !! id) ->
  Settled s -> Settled s'.
Proof.
  intros Hbids Hcases [Hrefs Hrows]. split.
  - rewrite Hbids. intros b Hb Hok. destruct (Hrefs b Hb Hok) as [a Ha].
    destruct (Hcases (bid_auctionItemId b)) as [->|[->| ->]]; rewrite Ha; by eexists.
  - intros id a'. rewrite (successfulBidsOn_ext s s') by done.
    destruct (Hcases id) as [->|[->| ->]]; [by apply Hrows| |].
    + destruct (auctionItem s !! id) as [a|] eqn:Ha; [|done]. simpl. intros [= <-].
      by apply SettledRow_endRow, Hrows.
    + destruct (auctionItem s !! id) as [a|] eqn:Ha; [|done]. simpl. intros [= <-].
      by apply SettledRow_reapedRow, Hrows.
Qed.

Lemma Settled_create s newId row :
  Settled s ->
  auctionItem s !! newId = None ->
  isColumnValue (startingPriceInDollars row) ->
  isColumnValue (minimumBidIncrementInDollars row) ->
  (0.01 <= startingPriceInDollars row)%Q ->
  (0.01 <= minimumBidIncrementInDollars row)%Q ->
  (auctionStartTimeTimestamp row < auctionEndTimeTimestamp row)%Z ->
  currentStatus row = ACTIVE ->
  currentHighestBidInDollars row = startingPriceInDollars row ->
  winnerUserId row = None ->
  Settled (mkStore (<[newId := row]> (auctionItem s)) (bid s) (user s)).
Proof.
  intros [Hrefs Hrows] Hfresh Hcsp Hcinc Hsp Hinc Htimes Hactive Hcur Hnone.
  assert (successfulBidsOn s newId = []) as Hnobids.
  { unfold successfulBidsOn. apply elem_of_nil_inv.
    intros b [[Hid Hok] Hb]%list_elem_of_filter.
    destruct (Hrefs b Hb Hok) as [a Ha]. congruence. }
  split.
  - simpl. intros b Hb Hok. destruct (Hrefs b Hb Hok) as [a Ha].
    rewrite lookup_insert. case_decide; by eexists.
  - intros id a. simpl. rewrite lookup_insert.
    rewrite (successfulBidsOn_ext s (mkStore _ (bid s) (user s))) by done.
    destruct (decide (newId = id)) as [<-|]; [|by apply Hrows].
    intros [= <-]. rewrite Hnobids. unfold SettledRow. simpl.
    split; [by rewrite Hcur|].
    do 3 (split; [done|]). split; [congruence|]. split; [done|].
    split; [constructor|]. split; [by intros b ?%elem_of_nil|congruence].
Qed.

Lemma trim_empty : trim "" = "".
Proof. reflexivity. Qed.

Lemma getRandomSampleImage_sample cenv : getRandomSampleImage cenv ∈ SAMPLE_AUCTION_IMAGES.
Proof.
  unfold getRandomSampleImage.
  destruct (lookup_lt_is_Some_2 SAMPLE_AUCTION_IMAGES
              (create_randomIndex cenv `mod` length SAMPLE_AUCTION_IMAGES)%nat) as [url Hurl].
  { apply Nat.mod_upper_bound. simpl. lia. }
  rewrite Hurl. simpl. by eapply list_elem_of_lookup_2.
Qed.

(** A column keeps an amount of a cent or more at a cent or more. *)
Lemma DECIMAL_12_2_cent q c : DECIMAL_12_2 q = Some c -> (0.01 <= q)%Q -> (0.01 <= c)%Q.
Proof.
  intros Hc Hq. apply (DECIMAL_12_2_le_column q c 0.01 Hc); [|lra].
  unfold isColumnValue. vm_compute. reflexivity.
Qed.

Lemma createAuctionItem_cases cenv input w :
  ((forall startingPrice minimumBidIncrement,
      ~ creatable cenv input (store w) startingPrice minimumBidIncrement) /\
   exists message, createAuctionItem cenv input w = (inr (creationRefused message), w)) \/
  (exists startingPrice minimumBidIncrement data,
     creatable cenv input (store w) startingPrice minimumBidIncrement /\
     createAuctionItem cenv input w =
     (inr (mkCreateAuctionItemResult true (Some data) None),
      with_store w
        (mkStore (<[create_generatedId cenv :=
                      createdRow cenv input startingPrice minimumBidIncrement]>
                    (auctionItem (store w)))
           (bid (store w)) (user (store w)))) /\
     data_id data = create_generatedId cenv /\
     data_itemTitle data = trim (in_itemTitle input) /\
     data_itemDescription data = trim (in_itemDescription input) /\
     data_startingPriceInDollars data = startingPrice /\
     data_currentHighestBidInDollars data = startingPrice /\
     data_minimumBidIncrementInDollars data = minimumBidIncrement /\
     data_auctionStartTimeTimestamp data = create_now cenv /\
     data_auctionEndTimeTimestamp data =
       (create_now cenv + in_auctionDurationInMinutes input * 60 * 1000)%Z /\
     data_currentStatus data = ACTIVE /\
     summary_userId (data_creatorUser data) = in_creatorUserId input /\
     Some (summary_username (data_creatorUser data)) =
       username <$> user (store w) !! in_creatorUserId input /\
     data_winnerUser data = None /\ data_totalBidCount data = 0%nat /\
     data_highestBidder data = None /\
     exists imageUrl,
       data_itemImageUrl data = Some imageUrl /\
       (imageUrl ∈ SAMPLE_AUCTION_IMAGES \/
        exists url, in_itemImageUrl input = Some url /\ imageUrl = trim url /\ imageUrl <> "")).
Proof.
  unfold createAuctionItem, try_catch, creatable.
  destruct (String.eqb_spec (in_itemTitle input) "") as [Htitle|_]; simpl.
  { left. split; [|by eexists]. intros sp inc. rewrite Htitle, trim_empty. simpl. lia. }
  destruct (Nat.ltb_spec (String.length (trim (in_itemTitle input))) 3).
  { left. split; [intros sp inc; lia|by eexists]. }
  destruct (String.eqb_spec (in_itemDescription input) "") as [Hdesc|_]; simpl.
  { left. split; [|by eexists]. intros sp inc. rewrite Hdesc, trim_empty. simpl. lia. }
  destruct (Nat.ltb_spec (String.length (trim (in_itemDescription input))) 10).
  { left. split; [intros sp inc; lia|by eexists]. }
  destruct (Qltb (in_startingPriceInDollars input) 0.01) eqn:Hsp.
  { left. apply Qltb_lt in Hsp. split; [|by eexists]. intros sp inc (_ & _ & ? & _). lra. }
  destruct (Qltb (in_minimumBidIncrementInDollars input) 0.01) eqn:Hinc.
  { left. apply Qltb_lt in Hinc. split; [|by eexists].
    intros sp inc (_ & _ & _ & ? & _). lra. }
  destruct (Z.ltb_spec (in_auctionDurationInMinutes input) 1).
  { left. split; [intros sp inc; lia|by eexists]. }
  apply Qltb_ge in Hsp, Hinc.
  unfold bind, auctionItem_create, storedAuctionItem, Decimal, ret. simpl.
  destruct (create_insertFails cenv).
  { left. split; [|by eexists]. by intros sp inc (_ & _ & _ & _ & _ & ? & _). }
  destruct (DECIMAL_12_2 (in_startingPriceInDollars input)) as [sp|] eqn:Hcsp; simpl.
  2: { left. split; [|by eexists]. by intros sp inc (_ & _ & _ & _ & _ & _ & ? & _). }
  destruct (DECIMAL_12_2 (in_minimumBidIncrementInDollars input)) as [inc|] eqn:Hcinc; simpl.
  2: { left. split; [|by eexists]. by intros sp' inc (_ & _ & _ & _ & _ & _ & _ & ? & _). }
  destruct (auctionItem (store w) !! create_generatedId cenv) eqn:Hid.
  { left. split; [|by eexists]. by intros sp' inc' (_ & _ & _ & _ & _ & _ & _ & _ & ? & _). }
  destruct (user (store w) !! in_creatorUserId input) as [u|] eqn:Hu.
  2: { left. split; [|by eexists].
       by intros sp' inc' (_ & _ & _ & _ & _ & _ & _ & _ & _ & [? ?]). }
  right. exists sp, inc. eexists. split; [by do 9 (split; [done|])|].
  split; [reflexivity|]. simpl. do 14 (split; [done|]).
  eexists. split; [reflexivity|].
  destruct (in_itemImageUrl input) as [url|]; [|left; apply getRandomSampleImage_sample].
  destruct (String.eqb url ""); simpl; [left; apply getRandomSampleImage_sample|].
  destruct (String.eqb_spec (trim url) ""); simpl;
    [left; apply getRandomSampleImage_sample|].
  right. by exists url.
Qed.

Lemma checkExpiredAuctions_world env w :
  checkExpiredAuctions env w = (inr tt, snd (markExpiredAuctionsAsEnded env w)).
Proof.
  unfold checkExpiredAuctions, try_catch, bind.
  destruct (markExpiredAuctionsAsEnded_rows env w) as (n & w' & -> & _). done.
Qed.

Lemma handleLeaveRoom_store socket payload w :
  store (snd (handleLeaveRoom socket payload w)) = store w.
Proof.
  unfold handleLeaveRoom. destruct payload as [pid|]; [|done]. by destruct (truthy pid).
Qed.

Lemma Settled_processBid env auctionItemId bidderUserId amount w :
  Settled (store w) ->
  Settled (store (snd (processBidWithDistributedLock env auctionItemId bidderUserId amount w))).
Proof.
  intros Hs.
  destruct (processBidWithDistributedLock_cases env auctionItemId bidderUserId amount w)
    as (r & w' & -> & Hcases & _). simpl.
  destruct Hcases as [(a & stored & _ & Hacc & _ & ->)|(_ & -> & _)]; [|done].
  destruct Hacc as (_ & Ha & Hrej & _ & Hstored & _).
  apply rejection_None in Hrej as (Hactive & _ & Hcreator & Hamount).
  by apply (Settled_commit _ _ _ amount).
Qed.

Lemma Settled_markExpired env w :
  Settled (store w) -> Settled (store (snd (markExpiredAuctionsAsEnded env w))).
Proof.
  intros Hs.
  destruct (markExpiredAuctionsAsEnded_rows env w)
    as (n & w' & -> & _ & Hbids & _ & _ & _ & _ & _ & Hrows). simpl.
  by apply (Settled_reaper env (store w)).
Qed.

(** The invariant of the tables. *)
Lemma served_Settled w : served w -> Settled (store w).
Proof.
  induction 1 as [w Hitems Hbids|w cenv input _ IH|w env socket payload _ IH
                 |w env aid bidder amount _ IH|w env aid bidder amount ms _ IH
                 |w env socket payload _ IH|w socket payload _ IH|w env _ IH|w env _ IH].
  - split.
    + rewrite Hbids. by intros b ?%elem_of_nil.
    + rewrite Hitems. intros id a. by rewrite lookup_empty.
  - destruct (createAuctionItem_cases cenv input w)
      as [[_ [message ->]]|(sp & inc & data & Hok & -> & _)]; [done|]. simpl.
    destruct Hok as (_ & _ & Hsp & Hinc & Hminutes & _ & Hcsp & Hcinc & Hfresh & _).
    apply Settled_create; simpl; try done.
    + by eapply DECIMAL_12_2_column.
    + by eapply DECIMAL_12_2_column.
    + by eapply DECIMAL_12_2_cent.
    + by eapply DECIMAL_12_2_cent.
    + lia.
  - destruct (handlePlaceBid_cases env socket payload w)
      as [(_ & e & ->)
         |[(p & w1 & -> & Hst)
          |(ud & aid & amount & count & r & w1 & Hrun & _ & ->)]]; simpl.
    + done.
    + by rewrite Hst.
    + pose proof (Settled_processBid env aid (userId ud) amount w IH) as Hnext.
      by rewrite Hrun in Hnext.
  - by apply Settled_processBid.
  - destruct (recordFailedBidAttempt_cases env aid bidder amount ms w)
      as (w' & -> & Hitems & [Hbids|(b & Hbids & Hfailed)]); simpl.
    + by apply (Settled_tables (store w)).
    + by apply (Settled_failed_attempt (store w) _ b).
  - by rewrite handleJoinRoom_store.
  - by rewrite handleLeaveRoom_store.
  - rewrite checkExpiredAuctions_world. simpl. by apply Settled_markExpired.
  - by apply Settled_markExpired.
Qed.

Lemma StronglySorted_lookup_lt {A} (R : relation A) (l : list A) :
  StronglySorted R l ->
  forall i j x y, l !! i = Some x -> l !! j = Some y -> (i < j)%nat -> R x y.
Proof.
  induction 1 as [|a l Hsorted IH Hall]; intros i j x y Hi Hj Hlt; [done|].
  destruct j as [|j]; [lia|]. simpl in Hj. destruct i as [|i].
  - injection Hi as <-. rewrite Forall_forall in Hall.
    apply Hall. by eapply list_elem_of_lookup_2.
  - apply (IH i j); [done|done|lia].
Qed.

Lemma served_exampleWorld : served exampleWorld.
Proof.
  assert (snd (createAuctionItem exampleCreateEnv exampleInput emptyWorld) = exampleWorld)
    as <- by (vm_compute; reflexivity).
  apply served_createAuctionItem, served_start; reflexivity.
Qed.

Lemma served_worldAfterCarol120 : served worldAfterCarol120.
Proof. do 2 apply served_processBidWithDistributedLock. apply served_exampleWorld. Qed.

Lemma served_endedWorld : served endedWorld.
Proof.
  apply served_markExpiredAuctionsAsEnded, served_processBidWithDistributedLock,
    served_exampleWorld.
Qed.

(** X14. The price of an auction. In every world the server reaches from
    empty tables, the current highest bid of an auction is the amount of its
    latest successful bid, or its starting price while it has none; it is
    never below the starting price, every successful bid on it is at least
    the starting price plus the minimum increment and at most the current
    highest bid, the increment is at least $0.01, the end lies after the
    start, and no auction is CANCELLED. *)
Theorem current_highest_bid_is_the_latest_successful_bid :
  forall w id a,
    served w ->
    auctionItem (store w) !! id = Some a ->
    let bids := successfulBidsOn (store w) id in
    currentHighestBidInDollars a =
      from_option bid_bidAmountInDollars (startingPriceInDollars a) (last bids) /\
    (startingPriceInDollars a <= currentHighestBidInDollars a)%Q /\
    (forall b, b ∈ bids ->
       (startingPriceInDollars a + minimumBidIncrementInDollars a
        <= bid_bidAmountInDollars b)%Q /\
       (bid_bidAmountInDollars b <= currentHighestBidInDollars a)%Q) /\
    (0.01 <= minimumBidIncrementInDollars a)%Q /\
    (auctionStartTimeTimestamp a < auctionEndTimeTimestamp a)%Z /\
    currentStatus a <> CANCELLED.
Proof.
  intros w id a Hserved Ha bids.
  destruct (served_Settled w Hserved) as [_ Hrows].
  pose proof (Hrows id a Ha) as Hrow. fold bids in Hrow.
  pose proof (SettledRow_starting_le a bids Hrow) as Hstart.
  pose proof (fun b => SettledRow_le_current a bids b Hrow) as Htop.
  destruct Hrow as (_ & Hsp & Hinc & Htimes & Hst & Hcur & Hsorted & Hfloor & Hwin).
  split; [done|]. split; [done|]. split; [|done].
  intros b Hb. split; [by apply Hfloor|by apply Htop].
Qed.

Lemma current_highest_bid_is_the_latest_successful_bid_witness :
  currentHighestBidInDollars <$> auctionItem (store worldAfterCarol120) !! "a1" = Some 120%Q /\
  bid_bidAmountInDollars <$> last (successfulBidsOn (store worldAfterCarol120) "a1")
  = Some 120%Q.
Proof.
  assert (exists a, auctionItem (store worldAfterCarol120) !! "a1" = Some a /\
                    currentHighestBidInDollars a = 120%Q) as (a & Ha & Hcur).
  { eexists. split; vm_compute; reflexivity. }
  destruct (current_highest_bid_is_the_latest_successful_bid worldAfterCarol120 "a1" a
              served_worldAfterCarol120 Ha) as (Hlast & _).
  split; [by rewrite Ha, <- Hcur|].
  rewrite Hcur in Hlast.
  destruct (last (successfulBidsOn (store worldAfterCarol120) "a1")) as [b|] eqn:Hb;
    simpl in *; [by rewrite Hlast|].
  vm_compute in Hb. discriminate.
Defined.

(** X15. Successful bids never tie. In every world the server reaches from
    empty tables, the successful bids of an auction carry rising amounts in
    storage order, each at least the minimum increment above every earlier
    one. So no two of them have the same amount, the bid that [findFirst]
    ordered by amount answers is the latest one, and it is the bid that the
    order of the specification (amount, then time, then bid id) prefers. *)
Theorem successful_bids_never_tie :
  forall w id a,
    served w ->
    auctionItem (store w) !! id = Some a ->
    let bids := successfulBidsOn (store w) id in
    (forall i j b1 b2,
       bids !! i = Some b1 -> bids !! j = Some b2 -> (i < j)%nat ->
       (bid_bidAmountInDollars b1 + minimumBidIncrementInDollars a
        <= bid_bidAmountInDollars b2)%Q) /\
    (forall i j b1 b2,
       bids !! i = Some b1 -> bids !! j = Some b2 -> i <> j ->
       ~ (bid_bidAmountInDollars b1 == bid_bidAmountInDollars b2)%Q) /\
    bid_findFirst_highest (store w) id = last bids /\
    spec_winningBid bids = bid_findFirst_highest (store w) id.
Proof.
  intros w id a Hserved Ha bids.
  destruct (served_Settled w Hserved) as [_ Hrows].
  destruct (Hrows id a Ha) as (_ & _ & Hinc & _ & _ & _ & Hsorted & _). fold bids in Hsorted.
  assert (0 < minimumBidIncrementInDollars a)%Q as Hpos by lra.
  pose proof (StronglySorted_lookup_lt _ _ Hsorted) as Hrise. unfold risesBy in Hrise.
  split; [exact Hrise|]. split.
  - intros i j b1 b2 Hi Hj Hne Heq.
    destruct (Nat.lt_total i j) as [Hlt|[->|Hlt]]; [|done|].
    + pose proof (Hrise i j b1 b2 Hi Hj Hlt). lra.
    + pose proof (Hrise j i b2 b1 Hj Hi Hlt). lra.
  - unfold bid_findFirst_highest. fold bids.
    rewrite (firstByAmountDesc_rising _ _ Hpos Hsorted).
    by rewrite (spec_winningBid_rising _ _ Hpos Hsorted).
Qed.

Lemma successful_bids_never_tie_witness :
  bidderUserId <$> spec_winningBid (successfulBidsOn (store worldAfterCarol120) "a1")
  = Some "carol".
Proof.
  assert (exists a, auctionItem (store worldAfterCarol120) !! "a1" = Some a) as [a Ha].
  { eexists. vm_compute. reflexivity. }
  destruct (successful_bids_never_tie worldAfterCarol120 "a1" a
              served_worldAfterCarol120 Ha) as (_ & _ & _ & ->).
  vm_compute. reflexivity.
Defined.

(** X16. The winner is the highest bidder. In every world the server reaches
    from empty tables, an auction that has a winner is ENDED, its winner is
    not its creator, and the winner is the bidder of the highest successful
    bid on it, whose amount is the current highest bid of the auction. *)
Theorem winner_is_the_highest_bidder :
  forall w id a u,
    served w ->
    auctionItem (store w) !! id = Some a ->
    winnerUserId a = Some u ->
    currentStatus a = ENDED /\
    u <> creatorUserId a /\
    exists b,
      bid_findFirst_highest (store w) id = Some b /\
      bidderUserId b = u /\
      bid_bidAmountInDollars b = currentHighestBidInDollars a /\
      forall b', b' ∈ successfulBidsOn (store w) id ->
        (bid_bidAmountInDollars b' <= bid_bidAmountInDollars b)%Q.
Proof.
  intros w id a u Hserved Ha Hu.
  destruct (served_Settled w Hserved) as [_ Hrows].
  pose proof (Hrows id a Ha) as Hrow.
  pose proof (fun b => SettledRow_le_current a _ b Hrow) as Htop.
  destruct Hrow as (_ & Hsp & Hinc & Htimes & Hst & Hcur & Hsorted & Hfloor & Hwin).
  destruct (Hwin u Hu) as [Hended Hlast].
  destruct (last (successfulBidsOn (store w) id)) as [b|] eqn:Hb; [|done].
  simpl in Hlast, Hcur. injection Hlast as <-.
  split; [done|]. split.
  { apply Hfloor. by apply last_Some_elem_of. }
  exists b. unfold bid_findFirst_highest.
  rewrite (firstByAmountDesc_rising (minimumBidIncrementInDollars a)); [|lra|done].
  split; [done|]. split; [done|]. split; [done|].
  intros b' Hb'. rewrite <- Hcur. by apply Htop.
Qed.

Lemma winner_is_the_highest_bidder_witness :
  exists b, bid_findFirst_highest (store endedWorld) "a1" = Some b /\ bidderUserId b = "bob".
Proof.
  assert (exists a, auctionItem (store endedWorld) !! "a1" = Some a /\
                    winnerUserId a = Some "bob") as (a & Ha & Hu).
  { eexists. split; vm_compute; reflexivity. }
  destruct (winner_is_the_highest_bidder endedWorld "a1" a "bob" served_endedWorld Ha Hu)
    as (_ & _ & b & Hb & Hbidder & _).
  exists b. split; [exact Hb|exact Hbidder].
Defined.

(** ** Creating an auction *)


Lemma processBid_refused env auctionItemId bidderUserId amount w a r :
  lockKeyFree env auctionItemId w = true ->
  findUniqueFails env = false ->
  auctionItem (store w) !! auctionItemId = Some a ->
  rejection env bidderUserId amount a = Some r ->
  fst (processBidWithDistributedLock env auctionItemId bidderUserId amount w) =
  inr (setProcessingTime r (processingEndTime env - processingStartTime env)).
Proof.
  intros Hfree Hfind Ha Hrej. unfold processBidWithDistributedLock, bind.
  rewrite executeWithDistributedLock_unfold, Hfree.
  rewrite processBidTransaction_unfold, Hfind.
  change (store (lockedWorld env auctionItemId LOCK_TTL_FOR_BID_PROCESSING_IN_MILLISECONDS w))
    with (store w).
  by rewrite Ha, Hrej.
Qed.

Lemma processBid_accepted env auctionItemId bidderUserId amount w a :
  lockKeyFree env auctionItemId w = true ->
  findUniqueFails env = false ->
  auctionItem (store w) !! auctionItemId = Some a ->
  rejection env bidderUserId amount a = None ->
  transactionFails env = false ->
  is_Some (DECIMAL_12_2 amount) ->
  bidIdTaken env (store w) = false ->
  is_Some (user (store w) !! bidderUserId) ->
  fst (processBidWithDistributedLock env auctionItemId bidderUserId amount w) =
  inr (setProcessingTime (acceptedResult env amount (currentHighestBidInDollars a))
         (processingEndTime env - processingStartTime env)).
Proof.
  intros Hfree Hfind Ha Hrej Htx [stored Hstored] Hid [u Hu].
  unfold processBidWithDistributedLock, bind.
  rewrite executeWithDistributedLock_unfold, Hfree.
  rewrite processBidTransaction_unfold, Hfind.
  change (store (lockedWorld env auctionItemId LOCK_TTL_FOR_BID_PROCESSING_IN_MILLISECONDS w))
    with (store w).
  rewrite Ha, Hrej, executeBidWrites_unfold, Htx.
  change (store (lockedWorld env auctionItemId LOCK_TTL_FOR_BID_PROCESSING_IN_MILLISECONDS w))
    with (store w).
  by rewrite Ha, Hstored, Hid, Hu.
Qed.

(** X18. The first bid on a new auction. On an auction that has just been
    created, while it runs, nothing fails, the bidder is a user and the
    amount fits its column, a bid is accepted if and only if it comes from
    someone other than the creator and is at least the binary64 sum of the
    stored starting price and the stored minimum increment. That sum is
    within a thousandth of the exact sum and above the starting price: a bid
    of the starting price itself, or of any amount below the sum, is answered
    [BID_ERROR_BID_TOO_LOW], and any bid of the creator
    [BID_ERROR_OWN_AUCTION]. *)
Theorem first_bid_must_exceed_the_starting_price_by_the_increment :
  forall cenv input w env bidderUserId amount startingPrice minimumBidIncrement,
    creatable cenv input (store w) startingPrice minimumBidIncrement ->
    let w' := snd (createAuctionItem cenv input w) in
    let id := create_generatedId cenv in
    let minimumRequiredBid := jsAdd startingPrice minimumBidIncrement in
    lockKeyFree env id w' = true ->
    findUniqueFails env = false -> transactionFails env = false ->
    bidIdTaken env (store w) = false ->
    is_Some (user (store w) !! bidderUserId) ->
    is_Some (DECIMAL_12_2 amount) ->
    (create_now cenv <= currentTimestamp env
     < create_now cenv + in_auctionDurationInMinutes input * 60000)%Z ->
    (startingPrice < minimumRequiredBid)%Q /\
    (Qabs (minimumRequiredBid - (startingPrice + minimumBidIncrement)) <= 1 # 1000)%Q /\
    exists r,
      fst (processBidWithDistributedLock env id bidderUserId amount w') = inr r /\
      (res_wasBidSuccessful r = true <->
       bidderUserId <> in_creatorUserId input /\ (minimumRequiredBid <= amount)%Q) /\
      (bidderUserId = in_creatorUserId input ->
       errorCode r = Some BID_ERROR_OWN_AUCTION) /\
      (bidderUserId <> in_creatorUserId input ->
       (amount < minimumRequiredBid)%Q ->
       errorCode r = Some BID_ERROR_BID_TOO_LOW).
Proof.
  intros cenv input w env bidder amount sp inc Hok w' id required
    Hfree Hfind Htx Hid Huser Hfits Hclock.
  subst w' id required.
  assert (isColumnValue sp /\ isColumnValue inc /\ (0.01 <= inc)%Q) as (Hcsp & Hcinc & Hcent).
  { destruct Hok as (_ & _ & _ & Hinc & _ & _ & Hsp' & Hinc' & _).
    split; [by eapply DECIMAL_12_2_column|].
    split; [by eapply DECIMAL_12_2_column|by eapply DECIMAL_12_2_cent]. }
  split; [by apply jsAdd_above|].
  split; [apply jsAdd_error; by apply isColumnValue_bound|].
  destruct (createAuctionItem_cases cenv input w)
    as [[Hno _]|(sp' & inc' & data & Hok' & Hrun & _)]; [by destruct (Hno sp inc)|].
  assert (sp' = sp /\ inc' = inc) as [-> ->].
  { destruct Hok as (_ & _ & _ & _ & _ & _ & Hsp & Hinc & _).
    destruct Hok' as (_ & _ & _ & _ & _ & _ & Hsp' & Hinc' & _). split; congruence. }
  rewrite Hrun in *. simpl in Hfree |- *.
  set (w' := with_store w _) in *.
  assert (auctionItem (store w') !! create_generatedId cenv
          = Some (createdRow cenv input sp inc)) as Ha by apply lookup_insert_eq.
  assert (bidIdTaken env (store w') = false) as Hid' by exact Hid.
  assert (is_Some (user (store w') !! bidder)) as Huser' by exact Huser.
  destruct (rejection env bidder amount (createdRow cenv input sp inc)) as [r0|] eqn:Hrej.
  - rewrite (processBid_refused env _ bidder amount w' _ r0 Hfree Hfind Ha Hrej).
    eexists. split; [reflexivity|]. simpl.
    pose proof (rejection_unsuccessful _ _ _ _ _ Hrej) as [Hfailed _].
    assert (rejection env bidder amount (createdRow cenv input sp inc) <> None) as Hnot
      by congruence.
    rewrite rejection_None in Hnot. simpl in Hnot.
    split; [|split].
    + split; [congruence|]. intros [Hne Hamount]. destruct Hnot.
      split; [done|]. split; [lia|]. split; [congruence|done].
    + intros ->. revert Hrej. unfold rejection. simpl.
      destruct (_ <? _)%Z eqn:H1; [lia|]. destruct (_ <=? _)%Z eqn:H2; [lia|].
      rewrite String.eqb_refl. by intros [= <-].
    + intros Hne Hlow. revert Hrej. unfold rejection. simpl.
      destruct (_ <? _)%Z eqn:H1; [lia|]. destruct (_ <=? _)%Z eqn:H2; [lia|].
      destruct (String.eqb_spec (in_creatorUserId input) bidder); [congruence|].
      apply Qltb_lt in Hlow. rewrite Hlow. by intros [= <-].
  - rewrite (processBid_accepted env _ bidder amount w' _ Hfree Hfind Ha Hrej Htx Hfits
               Hid' Huser').
    eexists. split; [reflexivity|]. simpl.
    apply rejection_None in Hrej as (_ & _ & Hne & Hamount). simpl in Hne, Hamount.
    split; [|split].
    + split; [|done]. intros _. split; [congruence|done].
    + intros ->. done.
    + intros _ Hlow. lra.
Qed.

Lemma first_bid_must_exceed_the_starting_price_by_the_increment_witness :
  exists r,
    fst (processBidWithDistributedLock exampleEnv "a1" "bob" 100
           (snd (createAuctionItem exampleCreateEnv exampleInput emptyWorld))) = inr r /\
    errorCode r = Some BID_ERROR_BID_TOO_LOW.
Proof.
  assert (creatable exampleCreateEnv exampleInput (store emptyWorld) 100 10) as Hok.
  { unfold creatable. simpl. split; [vm_compute; lia|]. split; [vm_compute; lia|].
    split; [lra|]. split; [lra|]. split; [lia|]. split; [reflexivity|].
    split; [vm_compute; reflexivity|]. split; [vm_compute; reflexivity|].
    split; [reflexivity|]. eexists. vm_compute. reflexivity. }
  assert (lockKeyFree exampleEnv "a1"
            (snd (createAuctionItem exampleCreateEnv exampleInput emptyWorld)) = true)
    as Hfree by (vm_compute; reflexivity).
  assert (is_Some (user (store emptyWorld) !! "bob")) as Huser
    by (eexists; vm_compute; reflexivity).
  assert (is_Some (DECIMAL_12_2 100)) as Hfits by (eexists; vm_compute; reflexivity).
  assert (0 <= 500 < 0 + 1 * 60000)%Z as Hclock by lia.
  destruct (first_bid_must_exceed_the_starting_price_by_the_increment
              exampleCreateEnv exampleInput emptyWorld exampleEnv "bob" 100 100 10 Hok
              Hfree eq_refl eq_refl eq_refl Huser Hfits Hclock)
    as (Habove & _ & r & Hrun & _ & _ & Hlow).
  exists r. split; [exact Hrun|]. apply Hlow; [discriminate|exact Habove].
Defined.

(** ** The bid history *)

Lemma insertByPlacedAtDesc_perm b sorted : insertByPlacedAtDesc b sorted ≡ₚ b :: sorted.
Proof.
  induction sorted as [|b' rest IH]; simpl; [done|].
  destruct (_ <=? _)%Z; [done|]. rewrite IH. apply Permutation_swap.
Qed.

Lemma orderByPlacedAtDesc_perm rows : orderByPlacedAtDesc rows ≡ₚ rows.
Proof.
  induction rows as [|b rest IH]; simpl; [done|].
  by rewrite insertByPlacedAtDesc_perm, IH.
Qed.

Lemma insertByPlacedAtDesc_sorted b sorted :
  StronglySorted notPlacedAfter sorted ->
  StronglySorted notPlacedAfter (insertByPlacedAtDesc b sorted).
Proof.
  induction 1 as [|b' rest Hsorted IH Hall]; simpl; [by repeat constructor|].
  destruct (Z.leb_spec (placedAtTimestamp b') (placedAtTimestamp b)) as [Hle|Hgt].
  - constructor; [by constructor|]. constructor; [done|].
    eapply Forall_impl; [exact Hall|]. unfold notPlacedAfter. intros; simpl in *; lia.
  - constructor; [done|]. rewrite insertByPlacedAtDesc_perm.
    constructor; [unfold notPlacedAfter; lia|done].
Qed.

Lemma orderByPlacedAtDesc_sorted rows :
  StronglySorted notPlacedAfter (orderByPlacedAtDesc rows).
Proof.
  induction rows as [|b rest IH]; simpl; [constructor|].
  by apply insertByPlacedAtDesc_sorted.
Qed.

Lemma takeRows_cases {A} (n : Z) (rows : list A) :
  ((0 <= n)%Z /\ takeRows n rows = take (Z.to_nat n) rows) \/
  ((n < 0)%Z /\ takeRows n rows = drop (length rows - Z.to_nat (- n)) rows).
Proof. unfold takeRows. destruct (Z.leb_spec 0 n); [by left|by right]. Qed.

Lemma takeRows_subseteq {A} (n : Z) (rows : list A) : takeRows n rows ⊆ rows.
Proof.
  destruct (takeRows_cases n rows) as [[_ ->]|[_ ->]];
    [apply subseteq_take|apply subseteq_drop].
Qed.

Lemma takeRows_length {A} (n : Z) (rows : list A) :
  length (takeRows n rows) = (Z.abs_nat n `min` length rows)%nat.
Proof.
  destruct (takeRows_cases n rows) as [[? ->]|[? ->]];
    [rewrite length_take|rewrite length_drop]; lia.
Qed.

Lemma takeRows_sorted {A} (R : relation A) (n : Z) (rows : list A) :
  StronglySorted R rows -> StronglySorted R (takeRows n rows).
Proof.
  intros Hsorted. destruct (takeRows_cases n rows) as [[_ ->]|[_ ->]].
  - rewrite <- (take_drop (Z.to_nat n) rows) in Hsorted.
    by apply StronglySorted_app_1_l in Hsorted.
  - rewrite <- (take_drop (length rows - Z.to_nat (- n)) rows) in Hsorted.
    by apply StronglySorted_app_1_r in Hsorted.
Qed.

Lemma fetchBidHistoryForAuction_rows findManyFails auctionItemId limit w :
  let sorted := orderByPlacedAtDesc (successfulBidsOn (store w) auctionItemId) in
  exists items rows,
    fetchBidHistoryForAuction findManyFails auctionItemId limit w = (inr items, w) /\
    Forall2 (historyItemOf (store w)) rows items /\
    (rows = [] \/ exists n, limit = Some n /\ rows = takeRows n sorted) /\
    (limit = None -> rows = []) /\
    (findManyFails = false ->
     (forall b, b ∈ bid (store w) -> is_Some (user (store w) !! bidderUserId b)) ->
     forall n, limit = Some n -> rows = takeRows n sorted).
Proof.
  intros sorted.
  unfold fetchBidHistoryForAuction, try_catch, bind, get_world, throw, ret.
  fold sorted.
  destruct findManyFails.
  { exists [], []. split; [done|]. split; [constructor|]. split; [by left|done]. }
  destruct limit as [n|].
  2: { exists [], []. split; [done|]. split; [constructor|]. split; [by left|done]. }
  destruct (mapM _ (takeRows n sorted)) as [items|] eqn:Hitems.
  - exists items, (takeRows n sorted). split; [done|].
    apply mapM_Some in Hitems.
    split; [|split; [right; by exists n|split; [done|by intros _ _ ? [= <-]]]].
    clear -Hitems. induction Hitems as [|b h rows items Hitem _ IH]; constructor; [|done].
    unfold historyItemOf.
    destruct (user (store w) !! bidderUserId b) as [u|]; [|done]. simpl in Hitem.
    by injection Hitem as <-.
  - exists [], []. split; [done|]. split; [constructor|]. split; [by left|].
    split; [done|]. intros _ Hfk n' [= <-].
    assert (is_Some (mapM
              (fun b : Bid =>
                 u ← user (store w) !! bidderUserId b;
                 Some (mkBidHistoryItem (bid_id b) (toNumber (bid_bidAmountInDollars b))
                         (placedAtTimestamp b) (bidderUserId b, username u)))
              (takeRows n sorted))) as [? Hsome]; [|congruence].
    apply mapM_is_Some, Forall_forall. intros b Hb%takeRows_subseteq.
    unfold sorted in Hb. rewrite orderByPlacedAtDesc_perm in Hb.
    apply list_elem_of_filter in Hb as [_ Hb].
    destruct (Hfk b Hb) as [u Hu]. simpl. rewrite Hu. by eexists.
Qed.

(** X19. The bid history of an auction. [fetchBidHistoryForAuction] never
    throws and changes nothing. Each item it answers is the bid id, amount,
    time and bidder of a successful bid row of that auction, newest first; a
    failed attempt or a bid on another auction is never listed. The limit is
    what [parseInt] made of the query string: for an integer [n] of either
    sign at most [|n|] items are answered, and for NaN (no number) none, the
    query being refused. When the query goes through and every bidder is a
    user, a limit [n] lists as many items as [|n|] allows: for [n >= 0] the
    latest ones (no successful bid that is left out was placed after one that
    is listed), for [n < 0] the oldest ones (none that is left out was placed
    before one that is listed). *)
Theorem bid_history_lists_the_latest_successful_bids :
  forall findManyFails auctionItemId (limit : option Z) w,
    exists items,
      fetchBidHistoryForAuction findManyFails auctionItemId limit w = (inr items, w) /\
      exists rows,
        Forall2 (historyItemOf (store w)) rows items /\
        (limit = None -> items = []) /\
        (forall n, limit = Some n -> (length items <= Z.abs_nat n)%nat) /\
        (forall b, b ∈ rows ->
           b ∈ bid (store w) /\ bid_auctionItemId b = auctionItemId /\
           wasBidSuccessful b = true) /\
        (forall i j b1 b2, rows !! i = Some b1 -> rows !! j = Some b2 -> (i < j)%nat ->
           (placedAtTimestamp b2 <= placedAtTimestamp b1)%Z) /\
        (findManyFails = false ->
         (forall b, b ∈ bid (store w) -> is_Some (user (store w) !! bidderUserId b)) ->
         forall n, limit = Some n ->
         exists others,
           (rows ++ others)%list ≡ₚ successfulBidsOn (store w) auctionItemId /\
           length rows =
             (Z.abs_nat n `min` length (successfulBidsOn (store w) auctionItemId))%nat /\
           ((0 <= n)%Z ->
            forall b b', b ∈ rows -> b' ∈ others ->
              (placedAtTimestamp b' <= placedAtTimestamp b)%Z) /\
           ((n < 0)%Z ->
            forall b b', b ∈ rows -> b' ∈ others ->
              (placedAtTimestamp b <= placedAtTimestamp b')%Z)).
Proof.
  intros fails id limit w.
  destruct (fetchBidHistoryForAuction_rows fails id limit w)
    as (items & rows & -> & Hitems & Hrows & Hnone & Hfull).
  exists items. split; [done|]. exists rows. split; [done|].
  set (sorted := orderByPlacedAtDesc (successfulBidsOn (store w) id)) in *.
  pose proof (orderByPlacedAtDesc_sorted (successfulBidsOn (store w) id)) as Hsorted.
  fold sorted in Hsorted.
  assert (rows ⊆ sorted) as Hsub.
  { destruct Hrows as [->|(n & _ & ->)]; [apply list_subseteq_nil|apply takeRows_subseteq]. }
  split; [|split; [|split; [|split]]].
  - intros Hlimit. rewrite (Hnone Hlimit) in Hitems. by apply Forall2_nil_inv_l in Hitems.
  - intros n Hlimit. rewrite <- (Forall2_length _ _ _ Hitems).
    destruct Hrows as [->|(n' & Hn' & ->)]; [simpl; lia|].
    rewrite takeRows_length. assert (n' = n) by congruence. lia.
  - intros b Hb%Hsub. unfold sorted in Hb.
    rewrite orderByPlacedAtDesc_perm in Hb.
    by apply list_elem_of_filter in Hb as [[? ?] ?].
  - destruct Hrows as [->|(n & _ & ->)]; [by intros i j b1 b2 ?|].
    apply StronglySorted_lookup_lt. by apply takeRows_sorted.
  - intros Hquery Hfk n Hlimit. rewrite (Hfull Hquery Hfk n Hlimit).
    assert (length sorted = length (successfulBidsOn (store w) id)) as Hlen
      by (unfold sorted; by rewrite orderByPlacedAtDesc_perm).
    rewrite takeRows_length, Hlen.
    destruct (takeRows_cases n sorted) as [[Hn ->]|[Hn ->]].
    + exists (drop (Z.to_nat n) sorted). split; [|split; [done|split]].
      * rewrite take_drop. apply orderByPlacedAtDesc_perm.
      * intros _ b b' Hb Hb'.
        rewrite <- (take_drop (Z.to_nat n) sorted) in Hsorted.
        by apply (StronglySorted_app_1_elem_of _ _ _ _ _ Hsorted).
      * lia.
    + exists (take (length sorted - Z.to_nat (- n)) sorted). split; [|split; [done|split]].
      * rewrite Permutation_app_comm, take_drop. apply orderByPlacedAtDesc_perm.
      * lia.
      * intros _ b b' Hb Hb'.
        rewrite <- (take_drop (length sorted - Z.to_nat (- n)) sorted) in Hsorted.
        by apply (StronglySorted_app_1_elem_of _ _ _ _ _ Hsorted).
Qed.

(** X20. The bid history reads highest first. In the worlds the services
    reach by whole calls with a write clock that never goes back, of two
    listed bids placed at different times the newer one is listed first and
    is at least the minimum increment above the older one. *)
Theorem bid_history_amounts_fall_with_time :
  forall w t findManyFails auctionItemId a limit items,
    reachable w t ->
    auctionItem (store w) !! auctionItemId = Some a ->
    fst (fetchBidHistoryForAuction findManyFails auctionItemId limit w) = inr items ->
    forall i j h1 h2,
      items !! i = Some h1 -> items !! j = Some h2 -> (i < j)%nat ->
      (history_placedAtTimestamp h2 <= history_placedAtTimestamp h1)%Z /\
      ((history_placedAtTimestamp h2 < history_placedAtTimestamp h1)%Z ->
       (history_bidAmountInDollars h2 + minimumBidIncrementInDollars a
        <= history_bidAmountInDollars h1)%Q).
Proof.
  intros w t fails id a limit items0 Hreach Ha Hrun i j h1 h2 Hi Hj Hlt.
  destruct (fetchBidHistoryForAuction_rows fails id limit w)
    as (items & rows & Hfetch & Hitems & Hrows & _).
  rewrite Hfetch in Hrun. simpl in Hrun. injection Hrun as ->.
  destruct (Forall2_lookup_r _ _ _ _ _ Hitems Hi) as (b1 & Hb1 & Hh1).
  destruct (Forall2_lookup_r _ _ _ _ _ Hitems Hj) as (b2 & Hb2 & Hh2).
  destruct Hh1 as (_ & -> & -> & _). destruct Hh2 as (_ & -> & -> & _).
  destruct Hrows as [->|(n & _ & ->)]; [done|].
  set (sorted := orderByPlacedAtDesc (successfulBidsOn (store w) id)) in *.
  pose proof (orderByPlacedAtDesc_sorted (successfulBidsOn (store w) id)) as Hsorted.
  fold sorted in Hsorted. apply (takeRows_sorted _ n) in Hsorted.
  split; [apply (StronglySorted_lookup_lt _ _ Hsorted i j b1 b2 Hb1 Hb2 Hlt)|].
  intros Hnewer.
  assert (forall b, takeRows n sorted !! i = Some b \/ takeRows n sorted !! j = Some b ->
            b ∈ bid (store w) /\ bid_auctionItemId b = id /\ wasBidSuccessful b = true)
    as Hin.
  { intros b Hb.
    assert (b ∈ takeRows n sorted) as Hb'%takeRows_subseteq
      by (destruct Hb as [Hb|Hb]; by eapply list_elem_of_lookup_2).
    unfold sorted in Hb'. rewrite orderByPlacedAtDesc_perm in Hb'.
    by apply list_elem_of_filter in Hb' as [[? ?] ?]. }
  destruct (Hin b1 (or_introl Hb1)) as (Hin1 & Hid1 & Hok1).
  destruct (Hin b2 (or_intror Hb2)) as (Hin2 & Hid2 & Hok2).
  destruct (reachable_Inv w t Hreach) as (_ & _ & _ & Hpairs).
  apply (Hpairs b2 b1 a); try done; congruence.
Qed.

Lemma bid_history_amounts_fall_with_time_witness :
  exists h1 h2,
    fst (fetchBidHistoryForAuction false "a1" (Some 50%Z) worldAfterCarol120)
    = inr [h1; h2] /\
    (history_bidAmountInDollars h2 + 10 <= history_bidAmountInDollars h1)%Q.
Proof.
  set (carol := mkBidHistoryItem "bid-2" 120 601 ("carol", "carol")).
  set (bob := mkBidHistoryItem "bid-1" 110 501 ("bob", "bob")).
  assert (fst (fetchBidHistoryForAuction false "a1" (Some 50%Z) worldAfterCarol120)
          = inr [carol; bob]) as Hitems by (vm_compute; reflexivity).
  assert (auctionItem (store worldAfterCarol120) !! "a1"
          = Some (setHighestBid (setHighestBid exampleAuction 110 501) 120 601)) as Ha
    by (vm_compute; reflexivity).
  assert (0 < 1)%nat as Hlt by lia.
  assert (501 < 601)%Z as Hnewer by lia.
  exists carol, bob. split; [exact Hitems|].
  exact (proj2 (bid_history_amounts_fall_with_time worldAfterCarol120 601 false "a1" _
                  (Some 50%Z)
                  [carol; bob] worldAfterCarol120_reachable Ha Hitems
                  0%nat 1%nat carol bob eq_refl eq_refl Hlt) Hnewer).
Defined.

(** ** What a refusal says *)

(** The answer of the pipeline, case by case. *)
Lemma processBid_answer env auctionItemId bidderUserId amount w :
  let elapsed := (processingEndTime env - processingStartTime env)%Z in
  fst (processBidWithDistributedLock env auctionItemId bidderUserId amount w) =
  inr (if lockKeyFree env auctionItemId w
       then
         if findUniqueFails env then processingFailedResult env "database error"
         else
           match auctionItem (store w) !! auctionItemId with
           | None => setProcessingTime (createErrorResult BID_ERROR_AUCTION_NOT_FOUND) elapsed
           | Some a =>
               match rejection env bidderUserId amount a with
               | Some r => setProcessingTime r elapsed
               | None =>
                   if transactionFails env
                   then processingFailedResult env "database error"
                   else if DECIMAL_12_2 amount is None
                   then processingFailedResult env "numeric field overflow"
                   else if bidIdTaken env (store w)
                   then processingFailedResult env "Unique constraint failed"
                   else if user (store w) !! bidderUserId is None
                   then processingFailedResult env "Foreign key constraint failed"
                   else setProcessingTime
                          (acceptedResult env amount (currentHighestBidInDollars a)) elapsed
               end
           end
       else lockUnavailableResult env).
Proof.
  intros elapsed. unfold processBidWithDistributedLock, bind.
  rewrite executeWithDistributedLock_unfold.
  destruct (lockKeyFree env auctionItemId w); [|done].
  rewrite processBidTransaction_unfold.
  change (store (lockedWorld env auctionItemId LOCK_TTL_FOR_BID_PROCESSING_IN_MILLISECONDS w))
    with (store w).
  destruct (findUniqueFails env); [done|].
  destruct (auctionItem (store w) !! auctionItemId) as [a|] eqn:Ha; [|done].
  destruct (rejection env bidderUserId amount a); [done|].
  rewrite executeBidWrites_unfold.
  change (store (lockedWorld env auctionItemId LOCK_TTL_FOR_BID_PROCESSING_IN_MILLISECONDS w))
    with (store w).
  rewrite Ha. destruct (transactionFails env); [done|].
  destruct (DECIMAL_12_2 amount); [|done].
  destruct (bidIdTaken env (store w)); [done|].
  by destruct (user (store w) !! bidderUserId).
Qed.

(** X21. A refusal names its cause. Every unsuccessful answer of the bid
    pipeline carries no bid id and no new highest bid, and an error code that
    tells what happened: the lock was not free
    ([BID_ERROR_LOCK_ACQUISITION_FAILED]); the store failed or the bid id was
    taken, the amount did not fit its column or the bidder was no user
    ([BID_ERROR_PROCESSING_FAILED]); there is no such auction
    ([BID_ERROR_AUCTION_NOT_FOUND]); the auction is not ACTIVE or its end
    time is reached ([BID_ERROR_AUCTION_ENDED]); it has not started
    ([BID_ERROR_AUCTION_NOT_STARTED]); the bidder is its creator
    ([BID_ERROR_OWN_AUCTION]); or the amount is below the binary64 sum of
    the current highest bid and the increment ([BID_ERROR_BID_TOO_LOW], with
    that sum as the required minimum and the current bid in the message and
    the result). *)
Theorem refusal_names_its_cause :
  forall env auctionItemId bidderUserId amount w r w',
    processBidWithDistributedLock env auctionItemId bidderUserId amount w = (inr r, w') ->
    res_wasBidSuccessful r = false ->
    res_bidId r = None /\ newHighestBidInDollars r = None /\
    exists code,
      errorCode r = Some code /\
      ((code = BID_ERROR_LOCK_ACQUISITION_FAILED /\
        lockKeyFree env auctionItemId w = false /\
        errorMessage r = Some (Text "Bid processing is busy. Please try again")) \/
       (code = BID_ERROR_PROCESSING_FAILED /\
        lockKeyFree env auctionItemId w = true /\
        (findUniqueFails env = true \/ transactionFails env = true \/
         DECIMAL_12_2 amount = None \/ bidIdTaken env (store w) = true \/
         user (store w) !! bidderUserId = None)) \/
       (code = BID_ERROR_AUCTION_NOT_FOUND /\
        auctionItem (store w) !! auctionItemId = None /\
        errorMessage r = Some (Text "Auction not found")) \/
       exists a,
         auctionItem (store w) !! auctionItemId = Some a /\
         ((code = BID_ERROR_AUCTION_ENDED /\
           (currentStatus a <> ACTIVE \/
            (auctionEndTimeTimestamp a <= currentTimestamp env)%Z) /\
           errorMessage r = Some (Text "This auction has already ended")) \/
          (code = BID_ERROR_AUCTION_NOT_STARTED /\
           (currentTimestamp env < auctionStartTimeTimestamp a)%Z /\
           errorMessage r = Some (Text "This auction has not started yet")) \/
          (code = BID_ERROR_OWN_AUCTION /\
           creatorUserId a = bidderUserId /\
           errorMessage r = Some (Text "You cannot bid on your own auction")) \/
          (code = BID_ERROR_BID_TOO_LOW /\
           (amount < jsAdd (currentHighestBidInDollars a) (minimumBidIncrementInDollars a))%Q /\
           errorMessage r =
             Some (BidMustBeAtLeast
                     (jsAdd (currentHighestBidInDollars a) (minimumBidIncrementInDollars a))
                     (currentHighestBidInDollars a) (minimumBidIncrementInDollars a)) /\
           previousHighestBidInDollars r = Some (currentHighestBidInDollars a)))).
Proof.
  intros env id bidder amount w r w' Hrun Hfailed.
  pose proof (processBid_answer env id bidder amount w) as Hanswer.
  rewrite Hrun in Hanswer. simpl in Hanswer. injection Hanswer as Hr.
  destruct (lockKeyFree env id w).
  2: { subst r. split; [done|]. split; [done|]. eexists. split; [done|]. by left. }
  destruct (findUniqueFails env) eqn:Hfind.
  { subst r. split; [done|]. split; [done|]. eexists. split; [done|]. right. left. auto. }
  destruct (auctionItem (store w) !! id) as [a|] eqn:Ha.
  2: { subst r. split; [done|]. split; [done|]. eexists. split; [done|].
       right. right. left. done. }
  destruct (rejection env bidder amount a) as [r0|] eqn:Hrej.
  - subst r. revert Hrej. unfold rejection.
    case_bool_decide as Hactive; simpl.
    2: { intros [= <-]. split; [done|]. split; [done|]. eexists. split; [done|].
         do 3 right. exists a. split; [done|]. left. auto. }
    destruct (Z.ltb_spec (currentTimestamp env) (auctionStartTimeTimestamp a)).
    { intros [= <-]. split; [done|]. split; [done|]. eexists. split; [done|].
      do 3 right. exists a. split; [done|]. right. left. auto. }
    destruct (Z.leb_spec (auctionEndTimeTimestamp a) (currentTimestamp env)).
    { intros [= <-]. split; [done|]. split; [done|]. eexists. split; [done|].
      do 3 right. exists a. split; [done|]. left. auto. }
    destruct (String.eqb_spec (creatorUserId a) bidder).
    { intros [= <-]. split; [done|]. split; [done|]. eexists. split; [done|].
      do 3 right. exists a. split; [done|]. right. right. left. auto. }
    destruct (Qltb amount _) eqn:Hlow; [|done].
    apply Qltb_lt in Hlow.
    intros [= <-]. split; [done|]. split; [done|]. eexists. split; [done|].
    do 3 right. exists a. split; [done|]. do 3 right. auto.
  - destruct (transactionFails env) eqn:Htx.
    { subst r. split; [done|]. split; [done|]. eexists. split; [done|]. right. left. auto. }
    destruct (DECIMAL_12_2 amount) as [stored|] eqn:Hstored.
    2: { subst r. split; [done|]. split; [done|]. eexists. split; [done|].
         right. left. split; [done|]. split; [done|]. right. right. by left. }
    destruct (bidIdTaken env (store w)) eqn:Hid.
    { subst r. split; [done|]. split; [done|]. eexists. split; [done|].
      right. left. split; [done|]. split; [done|]. do 3 right. by left. }
    destruct (user (store w) !! bidder) as [u|] eqn:Hu.
    2: { subst r. split; [done|]. split; [done|]. eexists. split; [done|].
         right. left. split; [done|]. split; [done|]. by do 4 right. }
    subst r. done.
Qed.

Lemma refusal_names_its_cause_witness :
  exists r,
    fst (processBidWithDistributedLock exampleEnv "a1" "alice" 500 exampleWorld) = inr r /\
    errorCode r = Some BID_ERROR_OWN_AUCTION.
Proof.
  set (outcome := processBidWithDistributedLock exampleEnv "a1" "alice" 500 exampleWorld).
  assert (exists r, outcome = (inr r, snd outcome) /\ res_wasBidSuccessful r = false /\
                    errorCode r = Some BID_ERROR_OWN_AUCTION) as (r & Hrun & Hfailed & Hcode).
  { eexists. vm_compute. repeat split. }
  exists r. split; [by rewrite Hrun|].
  destruct (refusal_names_its_cause exampleEnv "a1" "alice" 500 exampleWorld r _ Hrun Hfailed)
    as (_ & _ & code & Hc & _).
  congruence.
Defined.

Lemma rejection_code env bidderUserId amount a r :
  rejection env bidderUserId amount a = Some r ->
  or_else (errorCode r) "BID_FAILED" ∈ bidErrorCodesSent /\
  errorMessage r <> None /\ errorMessage r <> Some (Text "") /\
  errorMessage r <> Some (Text "Bid failed").
Proof.
  unfold rejection, bidErrorCodesSent.
  repeat (match goal with |- context [if ?c then _ else _] => destruct c end);
    intros [= <-]; simpl; (split; [rewrite !elem_of_cons; tauto|done]).
Qed.

Lemma processBid_refusal_code env auctionItemId bidderUserId amount w r :
  fst (processBidWithDistributedLock env auctionItemId bidderUserId amount w) = inr r ->
  res_wasBidSuccessful r = false ->
  or_else (errorCode r) "BID_FAILED" ∈ bidErrorCodesSent /\
  errorMessage r <> None /\ errorMessage r <> Some (Text "") /\
  errorMessage r <> Some (Text "Bid failed").
Proof.
  rewrite processBid_answer. intros [= <-].
  assert (forall e,
            e ∈ ["database error"; "numeric field overflow"; "Unique constraint failed";
                 "Foreign key constraint failed"] ->
            or_else (errorCode (processingFailedResult env e)) "BID_FAILED"
              ∈ bidErrorCodesSent /\
            errorMessage (processingFailedResult env e) <> None /\
            errorMessage (processingFailedResult env e) <> Some (Text "") /\
            errorMessage (processingFailedResult env e) <> Some (Text "Bid failed")) as Hfailed.
  { intros e He. unfold bidErrorCodesSent. split; [simpl; rewrite !elem_of_cons; tauto|].
    rewrite !elem_of_cons in He.
    destruct He as [->|[->|[->|[->|[]%elem_of_nil]]]]; done. }
  destruct (lockKeyFree env auctionItemId w).
  2: { intros _. unfold bidErrorCodesSent. split; [simpl; rewrite !elem_of_cons; tauto|done]. }
  destruct (findUniqueFails env); [intros _; apply Hfailed; rewrite !elem_of_cons; tauto|].
  destruct (auctionItem (store w) !! auctionItemId) as [a|].
  2: { intros _. unfold bidErrorCodesSent. split; [simpl; rewrite !elem_of_cons; tauto|done]. }
  destruct (rejection env bidderUserId amount a) as [r0|] eqn:Hrej.
  { intros _. by apply rejection_code in Hrej. }
  destruct (transactionFails env); [intros _; apply Hfailed; rewrite !elem_of_cons; tauto|].
  destruct (DECIMAL_12_2 amount); [|intros _; apply Hfailed; rewrite !elem_of_cons; tauto].
  destruct (bidIdTaken env (store w)); [intros _; apply Hfailed; rewrite !elem_of_cons; tauto|].
  destruct (user (store w) !! bidderUserId); [|intros _; apply Hfailed; rewrite !elem_of_cons; tauto].
  done.
Qed.

(** X22. What [handlePlaceBid] sends. A [PLACE_BID] message that comes
    without a payload makes the handler throw while it takes the payload
    apart, before its [try]: nothing is sent and nothing changes. A message
    with a payload is always answered, and with nothing but these events: one
    [BID_PLACED_ERROR] to the sender alone, the store being left as it was;
    or [BID_PLACED_SUCCESS] to the sender, followed (when the server instance
    is set) by one [BID_UPDATE_BROADCAST] to the room of the auction. The
    error code is "AUTH_ERROR", "VALIDATION_ERROR" or a code of the pipeline,
    and the message is never empty: the fallbacks "BID_FAILED", "Bid failed"
    and the "SERVER_ERROR" reply of the handler's [catch] are never sent. *)
Theorem handlePlaceBid_sends_reply_and_broadcast_only :
  forall env socket payload w,
    let w' := snd (handlePlaceBid env socket payload w) in
    (payload = noPlaceBidPayload ->
     fst (handlePlaceBid env socket payload w) = inl "TypeError" /\ w' = w) /\
    (payload <> noPlaceBidPayload ->
    fst (handlePlaceBid env socket payload w) = inr tt /\
    ((exists p,
        emitted w' = (emitted w ++ [ToSocket (socket_id socket) (BID_PLACED_ERROR p)])%list /\
        store w' = store w /\
        err_errorCode p ∈ bidErrorCodesSent /\
        err_errorMessage p <> Text "" /\ err_errorMessage p <> Text "Bid failed" /\
        err_errorCode p <> "SERVER_ERROR" /\ err_errorCode p <> "BID_FAILED") \/
     (exists p broadcast,
        emitted w' =
          (emitted w ++ ToSocket (socket_id socket) (BID_PLACED_SUCCESS p) :: broadcast)%list /\
        Some (ok_auctionItemId p) = truthy (pb_auctionItemId payload) /\
        Some (ok_bidAmountInDollars p) = pb_bidAmountInDollars payload /\
        (broadcast = [] /\ ioServer w = false \/
         exists q,
           broadcast = [ToRoom (generateAuctionRoomNameFromId (ok_auctionItemId p))
                          (BID_UPDATE_BROADCAST q)] /\
           ioServer w = true /\
           upd_auctionItemId q = ok_auctionItemId p /\
           upd_newHighestBidInDollars q = ok_bidAmountInDollars p)))).
Proof.
  intros env socket payload w w'. subst w'.
  destruct payload as [pid pamount|]; [split; [done|intros _]|by split].
  set (payload := mkPlaceBidPayload pid pamount).
  assert (forall c, c ∈ bidErrorCodesSent -> c <> "SERVER_ERROR" /\ c <> "BID_FAILED")
    as Hcodes.
  { intros c Hc. unfold bidErrorCodesSent in Hc. rewrite !elem_of_cons in Hc.
    destruct Hc as [->|[->|[->|[->|[->|[->|[->|[->|[->|Hc]]]]]]]]];
      [done..|by apply elem_of_nil in Hc]. }
  assert (forall c, c ∈ ["AUTH_ERROR"; "VALIDATION_ERROR"] -> c ∈ bidErrorCodesSent) as Hown.
  { intros c Hc. unfold bidErrorCodesSent. rewrite !elem_of_cons in Hc.
    destruct Hc as [->|[->|Hc]]; [by left|right; by left|by apply elem_of_nil in Hc]. }
  destruct (handlePlaceBid env socket payload w) as [o wf] eqn:Hh.
  revert Hh. unfold handlePlaceBid, payload. fold payload.
  destruct (getUserDataFromSocket socket) as [ud|].
  2: { intros [= <- <-]. split; [done|]. left. eexists. split; [done|]. split; [done|].
       simpl. split; [apply Hown; by left|]. split; [done|]. split; [done|]. done. }
  assert (forall code text,
            code ∈ ["AUTH_ERROR"; "VALIDATION_ERROR"] ->
            text <> "" -> text <> "Bid failed" ->
            emit (ToSocket (socket_id socket)
                    (BID_PLACED_ERROR
                       (mkBidPlacedErrorPayload (pb_auctionItemId payload) code (Text text)))) w
            = (o, wf) ->
            o = inr tt /\
            ((exists p,
                emitted wf
                = (emitted w ++ [ToSocket (socket_id socket) (BID_PLACED_ERROR p)])%list /\
                store wf = store w /\ err_errorCode p ∈ bidErrorCodesSent /\
                err_errorMessage p <> Text "" /\ err_errorMessage p <> Text "Bid failed" /\
                err_errorCode p <> "SERVER_ERROR" /\ err_errorCode p <> "BID_FAILED") \/
             (exists p broadcast,
                emitted wf =
                  (emitted w ++
                   ToSocket (socket_id socket) (BID_PLACED_SUCCESS p) :: broadcast)%list /\
                Some (ok_auctionItemId p) = truthy (pb_auctionItemId payload) /\
                Some (ok_bidAmountInDollars p) = pb_bidAmountInDollars payload /\
                (broadcast = [] /\ ioServer w = false \/
                 exists q,
                   broadcast = [ToRoom (generateAuctionRoomNameFromId (ok_auctionItemId p))
                                  (BID_UPDATE_BROADCAST q)] /\
                   ioServer w = true /\
                   upd_auctionItemId q = ok_auctionItemId p /\
                   upd_newHighestBidInDollars q = ok_bidAmountInDollars p)))) as Hguard.
  { intros code text Hcode Hne1 Hne2 [= <- <-]. split; [done|]. left. eexists.
    split; [done|]. split; [done|]. simpl. split; [by apply Hown|].
    split; [congruence|]. split; [congruence|]. by apply Hcodes, Hown. }
  destruct (truthy (pb_auctionItemId payload)) as [aid|].
  2: { destruct (pb_bidAmountInDollars payload);
         apply Hguard; try done; right; by left. }
  destruct (pb_bidAmountInDollars payload) as [amount|].
  2: { apply Hguard; try done; right; by left. }
  destruct (Qleb amount 0).
  { apply Hguard; try done; right; by left. }
  clear Hguard.
  destruct (processBidWithDistributedLock_cases env aid (userId ud) amount w)
    as (r & w1 & Hrun & Hcases & Hemit & Hio & _).
  unfold try_catch, bind at 1. rewrite Hrun.
  destruct Hcases as [(a & stored & _ & _ & Hr & Hst)|(Hfail & Hst & _)].
  - rewrite Hr. simpl.
    unfold bind at 1, emit at 1, modify. unfold bind at 1.
    match goal with
    | |- context [fetchCurrentAuctionBidInfo env aid ?w2] =>
        destruct (fetchCurrentAuctionBidInfo_total env aid w2) as [info ->]
    end.
    unfold bind, get_world, emit, modify, ret. simpl. rewrite Hio, Hemit.
    destruct (ioServer w); intros [= <- <-]; (split; [done|]); right; simpl.
    + eexists _, _. split; [by rewrite <- app_assoc|]. split; [done|]. split; [done|].
      right. eexists. done.
    + eexists _, _. split; [done|]. split; [done|]. split; [done|]. by left.
  - rewrite Hfail. unfold emit, modify. simpl. rewrite Hemit.
    intros [= <- <-]. split; [done|]. left. eexists. split; [done|]. split; [done|].
    simpl.
    destruct (processBid_refusal_code env aid (userId ud) amount w r)
      as (Hcode & Hsome & Hnonempty & Hnot); [by rewrite Hrun|done|].
    split; [done|]. split; [|split; [|by apply Hcodes]].
    + destruct (errorMessage r) as [[[|c s]|]|]; done.
    + destruct (errorMessage r) as [[[|c s]|]|]; try done. congruence.
Qed.

(** ** The snapshot of an auction *)

(** X23. The snapshot names the bidder of the price it shows. In every world
    the server reaches from empty tables, when [fetchCurrentAuctionBidInfo]
    answers a snapshot with a highest bidder, that bidder placed the latest
    successful bid of the auction, the price shown is the amount of that bid
    and the row's current highest bid, and the bidder is not the creator.
    Without a highest bidder the price shown is the starting price, unless
    the bid's bidder id is the empty string. The count is that of all bid
    rows of the auction. *)
Theorem snapshot_names_the_bidder_of_its_price :
  forall env w auctionItemId info,
    served w ->
    fst (fetchCurrentAuctionBidInfo env auctionItemId w) = inr (Some info) ->
    exists a,
      auctionItem (store w) !! auctionItemId = Some a /\
      info_currentHighestBidInDollars info = currentHighestBidInDollars a /\
      info_auctionEndTimeTimestamp info = auctionEndTimeTimestamp a /\
      info_totalNumberOfBids info = count_allBidsOnItem (store w) auctionItemId /\
      match info_highestBidderUserId info with
      | Some bidder =>
          bidder <> creatorUserId a /\
          exists b u,
            last (successfulBidsOn (store w) auctionItemId) = Some b /\
            bidderUserId b = bidder /\
            bid_bidAmountInDollars b = info_currentHighestBidInDollars info /\
            user (store w) !! bidder = Some u /\
            info_highestBidderUsername info = truthy (Some (username u))
      | None =>
          info_currentHighestBidInDollars info = startingPriceInDollars a \/
          exists b, last (successfulBidsOn (store w) auctionItemId) = Some b /\
                    bidderUserId b = ""
      end.
Proof.
  intros env w id info Hserved.
  destruct (served_Settled w Hserved) as [_ Hrows].
  unfold fetchCurrentAuctionBidInfo, try_catch, bind, get_world, throw, ret.
  destruct (bidInfoFails env); [done|].
  destruct (auctionItem (store w) !! id) as [a|] eqn:Ha; [|done].
  destruct (Hrows id a Ha) as (_ & _ & Hinc & _ & _ & Hcur & Hsorted & Hfloor & _).
  unfold bid_findFirst_highest.
  rewrite (firstByAmountDesc_rising (minimumBidIncrementInDollars a)); [|lra|done].
  destruct (last (successfulBidsOn (store w) id)) as [b|] eqn:Hlast; simpl.
  2: { intros [= <-]. exists a. simpl. repeat (split; [done|]). by left. }
  destruct (user (store w) !! bidderUserId b) as [u|] eqn:Hu; simpl; [|done].
  intros [= <-]. exists a. simpl. unfold toNumber. repeat (split; [done|]).
  destruct (String.eqb_spec (bidderUserId b) "") as [Hempty|Hne].
  - right. by exists b.
  - split; [apply Hfloor; by apply last_Some_elem_of|].
    exists b, u. simpl in Hcur. by repeat (split; [done|]).
Qed.

Lemma snapshot_names_the_bidder_of_its_price_witness :
  exists info,
    fst (fetchCurrentAuctionBidInfo exampleEnv "a1" worldAfterCarol120) = inr (Some info) /\
    info_highestBidderUserId info = Some "carol" /\
    info_currentHighestBidInDollars info = 120%Q.
Proof.
  assert (exists info,
            fst (fetchCurrentAuctionBidInfo exampleEnv "a1" worldAfterCarol120)
            = inr (Some info) /\
            info_highestBidderUserId info = Some "carol") as (info & Hrun & Hbidder).
  { eexists. split; vm_compute; reflexivity. }
  exists info. split; [done|]. split; [done|].
  destruct (snapshot_names_the_bidder_of_its_price exampleEnv worldAfterCarol120 "a1" info
              served_worldAfterCarol120 Hrun) as (a & Ha & Hprice & _).
  rewrite Hprice.
  assert (auctionItem (store worldAfterCarol120) !! "a1"
          = Some (setHighestBid (setHighestBid exampleAuction 110 501) 120 601)) as Ha'
    by (vm_compute; reflexivity).
  rewrite Ha' in Ha. by injection Ha as <-.
Defined.

(** ** Time synchronisation *)

(** X24. The clock offset of a time-sync exchange. Let the server clock be
    [theta] ms ahead of the client clock, the request travel [d1] ms and the
    response [d2] ms. The sample the client computes from the response of
    [handleTimeSyncRequest] has round trip [d1 + d2], whatever the server
    spends between its two clock readings, and offset
    [theta + (d1 - d2) / 2]: off by at most half the round trip, and exact
    when both ways take equally long. *)
Theorem time_sync_offset_is_within_half_the_round_trip :
  forall theta t0 d1 processing d2,
    let serverT1 := (t0 + theta + d1)%Z in
    let serverT2 := (serverT1 + processing)%Z in
    let clientT3 := (serverT2 - theta + d2)%Z in
    let sample :=
      timeSyncSample clientT3
        (handleTimeSyncRequest serverT1 serverT2 (mkTimeSyncRequestPayload t0)) in
    roundTripTimeInMs sample = (d1 + d2)%Z /\
    (offsetInMs sample == inject_Z theta + (inject_Z d1 - inject_Z d2) / 2)%Q /\
    ((0 <= d1)%Z -> (0 <= d2)%Z ->
     (inject_Z theta - inject_Z (roundTripTimeInMs sample) / 2 <= offsetInMs sample)%Q /\
     (offsetInMs sample <= inject_Z theta + inject_Z (roundTripTimeInMs sample) / 2)%Q) /\
    (d1 = d2 -> (offsetInMs sample == inject_Z theta)%Q).
Proof.
  intros theta t0 d1 processing d2 serverT1 serverT2 clientT3 sample.
  assert (roundTripTimeInMs sample = (d1 + d2)%Z) as Hrtt.
  { subst sample clientT3 serverT2 serverT1. simpl. lia. }
  assert (offsetInMs sample == inject_Z theta + (inject_Z d1 - inject_Z d2) / 2)%Q as Hoffset.
  { subst sample clientT3 serverT2 serverT1. simpl.
    replace (t0 + theta + d1 - t0 + (t0 + theta + d1 + processing
             - (t0 + theta + d1 + processing - theta + d2)))%Z
      with (theta + theta + (d1 + - d2))%Z by lia.
    rewrite !inject_Z_plus, inject_Z_opp. field. }
  split; [done|]. split; [done|]. split.
  - intros Hd1 Hd2. rewrite Hoffset, Hrtt, inject_Z_plus.
    assert (0 <= inject_Z d1)%Q as H by (rewrite <- (Zle_Qle 0); done).
    assert (0 <= inject_Z d2)%Q as H0 by (rewrite <- (Zle_Qle 0); done).
    clear Hoffset.
    revert H H0. generalize (inject_Z d1), (inject_Z d2), (inject_Z theta).
    intros a b c Ha Hb. unfold Qdiv. change (/ 2)%Q with (1 # 2)%Q. split; lra.
  - intros ->. rewrite Hoffset. field.
Qed.

Lemma time_sync_offset_is_within_half_the_round_trip_witness :
  (offsetInMs
     (timeSyncSample 1090
        (handleTimeSyncRequest 5040 5050 (mkTimeSyncRequestPayload 1000))) == 4000)%Q.
Proof.
  exact (proj2 (proj2 (proj2
           (time_sync_offset_is_within_half_the_round_trip 4000 1000 40 10 40))) eq_refl).
Defined.

Lemma insertByRoundTripTime_perm x sorted : insertByRoundTripTime x sorted ≡ₚ x :: sorted.
Proof.
  induction sorted as [|y rest IH]; simpl; [done|].
  destruct (_ <? _)%Z; [done|]. rewrite IH. apply Permutation_swap.
Qed.

Lemma insertByRoundTripTime_sorted x sorted :
  StronglySorted notSlower sorted ->
  StronglySorted notSlower (insertByRoundTripTime x sorted).
Proof.
  induction 1 as [|y rest Hsorted IH Hall]; simpl; [by repeat constructor|].
  destruct (Z.ltb_spec (roundTripTimeInMs x) (roundTripTimeInMs y)) as [Hlt|Hge].
  - constructor; [by constructor|]. constructor; [unfold notSlower; lia|].
    eapply Forall_impl; [exact Hall|]. unfold notSlower. intros; simpl in *; lia.
  - constructor; [done|]. rewrite insertByRoundTripTime_perm.
    constructor; [unfold notSlower; lia|done].
Qed.

Lemma sortByRoundTripTime_spec samples :
  sortByRoundTripTime samples ≡ₚ samples /\
  StronglySorted notSlower (sortByRoundTripTime samples).
Proof.
  unfold sortByRoundTripTime.
  assert (forall acc, StronglySorted notSlower acc ->
            foldl (fun sorted x => insertByRoundTripTime x sorted) acc samples
              ≡ₚ (acc ++ samples)%list /\
            StronglySorted notSlower
              (foldl (fun sorted x => insertByRoundTripTime x sorted) acc samples)) as Hgen.
  { induction samples as [|x rest IH]; intros acc Hacc; simpl.
    - by rewrite app_nil_r.
    - destruct (IH (insertByRoundTripTime x acc)) as [Hperm Hsorted];
        [by apply insertByRoundTripTime_sorted|].
      split; [|done]. rewrite Hperm, insertByRoundTripTime_perm.
      simpl. apply Permutation_middle. }
  apply (Hgen []). constructor.
Qed.

Lemma filter_length_prefix {A} (P : A -> Prop) `{forall x, Decision (P x)} (l1 l2 : list A) :
  Forall P l1 -> (length l1 <= length (filter P (l1 ++ l2)%list))%nat.
Proof.
  intros Hall. rewrite filter_app, length_app.
  assert (filter P l1 = l1) as ->; [|lia].
  induction Hall as [|x l Hx _ IH]; [done|]. by rewrite filter_cons_True, IH.
Qed.

Lemma filter_length_suffix {A} (P : A -> Prop) `{forall x, Decision (P x)} (l1 l2 : list A) :
  Forall P l2 -> (length l2 <= length (filter P (l1 ++ l2)%list))%nat.
Proof.
  intros Hall. rewrite filter_app, length_app.
  assert (filter P l2 = l2) as ->; [|lia].
  induction Hall as [|x l Hx _ IH]; [done|]. by rewrite filter_cons_True, IH.
Qed.

(** X25. The published clock offset is that of the median round trip. The
    client collects samples until it has [SYNC_SAMPLES_COUNT] of them and
    publishes nothing before. Then it publishes, as synced, the offset and
    the round trip of one of the collected samples, chosen so that more than
    half of the samples have a round trip at most as long and at least half
    have one at least as long, and it starts a new collection. *)
Theorem published_offset_is_of_the_median_round_trip :
  forall clientT3 now response timeSyncSamples,
    let samples := (timeSyncSamples ++ [timeSyncSample clientT3 response])%list in
    ((length samples < SYNC_SAMPLES_COUNT)%nat ->
     handleTimeSyncResponse clientT3 now response timeSyncSamples = (samples, None)) /\
    ((SYNC_SAMPLES_COUNT <= length samples)%nat ->
     exists medianSample,
       medianSample ∈ samples /\
       handleTimeSyncResponse clientT3 now response timeSyncSamples =
       ([], Some (mkTimeSyncState (offsetInMs medianSample) now true
                    (roundTripTimeInMs medianSample))) /\
       (length samples / 2 + 1
        <= length (filter (fun x => notSlower x medianSample) samples))%nat /\
       (length samples - length samples / 2
        <= length (filter (fun x => notSlower medianSample x) samples))%nat).
Proof.
  intros clientT3 now response buffer samples. unfold handleTimeSyncResponse.
  fold samples. split.
  { intros Hshort. destruct (Nat.leb_spec SYNC_SAMPLES_COUNT (length samples)); [lia|done]. }
  intros Hfull.
  destruct (Nat.leb_spec SYNC_SAMPLES_COUNT (length samples)); [|lia].
  destruct (sortByRoundTripTime_spec samples) as [Hperm Hsorted].
  set (sorted := sortByRoundTripTime samples) in *.
  assert (length sorted = length samples) as Hlen by (by rewrite Hperm).
  set (k := (length sorted / 2)%nat).
  assert (k < length sorted)%nat as Hk.
  { subst k. apply Nat.div_lt; [|lia]. unfold SYNC_SAMPLES_COUNT in *. lia. }
  destruct (lookup_lt_is_Some_2 sorted k Hk) as [m Hm]. rewrite Hm.
  exists m. split; [rewrite <- Hperm; by eapply list_elem_of_lookup_2|].
  split; [done|]. rewrite <- Hlen. fold k.
  assert (forall P : TimeSyncSample -> Prop, forall Hdec : (forall x, Decision (P x)),
            length (filter P samples) = length (filter P sorted)) as Hcount.
  { intros P Hdec. by rewrite Hperm. }
  rewrite !Hcount. split.
  - rewrite <- (take_drop (S k) sorted).
    etrans; [|apply filter_length_prefix].
    + rewrite length_take. lia.
    + apply Forall_forall. intros x [i [Hi Hlt]]%elem_of_take.
      destruct (decide (i = k)) as [->|Hne].
      * rewrite Hm in Hi. injection Hi as <-. unfold notSlower. lia.
      * apply (StronglySorted_lookup_lt _ _ Hsorted i k x m Hi Hm). lia.
  - rewrite <- (take_drop k sorted) at 2.
    etrans; [|apply filter_length_suffix].
    + rewrite length_drop. lia.
    + apply Forall_forall. intros x [i Hi]%list_elem_of_lookup_1.
      rewrite lookup_drop in Hi.
      destruct i as [|i].
      * rewrite Nat.add_0_r, Hm in Hi. injection Hi as <-. unfold notSlower. lia.
      * apply (StronglySorted_lookup_lt _ _ Hsorted k (k + S i)%nat m x Hm Hi). lia.
Qed.

Lemma published_offset_is_of_the_median_round_trip_witness :
  snd (handleTimeSyncResponse 1090 1091
         (handleTimeSyncRequest 5040 5050 (mkTimeSyncRequestPayload 1000))
         [mkTimeSyncSample 3990 100; mkTimeSyncSample 4010 60; mkTimeSyncSample 4100 300;
          mkTimeSyncSample 4000 90])
  = Some (mkTimeSyncState 4000 1091 true 90).
Proof.
  destruct (published_offset_is_of_the_median_round_trip 1090 1091
              (handleTimeSyncRequest 5040 5050 (mkTimeSyncRequestPayload 1000))
              [mkTimeSyncSample 3990 100; mkTimeSyncSample 4010 60; mkTimeSyncSample 4100 300;
               mkTimeSyncSample 4000 90]) as [_ Hfull].
  destruct Hfull as (m & _ & Hrun & _); [simpl; unfold SYNC_SAMPLES_COUNT; lia|].
  vm_compute. reflexivity.
Defined.

(** ** What one call does not touch *)

(** The bid information of an auction is read from its row, its successful
    bids, the number of its bid rows and the user table. *)
Lemma fetchCurrentAuctionBidInfo_ext env auctionItemId w w' :
  auctionItem (store w') !! auctionItemId = auctionItem (store w) !! auctionItemId ->
  successfulBidsOn (store w') auctionItemId = successfulBidsOn (store w) auctionItemId ->
  count_allBidsOnItem (store w') auctionItemId = count_allBidsOnItem (store w) auctionItemId ->
  user (store w') = user (store w) ->
  fst (fetchCurrentAuctionBidInfo env auctionItemId w') =
  fst (fetchCurrentAuctionBidInfo env auctionItemId w).
Proof.
  intros Hrow Hbids Hcount Husers.
  unfold fetchCurrentAuctionBidInfo, try_catch, bind, get_world, throw, ret,
    bid_findFirst_highest.
  rewrite Hrow, Hbids, Hcount, Husers.
  destruct (bidInfoFails env); [done|].
  destruct (auctionItem (store w) !! auctionItemId) as [a|]; [|done].
  destruct (firstByAmountDesc (successfulBidsOn (store w) auctionItemId)) as [b|]; [|done].
  by destruct (user (store w) !! bidderUserId b).
Qed.

Lemma count_allBidsOnItem_snoc s s' b id :
  bid s' = (bid s ++ [b])%list ->
  count_allBidsOnItem s' id =
  (count_allBidsOnItem s id + if decide (bid_auctionItemId b = id) then 1 else 0)%nat.
Proof.
  unfold count_allBidsOnItem. intros ->. rewrite filter_app, length_app. f_equal.
  case_decide; [by rewrite filter_cons_True|by rewrite filter_cons_False].
Qed.

(** X26. A bid touches only its auction. Whatever its outcome, a run of the
    bid pipeline for one auction leaves every other auction as it was: its
    row, its successful bids and so its highest bid and bidder, the number of
    its bid rows and the snapshot that [fetchCurrentAuctionBidInfo] gives of
    it; the user table is untouched. *)
Theorem bid_touches_only_its_auction :
  forall env auctionItemId bidderUserId amount w otherAuction,
    otherAuction <> auctionItemId ->
    let w' := snd (processBidWithDistributedLock env auctionItemId bidderUserId amount w) in
    auctionItem (store w') !! otherAuction = auctionItem (store w) !! otherAuction /\
    successfulBidsOn (store w') otherAuction = successfulBidsOn (store w) otherAuction /\
    bid_findFirst_highest (store w') otherAuction
      = bid_findFirst_highest (store w) otherAuction /\
    count_allBidsOnItem (store w') otherAuction = count_allBidsOnItem (store w) otherAuction /\
    user (store w') = user (store w) /\
    forall env',
      fst (fetchCurrentAuctionBidInfo env' otherAuction w') =
      fst (fetchCurrentAuctionBidInfo env' otherAuction w).
Proof.
  intros env id bidder amount w other Hne w'. subst w'.
  destruct (processBidWithDistributedLock_cases env id bidder amount w)
    as (r & w' & -> & Hcases & _). simpl.
  assert (auctionItem (store w') !! other = auctionItem (store w) !! other /\
          successfulBidsOn (store w') other = successfulBidsOn (store w) other /\
          count_allBidsOnItem (store w') other = count_allBidsOnItem (store w) other /\
          user (store w') = user (store w)) as (Hrow & Hbids & Hcount & Husers).
  { destruct Hcases as [(a & stored & _ & _ & _ & Hst)|(_ & -> & _)]; [|done].
    set (new := acceptedBidRow env id bidder stored).
    assert (bid (store w') = (bid (store w) ++ [new])%list) as Hsnoc by (by rewrite Hst).
    rewrite (successfulBidsOn_snoc (store w) (store w') new other Hsnoc).
    rewrite (count_allBidsOnItem_snoc (store w) (store w') new other Hsnoc).
    rewrite Hst. simpl. rewrite lookup_insert_ne by done.
    rewrite decide_False by (intros [? _]; done).
    rewrite decide_False by done. rewrite app_nil_r, Nat.add_0_r. done. }
  split; [done|]. split; [done|]. split; [unfold bid_findFirst_highest; by rewrite Hbids|].
  split; [done|]. split; [done|]. intros env'.
  by apply fetchCurrentAuctionBidInfo_ext.
Qed.

Lemma bid_touches_only_its_auction_witness :
  auctionItem (store (snd (processBidWithDistributedLock exampleEnv "a2" "bob" 110
                             exampleWorld))) !! "a1" = Some exampleAuction.
Proof.
  assert ("a1" <> "a2") as Hne by discriminate.
  rewrite (proj1 (bid_touches_only_its_auction exampleEnv "a2" "bob" 110 exampleWorld "a1" Hne)).
  reflexivity.
Defined.

(** X27. The record of a failed attempt changes no outcome. The row that
    [recordFailedBidAttempt] may add leaves every auction row and every user
    as they were and is not a successful bid of any auction: the highest bid
    and bidder of every auction, and so the winner the reaper would pick, and
    the bid history stay the same, and every later bid (with a bid id of its
    own) gets the answer it would have got. It only counts in the number of
    bid rows of its auction, by at most one. *)
Theorem failed_attempt_record_changes_no_outcome :
  forall env0 auctionItemId0 bidderUserId0 amount0 ms w,
    let w' :=
      snd (recordFailedBidAttempt env0 auctionItemId0 bidderUserId0 amount0 ms w) in
    auctionItem (store w') = auctionItem (store w) /\
    user (store w') = user (store w) /\
    redis w' = redis w /\ emitted w' = emitted w /\
    (forall id,
       successfulBidsOn (store w') id = successfulBidsOn (store w) id /\
       bid_findFirst_highest (store w') id = bid_findFirst_highest (store w) id /\
       (count_allBidsOnItem (store w) id <= count_allBidsOnItem (store w') id
        <= count_allBidsOnItem (store w) id + 1)%nat) /\
    (forall id, id <> auctionItemId0 ->
       count_allBidsOnItem (store w') id = count_allBidsOnItem (store w) id) /\
    (forall findManyFails id limit,
       fst (fetchBidHistoryForAuction findManyFails id limit w') =
       fst (fetchBidHistoryForAuction findManyFails id limit w)) /\
    (forall env id bidderUserId amount,
       generatedBidId env <> generatedBidId env0 ->
       fst (processBidWithDistributedLock env id bidderUserId amount w') =
       fst (processBidWithDistributedLock env id bidderUserId amount w)).
Proof.
  intros env0 aid0 bidder0 amount0 ms w w'. subst w'.
  unfold recordFailedBidAttempt, try_catch, bid_create_failed_attempt, ret.
  set (row := fun stored : Q =>
                mkBid (generatedBidId env0) stored (databaseNow env0) false (Some ms)
                  aid0 bidder0).
  assert (forall (w' : World) (stored : Q),
            auctionItem (store w') = auctionItem (store w) ->
            user (store w') = user (store w) ->
            redis w' = redis w -> emitted w' = emitted w ->
            (bid (store w') = bid (store w) \/
             bid (store w') = (bid (store w) ++ [row stored])%list) ->
            auctionItem (store w') = auctionItem (store w) /\
            user (store w') = user (store w) /\
            redis w' = redis w /\ emitted w' = emitted w /\
            (forall id,
               successfulBidsOn (store w') id = successfulBidsOn (store w) id /\
               bid_findFirst_highest (store w') id = bid_findFirst_highest (store w) id /\
               (count_allBidsOnItem (store w) id <= count_allBidsOnItem (store w') id
                <= count_allBidsOnItem (store w) id + 1)%nat) /\
            (forall id, id <> aid0 ->
               count_allBidsOnItem (store w') id = count_allBidsOnItem (store w) id) /\
            (forall findManyFails id limit,
               fst (fetchBidHistoryForAuction findManyFails id limit w') =
               fst (fetchBidHistoryForAuction findManyFails id limit w)) /\
            (forall env id bidderUserId amount,
               generatedBidId env <> generatedBidId env0 ->
               fst (processBidWithDistributedLock env id bidderUserId amount w') =
               fst (processBidWithDistributedLock env id bidderUserId amount w))) as Hgen.
  { intros w' stored Hitems Husers Hredis Hemitted Hbids.
    assert (forall id, successfulBidsOn (store w') id = successfulBidsOn (store w) id)
      as Hsame.
    { intros id. destruct Hbids as [Hbids|Hbids].
      - by apply successfulBidsOn_ext.
      - rewrite (successfulBidsOn_snoc (store w) (store w') (row stored) id Hbids).
        rewrite decide_False by (intros [_ ?]; done). by rewrite app_nil_r. }
    assert (forall id,
              count_allBidsOnItem (store w') id = count_allBidsOnItem (store w) id \/
              (aid0 = id /\
               count_allBidsOnItem (store w') id = S (count_allBidsOnItem (store w) id)))
      as Hcount.
    { intros id. destruct Hbids as [Hbids|Hbids].
      - left. unfold count_allBidsOnItem. by rewrite Hbids.
      - rewrite (count_allBidsOnItem_snoc (store w) (store w') (row stored) id Hbids). simpl.
        case_decide; [right; split; [done|lia]|left; lia]. }
    do 4 (split; [done|]). split; [|split; [|split]].
    - intros id. split; [done|]. split; [unfold bid_findFirst_highest; by rewrite Hsame|].
      destruct (Hcount id) as [->|[_ ->]]; lia.
    - intros id Hne. destruct (Hcount id) as [->|[? _]]; [done|congruence].
    - intros fails id limit.
      unfold fetchBidHistoryForAuction, try_catch, bind, get_world, throw, ret.
      rewrite Hsame, Husers. destruct fails; [done|]. destruct limit as [n|]; [|done].
      by destruct (mapM _ _).
    - intros env id bidder amount Hfresh. rewrite !processBid_answer.
      assert (lockKeyFree env id w' = lockKeyFree env id w) as ->
        by (unfold lockKeyFree; by rewrite Hredis).
      assert (bidIdTaken env (store w') = bidIdTaken env (store w)) as ->.
      { unfold bidIdTaken. destruct Hbids as [->| ->]; [done|].
        rewrite existsb_app. simpl.
        destruct (String.eqb_spec (generatedBidId env0) (generatedBidId env));
          [congruence|]. by rewrite !orb_false_r. }
      by rewrite Hitems, Husers. }
  destruct (bidCreateFails env0); [apply (Hgen _ 0%Q); auto|].
  destruct (DECIMAL_12_2 _) as [stored|]; [|apply (Hgen _ 0%Q); auto].
  destruct (existsb _ _); [apply (Hgen _ 0%Q); auto|].
  destruct (auctionItem (store w) !! aid0); [|apply (Hgen _ 0%Q); auto].
  destruct (user (store w) !! bidder0); [|apply (Hgen _ 0%Q); auto].
  apply (Hgen _ stored); auto.
Qed.

(** X28. Who joins after a bid sees that bid. In every world the server
    reaches from empty tables, once a bid has been accepted, a socket that
    joins the room of the auction (the store answering) is sent
    [JOINED_AUCTION_ROOM] and then an [AUCTION_STATE_SYNC] whose current
    highest bid is the accepted amount as its DECIMAL(12,2) column stores it
    (rounded to the cent: within half a cent of the amount, and the amount
    itself when that has at most two decimals), whose highest bidder is the
    accepted bidder with that user's name, and whose bid count is the number
    of bid rows the auction had before the bid plus one. *)
Theorem join_after_an_accepted_bid_shows_it :
  forall env w auctionItemId bidderUserId amount r w1 bidder env' socket,
    served w ->
    processBidWithDistributedLock env auctionItemId bidderUserId amount w = (inr r, w1) ->
    res_wasBidSuccessful r = true ->
    auctionItemId <> "" -> bidderUserId <> "" ->
    user (store w) !! bidderUserId = Some bidder ->
    bidInfoFails env' = false ->
    exists p stored,
      emitted (snd (handleJoinRoom env' socket
                      (mkJoinAuctionRoomPayload (Some auctionItemId)) w1)) =
      (emitted w1 ++
       [ToSocket (socket_id socket) (JOINED_AUCTION_ROOM auctionItemId);
        ToSocket (socket_id socket) (AUCTION_STATE_SYNC p)])%list /\
      sync_auctionItemId p = auctionItemId /\
      DECIMAL_12_2 amount = Some stored /\
      sync_currentHighestBidInDollars p = stored /\
      (- (1 # 200) <= stored - amount <= 1 # 200)%Q /\
      (forall cents : Z, (amount * 100 == inject_Z cents)%Q -> (stored == amount)%Q) /\
      sync_highestBidderUserId p = Some bidderUserId /\
      sync_highestBidderUsername p = truthy (Some (username bidder)) /\
      sync_totalNumberOfBids p = S (count_allBidsOnItem (store w) auctionItemId).
Proof.
  intros env w id bidderId amount r w1 u env' socket Hserved Hrun Hok Hid Hbidder Hu Hinfo.
  assert (served w1) as Hserved1.
  { replace w1 with (snd (processBidWithDistributedLock env id bidderId amount w))
      by (by rewrite Hrun).
    by apply served_processBidWithDistributedLock. }
  destruct (processBidWithDistributedLock_cases env id bidderId amount w)
    as (r0 & w0 & Hrun0 & Hcases & _).
  rewrite Hrun in Hrun0. injection Hrun0 as <- <-.
  destruct Hcases as [(a & stored & _ & Hacc & _ & Hst)|(Hfail & _)]; [|congruence].
  destruct Hacc as (_ & _ & _ & _ & Hstored & _).
  set (new := acceptedBidRow env id bidderId stored).
  assert (bid (store w1) = (bid (store w) ++ [new])%list) as Hsnoc by (by rewrite Hst).
  assert (auctionItem (store w1) !! id
          = Some (setHighestBid a stored (bidPlacedAtTimestamp env))) as Hrow.
  { rewrite Hst. simpl. by rewrite lookup_insert_eq. }
  destruct (served_Settled w1 Hserved1) as [_ Hrows].
  destruct (Hrows id _ Hrow) as (_ & _ & Hinc & _ & _ & _ & Hsorted & _).
  simpl in Hinc, Hsorted.
  assert (bid_findFirst_highest (store w1) id = Some new) as Hhighest.
  { unfold bid_findFirst_highest.
    rewrite (firstByAmountDesc_rising (minimumBidIncrementInDollars a)); [|lra|done].
    rewrite (successfulBidsOn_snoc (store w) (store w1) new id Hsnoc).
    rewrite decide_True by done. apply last_snoc. }
  destruct (handleJoinRoom_world env' socket id w1 Hid) as (info & Hfetch & ->).
  revert Hfetch.
  unfold fetchCurrentAuctionBidInfo, try_catch, bind, get_world, throw, ret.
  rewrite Hinfo, Hrow, Hhighest. simpl.
  assert (user (store w1) !! bidderId = Some u) as -> by (by rewrite Hst).
  intros [= <-]. simpl. eexists _, stored. split; [reflexivity|]. simpl.
  rewrite (count_allBidsOnItem_snoc (store w) (store w1) new id Hsnoc).
  rewrite decide_True by done.
  do 3 (split; [done|]). split; [by apply DECIMAL_12_2_near|].
  split; [intros cents; by apply DECIMAL_12_2_exact|].
  split; [by destruct (String.eqb_spec bidderId "")|].
  split; [done|lia].
Qed.

Lemma join_after_an_accepted_bid_shows_it_witness :
  exists p,
    emitted (snd (handleJoinRoom exampleEnv bobSocket (mkJoinAuctionRoomPayload (Some "a1"))
                    (snd (processBidWithDistributedLock exampleEnv "a1" "bob" 110.005
                            exampleWorld)))) =
    [ToSocket "socket-bob" (JOINED_AUCTION_ROOM "a1");
     ToSocket "socket-bob" (AUCTION_STATE_SYNC p)] /\
    sync_currentHighestBidInDollars p = 110.01%Q /\
    sync_highestBidderUserId p = Some "bob".
Proof.
  set (outcome := processBidWithDistributedLock exampleEnv "a1" "bob" 110.005 exampleWorld).
  assert (exists r, outcome = (inr r, snd outcome) /\ res_wasBidSuccessful r = true)
    as (r & Hrun & Hok).
  { eexists. vm_compute. split; reflexivity. }
  assert (emitted (snd outcome) = []) as Hquiet by (vm_compute; reflexivity).
  assert (DECIMAL_12_2 110.005 = Some 110.01%Q) as Hcents by (vm_compute; reflexivity).
  assert (user (store exampleWorld) !! "bob" = Some (mkUser "bob" "Bob")) as Hu
    by (vm_compute; reflexivity).
  assert ("a1" <> "") as Hid by discriminate.
  assert ("bob" <> "") as Hbidder by discriminate.
  destruct (join_after_an_accepted_bid_shows_it exampleEnv exampleWorld "a1" "bob" 110.005 r
              (snd outcome) (mkUser "bob" "Bob") exampleEnv bobSocket
              served_exampleWorld Hrun Hok Hid Hbidder Hu eq_refl)
    as (p & stored & Hemitted & _ & Hstored & Hamount & _ & _ & Hwho & _).
  rewrite Hquiet in Hemitted. rewrite Hcents in Hstored. injection Hstored as <-.
  exists p. split; [exact Hemitted|]. split; [exact Hamount|exact Hwho].
Defined.
